(** * OpenVoice backend: chunked enhancement pipeline and file retention

    A shallow embedding of [backend/utils/audio_processor.py] and
    [backend/utils/file_cleanup.py], with the worker task of
    [backend/celery_worker.py], the processing options of
    [backend/main.py] and the upload names of
    [backend/utils/file_handler.py].

    Modelling conventions.
    - Python [int] is [Z]; Python [float] (times, dB values) and the float32
      samples of a numpy buffer are exact rationals [Q]: rounding, NaN and
      infinities are not modelled.
    - A one-channel buffer (numpy 1-D array, or torch tensor of shape
      (1, samples)) is a [list Q]; the channel axis that [enhance_audio]
      adds and [_run_enhance] squeezes again is not represented.
    - A Python call that may raise returns a [result]; a [while] loop runs
      on fuel and gives [OutOfFuel] when the fuel does not suffice.
    - The file system is a finite map from paths to files; [exists()],
      [is_file()] and [stat()] are lookups in it: a stat call that fails
      otherwise than by a missing file is not modelled. Writers, the
      directory call and the listing of a directory are parameters.
    - A [str] is a [string] of bytes, its UTF-8 encoding. [lower]
      lower-cases the letters A to Z only, which is what the comparison of
      a suffix with [.wav] and with the empty string needs; where the
      lower-cased text itself is kept ([FileHandler]), [str.lower()] is a
      parameter.
    - Logging calls are dropped. *)

From Stdlib Require Import ZArith QArith Qabs Qround Lia Lqa String Ascii.
From stdpp Require Import base option list gmap strings.

Open Scope Z_scope.

(** ** Python values, exceptions and slicing *)
Module Py.

(** The exception classes the code distinguishes: [except Exception] catches
    the first, [except SystemExit] the second, neither catches the third
    (KeyboardInterrupt and the like). *)
Inductive exn : Type :=
| Exception (cls : string) (msg : string)
| SystemExit (arg : string)
| BaseException (cls : string).

Definition RuntimeError (msg : string) : exn := Exception "RuntimeError" msg.
Definition ValueError (msg : string) : exn := Exception "ValueError" msg.

Definition is_Exception (e : exn) : bool :=
  match e with Exception _ _ => true | _ => false end.

(** [str(e)] *)
Definition str (e : exn) : string :=
  match e with
  | Exception _ msg => msg
  | SystemExit arg => arg
  | BaseException _ => ""
  end.

Inductive result (A : Type) : Type :=
| Ok (a : A)
| Raise (e : exn)
| OutOfFuel.
Arguments Ok {A} a.
Arguments Raise {A} e.
Arguments OutOfFuel {A}.

Definition bind {A B} (m : result A) (k : A → result B) : result B :=
  match m with
  | Ok a => k a
  | Raise e => Raise e
  | OutOfFuel => OutOfFuel
  end.

(** [try: m except Exception as e: handler e] *)
Definition try_except {A} (m : result A) (handler : exn → result A) : result A :=
  match m with
  | Raise e => if is_Exception e then handler e else Raise e
  | r => r
  end.

(** Code with effects on a state [S]: the outcome and the state it leaves. *)
Definition M (S A : Type) : Type := S → result A * S.

Definition ret {S A} (a : A) : M S A := fun s => (Ok a, s).
Definition raise {S A} (e : exn) : M S A := fun s => (Raise e, s).
Definition lift {S A} (r : result A) : M S A := fun s => (r, s).

Definition bindM {S A B} (m : M S A) (k : A → M S B) : M S B :=
  fun s =>
    match m s with
    | (Ok a, s') => k a s'
    | (Raise e, s') => (Raise e, s')
    | (OutOfFuel, s') => (OutOfFuel, s')
    end.

Definition try_exceptM {S A} (m : M S A) (handler : exn → M S A) : M S A :=
  fun s =>
    match m s with
    | (Raise e, s') => if is_Exception e then handler e s' else (Raise e, s')
    | r => r
    end.

(** [len(l)] as a Python int *)
Definition len {A} (l : list A) : Z := Z.of_nat (length l).

(** [int(x)] of a float: truncation towards zero *)
Definition int (x : Q) : Z := Z.quot (Qnum x) (Z.pos (Qden x)).

(** A slice bound [i] of a sequence of length [n]: a negative bound counts
    from the end, and every bound is clamped to [0, n]. *)
Definition slice_bound (n : Z) (i : option Z) (default : Z) : Z :=
  match i with
  | None => default
  | Some i => if i <? 0 then Z.max 0 (i + n) else Z.min i n
  end.

(** [l[start:stop]] *)
Definition slice {A} (l : list A) (start stop : option Z) : list A :=
  let a := slice_bound (len l) start 0 in
  let b := slice_bound (len l) stop (len l) in
  take (Z.to_nat (b - a)) (drop (Z.to_nat a) l).

(** [min(xs)] of a nonempty sequence of ints, [sum(xs)] *)
Definition min_list (x : Z) (xs : list Z) : Z := foldr Z.min x xs.
Definition sum (xs : list Z) : Z := foldr Z.add 0 xs.

End Py.
Export Py.

Declare Scope result_scope.
Delimit Scope result_scope with result.
Notation "'let*' x ':=' m 'in' k" := (bind m (fun x => k))
  (at level 10, x name, m at level 200, k at level 200) : result_scope.
Notation "'let!' x ':=' m 'in' k" := (bindM m (fun x => k))
  (at level 10, x name, m at level 200, k at level 200) : result_scope.
Open Scope result_scope.

(** ** Paths and the file system *)
Module Fs.

(** A [pathlib.Path], split at its suffix: [str(p)] is [stem ++ suffix], and
    [suffix] is empty or starts with a dot. *)
Record path : Type := Path { stem : string; suffix : string }.

#[global] Instance path_eq_dec : EqDecision path.
Proof. solve_decision. Defined.

#[global] Instance path_countable : Countable path.
Proof.
  refine (inj_countable' (fun p => (stem p, suffix p))
                         (fun sp => Path (fst sp) (snd sp)) _).
  by intros [].
Defined.

Definition with_suffix (p : path) (sfx : string) : path := Path (stem p) sfx.

(** [p.name == ""]: the empty path [Path("")], which pathlib prints as [.],
    and the root have no name; [p.with_suffix(...)] raises a ValueError on
    them. [repr p] is [repr(p)] on a POSIX system. *)
Definition has_empty_name (p : path) : bool :=
  String.eqb (suffix p) "" && (String.eqb (stem p) "" || String.eqb (stem p) "/").

Definition repr (p : path) : string :=
  "PosixPath('" +:+ (if String.eqb (stem p +:+ suffix p) "" then "."
                      else stem p +:+ suffix p) +:+ "')".

Inductive kind : Type := Regular | Directory.

Record file : Type := File { file_kind : kind; st_mtime : Q; st_size : Z }.

Definition is_regular (f : file) : bool :=
  match file_kind f with Regular => true | Directory => false end.

(** [p.exists()], [p.is_file()], [p.stat()], as lookups *)
Definition exists_ (files : gmap path file) (p : path) : bool :=
  match files !! p with Some _ => true | None => false end.

Definition is_file (files : gmap path file) (p : path) : bool :=
  match files !! p with Some f => is_regular f | None => false end.

Definition stat (files : gmap path file) (p : path) : result file :=
  match files !! p with
  | Some f => Ok f
  | None => Raise (Exception "FileNotFoundError" "No such file or directory")
  end.

(** [str.lower()] on the letters A to Z, and [str.lstrip(".")] *)
Definition lower_ascii (c : ascii) : ascii :=
  let n := nat_of_ascii c in
  if (65 <=? n)%nat && (n <=? 90)%nat then ascii_of_nat (n + 32) else c.

Fixpoint lower (s : string) : string :=
  match s with
  | EmptyString => EmptyString
  | String c s' => String (lower_ascii c) (lower s')
  end.

Fixpoint lstrip_dots (s : string) : string :=
  match s with
  | String "."%char s' => lstrip_dots s'
  | _ => s
  end.

End Fs.
Export Fs.

(** ** numpy operations on one-dimensional buffers *)
Module Np.

(** [np.zeros(n)]: a negative size is a ValueError *)
Definition zeros (n : Z) : result (list Q) :=
  if n <? 0 then Raise (ValueError "negative dimensions are not allowed")
  else Ok (replicate (Z.to_nat n) 0%Q).

(** [np.linspace(0, 1, n)]: [n] evenly spaced weights from 0 to 1 inclusive
    (the single weight 0 when [n = 1]) *)
Definition linspace01 (n : Z) : list Q :=
  map (fun i : nat => Z.of_nat i # Pos.of_nat (Z.to_nat n - 1)) (seq 0 (Z.to_nat n)).

(** [x op y] elementwise; operands of different lengths broadcast only when
    one of them has a single element *)
Definition binop (f : Q → Q → Q) (x y : list Q) : result (list Q) :=
  if decide (length x = length y) then Ok (zip_with f x y)
  else match x, y with
       | [a], _ => Ok (map (f a) y)
       | _, [b] => Ok (map (fun a => f a b) x)
       | _, _ => Raise (ValueError "operands could not be broadcast together")
       end.

(** [out[start:stop] = vals]; [vals] must fill the slice or be one element *)
Definition set_slice (out : list Q) (start stop : option Z) (vals : list Q)
  : result (list Q) :=
  let a := slice_bound (len out) start 0 in
  let b := Z.max a (slice_bound (len out) stop (len out)) in
  let k := Z.to_nat (b - a) in
  if decide (length vals = k) then
    Ok (take (Z.to_nat a) out ++ vals ++ drop (Z.to_nat b) out)
  else match vals with
       | [v] => Ok (take (Z.to_nat a) out ++ replicate k v ++ drop (Z.to_nat b) out)
       | _ => Raise (ValueError "could not broadcast input array")
       end.

(** [np.clip(x, lo, hi)] on one sample: [minimum(maximum(x, lo), hi)] *)
Definition maximum (a b : Q) : Q := if Qle_bool a b then b else a.
Definition minimum (a b : Q) : Q := if Qle_bool a b then a else b.
Definition clip1 (lo hi x : Q) : Q := minimum (maximum x lo) hi.

Definition clip (xs : list Q) (lo hi : Q) : list Q := map (clip1 lo hi) xs.

(** [np.abs(xs).max()]: a ValueError on an empty buffer *)
Definition abs_max (xs : list Q) : result Q :=
  match xs with
  | [] => Raise (ValueError "zero-size array to reduction operation maximum")
  | x :: xs' => Ok (foldr (fun y m => maximum m (Qabs y)) (Qabs x) xs')
  end.

End Np.

(** ** [AudioProcessor] *)
Module AudioProcessor.

(** The fields of the object that [__init__] sets and the pipeline reads. *)
Record processor : Type := {
  target_sample_rate : Z;
  max_chunk_samples : option Z;
  chunk_overlap_samples : Z;
  attenuation_limit_db : option Q;
  output_gain_db : Q;
}.

(** [AudioProcessor.__init__]; a duration that is zero or negative disables
    chunking, an overlap that is zero or negative gives no overlap. *)
Definition __init__ (target_sample_rate : Z) (max_chunk_duration chunk_overlap : Q)
    (attenuation_limit_db : option Q) (output_gain_db : Q) : processor :=
  {| target_sample_rate := target_sample_rate;
     max_chunk_samples :=
       if Qlt_le_dec 0 max_chunk_duration
       then Some (int (max_chunk_duration * inject_Z target_sample_rate))
       else None;
     chunk_overlap_samples :=
       if Qlt_le_dec 0 chunk_overlap
       then int (chunk_overlap * inject_Z target_sample_rate)
       else 0;
     attenuation_limit_db := attenuation_limit_db;
     output_gain_db := output_gain_db |}.

(** The label [_run_enhance] logs: ["full"] or [f"chunk {chunk_idx}"]. *)
Inductive label : Type := Full | Chunk (chunk_idx : Z).

(** *** [_merge_chunks] *)

(** One pass of [for idx, chunk in enumerate(chunks)] and the passes after it;
    [output] and [write_pos] are the loop's mutable variables. *)
Fixpoint merge_loop (safe_overlap : Z) (idx : nat) (chunks : list (list Q))
    (output : list Q) (write_pos : Z) : result (list Q) :=
  match chunks with
  | [] => Ok output
  | chunk :: rest =>
    match idx with
    | O =>
      let* output := Np.set_slice output None (Some (len chunk)) chunk in
      merge_loop safe_overlap 1 rest output (len chunk)
    | S _ =>
      let start := write_pos - safe_overlap in
      let fade_len := safe_overlap in
      let* output :=
        if 0 <? fade_len then
          let fade_in := Np.linspace01 fade_len in
          let fade_out := map (fun w => 1 - w)%Q fade_in in
          let* prev := Np.binop Qmult (slice output (Some start) (Some write_pos)) fade_out in
          let* cur := Np.binop Qmult (slice chunk None (Some fade_len)) fade_in in
          let* mixed := Np.binop Qplus prev cur in
          Np.set_slice output (Some start) (Some write_pos) mixed
        else Ok output in
      let remain := slice chunk (Some fade_len) None in
      let end_ := start + fade_len + len remain in
      let* output := Np.set_slice output (Some (start + fade_len)) (Some end_) remain in
      merge_loop safe_overlap (S idx) rest output end_
    end
  end.

Definition _merge_chunks (chunks : list (list Q)) (overlap_samples : Z)
  : result (list Q) :=
  match chunks with
  | [] => Ok []
  | c :: cs =>
    if (len chunks =? 1) || (overlap_samples <=? 0) then
      Ok (concat chunks)
    else
      let safe_overlap :=
        Z.min overlap_samples (min_list (len c) (map len cs) `div` 2) in
      let total_len := sum (map len chunks) - safe_overlap * (len chunks - 1) in
      let* output := Np.zeros total_len in
      merge_loop safe_overlap 0 chunks output 0
  end.

(** *** [_run_enhance] and [enhance_audio] *)
Section Enhance.

(** The external model, [df.enhance(model, df_state, tensor, atten_lim_db=...)],
    and Python's [10 ** x] on floats (an OverflowError when out of range). *)
Variable enhance_fn : list Q → option Q → result (list Q).
Variable pow10 : Q → result Q.

Definition _run_enhance (audio_tensor : list Q) (l : label)
    (atten_lim_db : option Q) : result (list Q) :=
  match atten_lim_db with
  | Some a => enhance_fn audio_tensor (Some a)
  | None => enhance_fn audio_tensor None
  end.

(** The [while start < total_len] loop of [enhance_audio]; [start],
    [chunk_idx] and [enhanced_chunks] are its mutable variables. *)
Fixpoint chunk_loop (audio_tensor : list Q) (max_chunk_samples overlap total_len : Z)
    (atten_lim : option Q) (fuel : nat) (start chunk_idx : Z)
    (enhanced_chunks : list (list Q)) : result (list (list Q)) :=
  match fuel with
  | O => OutOfFuel
  | S fuel' =>
    if start <? total_len then
      let end_ := Z.min (start + max_chunk_samples) total_len in
      let chunk_tensor := slice audio_tensor (Some start) (Some end_) in
      let* enhanced_chunk := _run_enhance chunk_tensor (Chunk chunk_idx) atten_lim in
      let enhanced_chunks := enhanced_chunks ++ [enhanced_chunk] in
      if total_len <=? end_ then Ok enhanced_chunks
      else
        let start := if 0 <? overlap then end_ - overlap else end_ in
        chunk_loop audio_tensor max_chunk_samples overlap total_len atten_lim
          fuel' start (chunk_idx + 1) enhanced_chunks
    else Ok enhanced_chunks
  end.

(** The gain stage: [if gain_db and gain_db != 0: ...] *)
Definition gain_stage (gain_db : Q) (enhanced : list Q) : result (list Q) :=
  if negb (Qeq_bool gain_db 0) then
    let* gain := pow10 (gain_db / 20) in
    let enhanced := map (fun x => x * gain)%Q enhanced in
    Ok (Np.clip enhanced (-1) 1)
  else Ok enhanced.

(** The overlap the chunking loop steps back by and hands to the merger. *)
Definition planned_overlap (self : processor) (max_chunk_samples : Z) : Z :=
  Z.min (chunk_overlap_samples self) (max_chunk_samples `div` 4).

(** The body of the [try] block of [enhance_audio]. *)
Definition enhance_try (self : processor) (fuel : nat) (audio : list Q)
    (attenuation_limit_db' output_gain_db' : option Q) : result (list Q) :=
  let* peak := Np.abs_max audio in
  let audio := if Qlt_le_dec 1 peak then map (fun x => x / peak)%Q audio else audio in
  let atten_lim :=
    match attenuation_limit_db' with Some a => Some a | None => attenuation_limit_db self end in
  let gain_db :=
    match output_gain_db' with Some g => g | None => output_gain_db self end in
  let audio_tensor := audio in
  let* enhanced :=
    match max_chunk_samples self with
    | Some max_chunk =>
      if negb (max_chunk =? 0) && (max_chunk <? len audio_tensor) then
        let overlap := planned_overlap self max_chunk in
        let total_len := len audio_tensor in
        let* enhanced_chunks :=
          chunk_loop audio_tensor max_chunk overlap total_len atten_lim fuel 0 1 [] in
        _merge_chunks enhanced_chunks overlap
      else _run_enhance audio_tensor Full atten_lim
    | None => _run_enhance audio_tensor Full atten_lim
    end in
  gain_stage gain_db enhanced.

End Enhance.

(** The windows [(start, end)] the chunking loop visits: the index
    arithmetic of [chunk_loop] alone, without the model call. *)
Fixpoint chunk_windows (max_chunk_samples overlap total_len : Z) (fuel : nat)
    (start : Z) : option (list (Z * Z)) :=
  match fuel with
  | O => None
  | S fuel' =>
    if start <? total_len then
      let end_ := Z.min (start + max_chunk_samples) total_len in
      if total_len <=? end_ then Some [(start, end_)]
      else
        let start' := if 0 <? overlap then end_ - overlap else end_ in
        ws ← chunk_windows max_chunk_samples overlap total_len fuel' start';
        Some ((start, end_) :: ws)
    else Some []
  end.

(** *** The object's mutable state and its surroundings *)

Inductive event : Type :=
| InitDf                 (** one call of [init_df()] *)
| Sleep (seconds : Z).   (** [time.sleep(seconds)] *)

Record state : Type := {
  _initialized : bool;
  init_df_calls : nat;          (** calls of [init_df()] made so far *)
  events : list event;          (** loader calls and sleeps, oldest first *)
  files : gmap path file;
}.

Definition set_initialized (b : bool) (s : state) : state :=
  {| _initialized := b; init_df_calls := init_df_calls s;
     events := events s; files := files s |}.

Definition log_event (e : event) (s : state) : state :=
  {| _initialized := _initialized s; init_df_calls := init_df_calls s;
     events := events s ++ [e]; files := files s |}.

Definition count_init_df (s : state) : state :=
  {| _initialized := _initialized s; init_df_calls := S (init_df_calls s);
     events := events s; files := files s |}.

Definition set_files (fs : gmap path file) (s : state) : state :=
  {| _initialized := _initialized s; init_df_calls := init_df_calls s;
     events := events s; files := fs |}.

(** An array as [librosa.load(..., mono=False)] returns it. *)
Inductive ndarray : Type :=
| Array1 (samples : list Q)
| Array2 (channels : list (list Q)).

(** The result dictionary of [process_file]. *)
Inductive process_result : Type :=
| Success (duration_seconds : Q) (sample_rate : Z) (output_size_bytes : Z)
          (output_size_mb : Q) (output_path : path)
| Failure (error : string).

Section Pipeline.

(** External collaborators. [df_import] is [from df import enhance, init_df];
    [init_df k] is the outcome of the call of [init_df()] that [k] calls
    preceded; the writers act on the file system in any way they like. *)
Variable df_import : result unit.
Variable init_df : nat → result unit.
Variable enhance_fn : list Q → option Q → result (list Q).
Variable pow10 : Q → result Q.
Variable librosa_load : path → result (ndarray * Z).
Variable librosa_to_mono : list (list Q) → result (list Q).
Variable librosa_resample : list Q → Z → Z → result (list Q).
Variable sf_write : path → list Q → Z → gmap path file → result unit * gmap path file.
Variable pydub_export :
  path → path → string → gmap path file → result unit * gmap path file.

(** [target_path.parent.mkdir(parents=True, exist_ok=True)] for a given
    target path, and the error (if any) with which the operating system
    refuses to unlink a path. *)
Variable mkdir_parent : path → gmap path file → result unit * gmap path file.
Variable unlink_error : path → option (string * string).

Definition call_init_df : M state unit :=
  fun s => (init_df (init_df_calls s), log_event InitDf (count_init_df s)).

Definition sleep (seconds : Z) : M state unit :=
  fun s => (Ok tt, log_event (Sleep seconds) s).

(** [f"{last_err}"] *)
Definition fmt_err (last_err : option exn) : string :=
  match last_err with Some e => str e | None => "None" end.

(** [for attempt in range(3)]: the passes over the attempts that remain;
    the result is [last_err] when the loop ends or breaks. *)
Fixpoint init_attempts (attempts : list Z) (last_err : option exn)
  : M state (option exn) :=
  match attempts with
  | [] => ret last_err
  | attempt :: rest =>
    fun s =>
      let after_failure (err : exn) : M state (option exn) :=
        let wait := 2 ^ attempt in
        let! _ := sleep wait in
        init_attempts rest (Some err) in
      match call_init_df s with
      | (Ok _, s1) => (Ok last_err, set_initialized true s1)
      | (Raise (SystemExit se), s1) =>
        after_failure
          (RuntimeError ("DeepFilterNet init aborted (SystemExit): " +:+ se)) s1
      | (Raise (Exception cls msg), s1) => after_failure (Exception cls msg) s1
      | (Raise (BaseException cls), s1) => (Raise (BaseException cls), s1)
      | (OutOfFuel, s1) => (OutOfFuel, s1)
      end
  end.

Definition initialize : M state unit :=
  fun s =>
    if _initialized s then (Ok tt, s)
    else
      try_exceptM
        (let! _ := lift df_import in
         let! last_err := init_attempts [0; 1; 2] None in
         fun s' =>
           if negb (_initialized s') then
             (Raise (RuntimeError
                ("Failed to initialize DeepFilterNet after retries: " +:+ fmt_err last_err)),
              s')
           else (Ok tt, s'))
        (fun e =>
           raise (RuntimeError ("Failed to initialize audio processing model: " +:+ str e)))
        s.

Definition load_audio (self : processor) (file_path : path) : M state (list Q * Z) :=
  lift
    (try_except
       (let* loaded := librosa_load file_path in
        let* audio :=
          match fst loaded with
          | Array1 a => Ok a
          | Array2 chs => librosa_to_mono chs
          end in
        let sr := snd loaded in
        if negb (sr =? target_sample_rate self) then
          let* audio := librosa_resample audio sr (target_sample_rate self) in
          Ok (audio, target_sample_rate self)
        else Ok (audio, sr))
       (fun e => Raise (RuntimeError ("Failed to load audio file: " +:+ str e)))).

Definition enhance_audio (self : processor) (fuel : nat) (audio : list Q)
    (sample_rate : Z) (attenuation_limit_db' output_gain_db' : option Q)
  : M state (list Q) :=
  let! _ := (fun s => if negb (_initialized s) then initialize s else (Ok tt, s)) in
  lift
    (try_except
       (let* _ := df_import in
        enhance_try enhance_fn pow10 self fuel audio attenuation_limit_db' output_gain_db')
       (fun e => Raise (RuntimeError ("Failed to enhance audio: " +:+ str e)))).

(** [p.unlink(missing_ok=True)]: a missing file is no error. *)
Definition unlink_missing_ok (p : path) : M state unit :=
  fun s =>
    match unlink_error p with
    | Some err => (Raise (Exception (fst err) (snd err)), s)
    | None => (Ok tt, set_files (delete p (files s)) s)
    end.

(** [save_audio] returns the path it kept: [Some target_path] stands for the
    early [return str(target_path)] inside the conversion block. *)
Definition save_audio (audio : list Q) (output_path : path) (sample_rate : Z)
  : M state path :=
  try_exceptM
    (let target_path := output_path in
     let! _ := (fun s =>
       let '(r, fs) := mkdir_parent target_path (files s) in
       (r, set_files fs s)) in
     let target_ext := lower (suffix target_path) in
     let! wav_path :=
       if String.eqb target_ext ".wav" then ret target_path
       else if has_empty_name target_path
            then raise (ValueError (repr target_path +:+ " has an empty name"))
            else ret (with_suffix target_path ".wav") in
     let! _ := (fun s =>
       let '(r, fs) := sf_write wav_path audio sample_rate (files s) in
       (r, set_files fs s)) in
     let! converted :=
       if negb (String.eqb target_ext "") && negb (String.eqb target_ext ".wav") then
         try_exceptM
           (let! _ := (fun s =>
              let '(r, fs) :=
                pydub_export wav_path target_path (lstrip_dots target_ext) (files s) in
              (r, set_files fs s)) in
            let! size := (fun s =>
              (if exists_ (files s) target_path
               then let* st := stat (files s) target_path in Ok (st_size st)
               else Ok 0, s)) in
            if 0 <? size then
              let! _ := unlink_missing_ok wav_path in
              ret (Some target_path)
            else ret None)
           (fun conv_err => ret None)
       else ret None in
     match converted with
     | Some written => ret written
     | None => ret wav_path
     end)
    (fun e => raise (RuntimeError ("Failed to save audio file: " +:+ str e))).

Definition process_file (self : processor) (fuel : nat) (input_path output_path : path)
    (attenuation_limit_db' output_gain_db' : option Q) : M state process_result :=
  try_exceptM
    (let! loaded := load_audio self input_path in
     let audio := fst loaded in
     let sr := snd loaded in
     let! original_duration :=
       lift (if sr =? 0
             then Raise (Exception "ZeroDivisionError" "division by zero")
             else Ok (inject_Z (len audio) / inject_Z sr)%Q) in
     let! enhanced :=
       enhance_audio self fuel audio sr attenuation_limit_db' output_gain_db' in
     let! final_output_path := save_audio enhanced output_path sr in
     let! st := (fun s => (stat (files s) final_output_path, s)) in
     let output_size := st_size st in
     ret (Success original_duration sr output_size
            (inject_Z output_size / inject_Z (1024 * 1024))%Q final_output_path))
    (fun e => ret (Failure (str e))).

End Pipeline.

End AudioProcessor.

(** ** [FileCleanupManager] *)
Module FileCleanupManager.

Record manager : Type := {
  directories : list path;
  retention_seconds : Z;
}.

Section Cleanup.

(** [time.time()], and the error (if any) with which the operating system
    refuses to unlink a path. *)
Variable time_time : Q.
Variable unlink_error : path → option (string * string).

(** [p.unlink()] *)
Definition unlink (p : path) : M (gmap path file) unit :=
  fun fs =>
    match fs !! p with
    | None => (Raise (Exception "FileNotFoundError" "No such file or directory"), fs)
    | Some _ =>
      match unlink_error p with
      | Some err => (Raise (Exception (fst err) (snd err)), fs)
      | None => (Ok tt, delete p fs)
      end
    end.

Definition delete_file (self : manager) (file_path : path)
  : M (gmap path file) bool :=
  try_exceptM
    (fun fs =>
       if exists_ fs file_path && is_file fs file_path then
         (let! _ := unlink file_path in ret true) fs
       else (Ok false, fs))
    (fun e => ret false).

Definition get_file_age_seconds (self : manager) (fs : gmap path file)
    (file_path : path) : Q :=
  if negb (exists_ fs file_path) then 0%Q
  else
    let current_time := time_time in
    let file_mtime :=
      match fs !! file_path with Some f => st_mtime f | None => 0%Q end in
    (current_time - file_mtime)%Q.

Definition get_time_until_deletion (self : manager) (fs : gmap path file)
    (file_path : path) : Z :=
  let age := get_file_age_seconds self fs file_path in
  let remaining := (inject_Z (retention_seconds self) - age)%Q in
  Z.max 0 (int remaining).

End Cleanup.

(** *** [cleanup_old_files] *)
Section Sweep.

(** [time.time()], the error (if any) with which the operating system
    refuses to unlink a path, and [directory.iterdir()] in a given file
    system: the entries it yields, or the error of the listing. *)
Variable time_time : Q.
Variable unlink_error : path → option (string * string).
Variable iterdir : gmap path file → path → list path + exn.

(** The state of a sweep is the file system together with the local
    [total_deleted]. A stat call that fails is not modelled: in the code it
    ends the pass over the directory, or the sweep when it is the
    directory's own [exists()], so that fewer files are removed. The body
    of the inner [for file_path in ...] loop: *)
Definition sweep_file (cutoff_time : Q) (file_path : path)
  : M (gmap path file * Z) unit :=
  fun st =>
    if negb (is_file (fst st) file_path) then (Ok tt, st)
    else
      (let! file_mtime :=
         (fun st => (let* f := stat (fst st) file_path in Ok (st_mtime f), st)) in
       if Qlt_le_dec file_mtime cutoff_time then
         try_exceptM
           (let! _ := (fun st =>
              let '(r, fs) := unlink unlink_error file_path (fst st) in
              (r, (fs, snd st))) in
            fun st => (Ok tt, (fst st, snd st + 1)))
           (fun e => ret tt)
       else ret tt) st.

Fixpoint sweep_files (cutoff_time : Q) (entries : list path)
  : M (gmap path file * Z) unit :=
  match entries with
  | [] => ret tt
  | file_path :: rest =>
    let! _ := sweep_file cutoff_time file_path in
    sweep_files cutoff_time rest
  end.

(** The body of the outer [for directory in self.directories] loop. *)
Definition sweep_directory (cutoff_time : Q) (directory : path)
  : M (gmap path file * Z) unit :=
  fun st =>
    if negb (exists_ (fst st) directory) then (Ok tt, st)
    else
      try_exceptM
        (let! entries := (fun st =>
           (match iterdir (fst st) directory with
            | inl entries => Ok entries
            | inr e => Raise e
            end, st)) in
         sweep_files cutoff_time entries)
        (fun e => ret tt) st.

Fixpoint sweep_directories (cutoff_time : Q) (dirs : list path)
  : M (gmap path file * Z) unit :=
  match dirs with
  | [] => ret tt
  | directory :: rest =>
    let! _ := sweep_directory cutoff_time directory in
    sweep_directories cutoff_time rest
  end.

Definition cleanup_old_files (self : manager) : M (gmap path file) Z :=
  fun fs =>
    let current_time := time_time in
    let cutoff_time := (current_time - inject_Z (retention_seconds self))%Q in
    let total_deleted := 0 in
    let '(r, st) := sweep_directories cutoff_time (directories self) (fs, total_deleted) in
    (let* _ := r in Ok (snd st), fst st).

End Sweep.

End FileCleanupManager.

(** ** [celery_worker.py] *)
Module CeleryWorker.

Import AudioProcessor.

(** The dictionary a completed task returns. *)
Record task_result : Type := {
  status : string;
  task_id : string;
  output_path : path;
  duration_seconds : Q;
  sample_rate : Z;
  output_size_mb : Q;
  progress : Z;
}.

Section Task.

Variable df_import : result unit.
Variable init_df : nat → result unit.
Variable enhance_fn : list Q → option Q → result (list Q).
Variable pow10 : Q → result Q.
Variable librosa_load : path → result (ndarray * Z).
Variable librosa_to_mono : list (list Q) → result (list Q).
Variable librosa_resample : list Q → Z → Z → result (list Q).
Variable sf_write : path → list Q → Z → gmap path file → result unit * gmap path file.
Variable pydub_export :
  path → path → string → gmap path file → result unit * gmap path file.
Variable mkdir_parent : path → gmap path file → result unit * gmap path file.
Variable unlink_error : path → option (string * string).

(** [self.update_state(state='PROCESSING', ...)], a call to the result
    backend. *)
Variable update_state : result unit.

(** [process_audio_task]; [audio_processor] is the module's processor
    object, [options or {}] is the empty dictionary for [None]. *)
Definition process_audio_task (audio_processor : processor) (fuel : nat)
    (input_path output_path' : path) (task_id' : string)
    (options : option (gmap string Q)) : M state task_result :=
  try_exceptM
    (let! _ := lift update_state in
     let options := default ∅ options in
     let attenuation_limit_db := options !! "attenuation_limit_db" in
     let output_gain_db := options !! "output_gain_db" in
     let! result :=
       process_file df_import init_df enhance_fn pow10 librosa_load librosa_to_mono
         librosa_resample sf_write pydub_export mkdir_parent unlink_error audio_processor fuel
         input_path output_path' attenuation_limit_db output_gain_db in
     match result with
     | Success duration sr _ size_mb final_output_path =>
       ret {| status := "completed";
              task_id := task_id';
              output_path := final_output_path;
              duration_seconds := duration;
              sample_rate := sr;
              output_size_mb := size_mb;
              progress := 100 |}
     | Failure error => raise (Exception "Exception" error)
     end)
    (fun e => raise e).

End Task.

End CeleryWorker.

(** ** [main.py]: the processing options of an upload *)
Module Main.

(** Python's [max(a, b)] and [min(a, b)] of two floats: the first argument
    unless the second is strictly larger (smaller). *)
Definition max_ (a b : Q) : Q := if Qlt_le_dec a b then b else a.
Definition min_ (a b : Q) : Q := if Qlt_le_dec b a then b else a.

(** [round(x)]: the nearest integer, a tie going to the even one; and
    [round(x, 2)], both on exact rationals. *)
Definition round_ (x : Q) : Z :=
  let f := Qfloor x in
  let r := (x - inject_Z f)%Q in
  if Qlt_le_dec r (1 # 2) then f
  else if Qlt_le_dec (1 # 2) r then f + 1
  else if Z.even f then f else f + 1.

Definition round2 (x : Q) : Q := (inject_Z (round_ (x * 100)) / 100)%Q.

(** The [proc_options] dictionary [upload_audio] hands to the task. *)
Definition proc_options (noise_strength : option Q) : gmap string Q :=
  match noise_strength with
  | Some noise_strength =>
    let strength := max_ 0 (min_ 10 noise_strength) in
    <["output_gain_db" := max_ 0 (round2 (2 - strength * (1 # 10)))]>
      (<["attenuation_limit_db" := (6 + strength * 2)%Q]> ∅)
  | None => ∅
  end.

End Main.

(** ** [FileHandler] *)
Module FileHandler.

Record handler : Type := {
  max_size_bytes : Z;
  allowed_extensions : gset string;
}.

(** A Python [str] is taken in its UTF-8 encoding: the byte of the dot
    occurs in it only as a dot, so that ['.' in s] and [rsplit('.', 1)] can
    be read off the bytes. *)

(** ['.' in s] *)
Fixpoint contains_dot (s : string) : bool :=
  match s with
  | EmptyString => false
  | String c s' => Ascii.eqb c "." || contains_dot s'
  end.

(** [s.rsplit('.', 1)[-1]]: what follows the last dot of [s], and all of
    [s] when it has no dot. *)
Fixpoint rsplit_last (s : string) : string :=
  match s with
  | EmptyString => EmptyString
  | String c s' =>
    if contains_dot s' then rsplit_last s'
    else if Ascii.eqb c "." then s' else s
  end.

(** [', '.join(xs)] *)
Fixpoint join (xs : list string) : string :=
  match xs with
  | [] => ""
  | [x] => x
  | x :: rest => x +:+ ", " +:+ join rest
  end.

Section Handler.

(** [str.lower()], which knows all of Unicode; the order in which Python
    iterates over a set of strings; and [uuid.uuid4().hex]. *)
Variable str_lower : string → string.
Variable set_iter : gset string → list string.
Variable uuid4_hex : string.

Definition validate_file_extension (self : handler) (filename : string)
  : bool * option string :=
  let ext := if contains_dot filename then str_lower (rsplit_last filename) else "" in
  if negb (bool_decide (ext ∈ allowed_extensions self)) then
    (false, Some ("File extension '." +:+ ext +:+ "' not allowed. Allowed: " +:+
                  join (set_iter (allowed_extensions self))))
  else (true, None).

Definition generate_unique_filename (self : handler) (original_filename : string)
  : string :=
  let ext :=
    if contains_dot original_filename then str_lower (rsplit_last original_filename)
    else "bin" in
  let unique_id := uuid4_hex in
  unique_id +:+ "." +:+ ext.

End Handler.

End FileHandler.

(** * Definitions the properties are stated with *)

Import AudioProcessor FileCleanupManager.

(** ** Merging, in the words of the spec *)

(** The crossfade of the spec: previous·(1−w) + current·w, with [w] ramping
    linearly from 0 to 1 over the [s] samples of the overlap. *)
Definition crossfade (s : nat) (previous current : list Q) : list Q :=
  let w := Np.linspace01 (Z.of_nat s) in
  zip_with Qplus (zip_with Qmult previous (map (fun w => 1 - w)%Q w))
                 (zip_with Qmult current w).

(** One more chunk on a buffer already written: its first [s] samples are
    crossfaded against the last [s] samples written, the rest is appended. *)
Definition append_chunk (s : nat) (written chunk : list Q) : list Q :=
  let k := (length written - s)%nat in
  take k written ++ crossfade s (drop k written) (take s chunk) ++ drop s chunk.

(** The first chunk verbatim, then every further chunk in order. *)
Definition overlap_add (s : nat) (first : list Q) (rest : list (list Q)) : list Q :=
  foldl (append_chunk s) first rest.

(** Where chunk [i] starts in the merged buffer when consecutive chunks
    share [s] samples. *)
Definition chunk_offset (s : nat) (chunks : list (list Q)) (i : nat) : nat :=
  sum_list (map (fun c => length c - s)%nat (take i chunks)).

(** The weight [w] at position [j] of an overlap of [s] samples. *)
Definition fade_weight (s j : nat) : Q := Z.of_nat j # Pos.of_nat (s - 1).

(** The chunk whose trailing samples chunk [i] of [rest] is blended with:
    the buffer written so far for the first, the chunk before otherwise. *)
Definition previous_of (written : list Q) (rest : list (list Q)) (i : nat) : list Q :=
  match i with
  | O => written
  | S i' => default [] (rest !! i')
  end.

(** The merged length with an overlap of its own at each boundary, as the
    spec words it: the sum of the chunk lengths minus, for each boundary,
    min(O, half of the shorter of the two chunks that meet there). *)
Fixpoint boundary_overlaps (O : Z) (chunks : list (list Q)) : list Z :=
  match chunks with
  | a :: (b :: _) as rest =>
    Z.min O (Z.min (len a) (len b) `div` 2) :: boundary_overlaps O rest
  | _ => []
  end.

Definition per_boundary_length (O : Z) (chunks : list (list Q)) : Z :=
  Py.sum (map len chunks) - Py.sum (boundary_overlaps O chunks).

(** ** Chunk planning, in the words of the spec *)

(** The chunk plan of the spec: the first window starts at [start], every
    window ends at [min(start_i + C, N)], and the next one starts [overlap]
    before that end unless the end is [N], which closes the plan. *)
Fixpoint is_plan (C overlap N start : Z) (ws : list (Z * Z)) : Prop :=
  match ws with
  | [] => False
  | w :: rest =>
    fst w = start ∧ snd w = Z.min (start + C) N ∧
    match rest with
    | [] => snd w = N
    | _ :: _ => snd w < N ∧ is_plan C overlap N (snd w - overlap) rest
    end
  end.

Definition window_len (w : Z * Z) : Z := snd w - fst w.

(** ** Outcomes of the loader and of the conversion *)

(** A loader outcome the retry loop takes as a failed attempt: an exception
    derived from [Exception], or [SystemExit]. *)
Definition retryable (r : result unit) : bool :=
  match r with
  | Raise (Exception _ _) | Raise (SystemExit _) => true
  | _ => false
  end.

(** What [failures] failed attempts leave in the event log: each loader
    call followed by a sleep of 1, 2, 4, ... seconds. *)
Definition backoff_events (failures : nat) : list event :=
  flat_map (fun i : nat => [InitDf; Sleep (2 ^ Z.of_nat i)]) (seq 0 failures).

(** The conversion to the requested container did not produce a usable
    file: the exporter raised, or it returned and the target is missing or
    empty. *)
Definition fell_back (target : path) (o : result unit * gmap path file) : Prop :=
  match o with
  | (Ok _, fs) =>
    match fs !! target with Some f => st_size f ≤ 0 | None => True end
  | _ => True
  end.

(** ** Ranges, outcomes and sweeps *)

(** A sample within [-1, 1]. *)
Definition in_range (x : Q) : Prop := (-1 <= x)%Q ∧ (x <= 1)%Q.

(** A computation that returns or raises within its fuel. *)
Definition finishes {A} (r : result A) : Prop := r ≠ OutOfFuel.

(** What one step of a sweep may do to the file system and the counter: it
    only removes entries, every entry it removes is a regular file older
    than the cutoff whose unlink the system allows, and the counter grows
    by the number of entries removed. *)
Definition sweeps (unlink_error : path → option (string * string)) (cutoff : Q)
    (st st' : gmap path file * Z) : Prop :=
  (∀ p f, fst st' !! p = Some f → fst st !! p = Some f)
  ∧ (∀ p f, fst st !! p = Some f → fst st' !! p = None →
       is_regular f = true ∧ (st_mtime f < cutoff)%Q ∧ unlink_error p = None)
  ∧ Z.of_nat (size (fst st)) + snd st = Z.of_nat (size (fst st')) + snd st'.

(** An outcome that is a value or an exception that [except Exception] does
    not catch. *)
Definition not_Exception {A} (r : result A) : Prop :=
  match r with
  | Ok _ => True
  | Raise e => is_Exception e = false
  | OutOfFuel => False
  end.


(** The buffer [load_audio] goes on with: a one-dimensional array as it
    is, an array of channels mixed down. *)
Definition mono_of (librosa_to_mono : list (list Q) → result (list Q))
    (arr : ndarray) : result (list Q) :=
  match arr with
  | Array1 a => Ok a
  | Array2 chs => librosa_to_mono chs
  end.

(** A stage of [load_audio] raises [e]: the loader, or the mix-down of what
    it loaded, or the resampling of a buffer whose rate is not the target
    rate. *)
Definition load_failure (librosa_load : path → result (ndarray * Z))
    (librosa_to_mono : list (list Q) → result (list Q))
    (librosa_resample : list Q → Z → Z → result (list Q))
    (target : Z) (file_path : path) (e : exn) : Prop :=
  librosa_load file_path = Raise e
  ∨ (∃ arr sr, librosa_load file_path = Ok (arr, sr)
               ∧ mono_of librosa_to_mono arr = Raise e)
  ∨ (∃ arr sr mono, librosa_load file_path = Ok (arr, sr)
                    ∧ mono_of librosa_to_mono arr = Ok mono
                    ∧ sr ≠ target
                    ∧ librosa_resample mono sr target = Raise e).

(** What [except Exception as e: raise RuntimeError(prefix + str(e))] makes
    of an exception: an [Exception] is wrapped, anything else passes. *)
Definition wrapped (prefix : string) (e : exn) : exn :=
  if is_Exception e then RuntimeError (prefix +:+ str e) else e.

(** The text the retry loop keeps of a failed attempt. *)
Definition attempt_error (r : result unit) : string :=
  match r with
  | Raise (Exception _ msg) => msg
  | Raise (SystemExit arg) => "DeepFilterNet init aborted (SystemExit): " +:+ arg
  | _ => ""
  end.

(** * Properties *)

(** ** Retention manager *)
Section CleanupProperties.

Lemma int_inject_Z (q : Q) (z : Z) : (q == inject_Z z)%Q → int q = z.
Proof.
  unfold Qeq, int. simpl. intros H.
  rewrite Z.mul_1_r in H. rewrite H.
  apply Z.quot_mul. discriminate.
Qed.

Lemma int_nonpos (q : Q) : (q <= 0)%Q → int q ≤ 0.
Proof.
  unfold Qle, int. simpl. intros H. rewrite Z.mul_1_r in H.
  assert (Hd : 0 < Z.pos (Qden q)) by reflexivity.
  pose proof (Z.quot_le_mono (Qnum q) 0 (Z.pos (Qden q)) Hd H) as Hq.
  rewrite Z.quot_0_l in Hq; [exact Hq | discriminate].
Qed.

Lemma int_nonneg_bounds (q : Q) :
  (0 <= q)%Q → (inject_Z (int q) <= q)%Q ∧ (q < inject_Z (int q + 1))%Q.
Proof.
  unfold Qle, Qlt, int. simpl. intros H. rewrite Z.mul_1_r in H.
  assert (Hd : 0 < Z.pos (Qden q)) by reflexivity.
  rewrite Z.quot_div_nonneg by lia.
  rewrite !Z.mul_1_r.
  pose proof (Z.mul_div_le (Qnum q) (Z.pos (Qden q)) Hd).
  pose proof (Z.mul_succ_div_gt (Qnum q) (Z.pos (Qden q)) Hd).
  lia.
Qed.

Lemma lookup_exists_ (fs : gmap path file) (p : path) :
  exists_ fs p = match fs !! p with Some _ => true | None => false end.
Proof. reflexivity. Qed.

Lemma file_age_lookup (now : Q) (self : manager) (fs : gmap path file) (p : path) :
  get_file_age_seconds now self fs p =
  match fs !! p with Some f => (now - st_mtime f)%Q | None => 0%Q end.
Proof.
  unfold get_file_age_seconds. rewrite lookup_exists_.
  destruct (fs !! p); reflexivity.
Qed.

(** C2 (as the code has it): the remaining time is the truncated difference
    between the retention window and the file's age, floored at 0. The age
    of an existing file is now minus its modification time; a file that
    does not exist has age 0, so it is reported the whole retention window.
    The value is never negative, is within one second below the exact
    difference, is the whole window for a file modified just now, and is 0
    once the age has reached the window. *)
Theorem time_until_deletion_spec (now : Q) (self : manager)
    (fs : gmap path file) (p : path) :
  let r := get_time_until_deletion now self fs p in
  let age := match fs !! p with Some f => (now - st_mtime f)%Q | None => 0%Q end in
  let remaining := (inject_Z (retention_seconds self) - age)%Q in
  r = Z.max 0 (int remaining)
  ∧ 0 ≤ r
  ∧ ((0 <= remaining)%Q → (inject_Z r <= remaining)%Q ∧ (remaining < inject_Z (r + 1))%Q)
  ∧ ((remaining <= 0)%Q → r = 0)
  ∧ (fs !! p = None → r = Z.max 0 (retention_seconds self))
  ∧ (∀ f, fs !! p = Some f → (st_mtime f == now)%Q →
       r = Z.max 0 (retention_seconds self)).
Proof.
  intros r age remaining.
  assert (Hr : r = Z.max 0 (int remaining)).
  { subst r remaining age. unfold get_time_until_deletion.
    rewrite file_age_lookup. reflexivity. }
  split; [exact Hr|]. split; [lia|].
  split.
  { intros Hpos. destruct (int_nonneg_bounds remaining Hpos) as [Hlo Hhi].
    assert (0 ≤ int remaining).
    { pose proof (Qle_lt_trans _ _ _ Hpos Hhi) as H0.
      unfold Qlt in H0. simpl in H0. lia. }
    rewrite Hr, Z.max_r by lia. split; assumption. }
  split.
  { intros Hneg. pose proof (int_nonpos remaining Hneg). lia. }
  split.
  { intros Hnone. rewrite Hr. f_equal. apply int_inject_Z.
    subst remaining age. rewrite Hnone. ring. }
  intros f Hf Hm. rewrite Hr. f_equal. apply int_inject_Z.
  subst remaining age. rewrite Hf, Hm. ring.
Qed.

(** C2, counterexample: with a retention window of 600 s, a path that names
    no file is reported 600 s until deletion, not 0. *)
Lemma time_until_deletion_missing_file :
  let self := {| directories := []; retention_seconds := 600 |} in
  let p := Path "processed/gone" ".wav" in
  (∅ : gmap path file) !! p = None
  ∧ get_time_until_deletion 1000 self ∅ p = 600
  ∧ get_time_until_deletion 1000 self ∅ p ≠ 0.
Proof.
  split; [apply lookup_empty|].
  assert (H : get_time_until_deletion 1000
                {| directories := []; retention_seconds := 600 |} ∅
                (Path "processed/gone" ".wav") = 600).
  { unfold get_time_until_deletion. rewrite file_age_lookup, lookup_empty.
    reflexivity. }
  rewrite H. split; [reflexivity | discriminate].
Qed.

(** A fresh file with ten minutes of retention, asked 90.5 s later. *)
Example time_until_deletion_after_90_seconds :
  get_time_until_deletion (2181 # 2)
    {| directories := []; retention_seconds := 600 |}
    {[ Path "processed/a" ".wav" := File Regular 1000 48 ]}
    (Path "processed/a" ".wav") = 509.
Proof.
  unfold get_time_until_deletion. rewrite file_age_lookup, lookup_singleton_eq.
  reflexivity.
Qed.

(** C10: [delete_file] always returns a boolean and never raises. The
    boolean is [True] exactly when the path names a regular file and the
    unlink goes through, and then the file is gone; it is [False], with the
    file system untouched, both for a path that names no file and for a
    regular file whose unlink is refused, so the two cannot be told apart
    from the return value. *)
Theorem delete_file_never_raises (unlink_error : path → option (string * string))
    (self : manager) (p : path) (fs : gmap path file) :
  ∃ b fs',
    delete_file unlink_error self p fs = (Ok b, fs')
    ∧ (b = true ↔ is_file fs p = true ∧ unlink_error p = None)
    ∧ (b = true → fs' = delete p fs)
    ∧ (b = false → fs' = fs)
    ∧ (fs !! p = None → b = false)
    ∧ (is_file fs p = true → unlink_error p ≠ None → b = false).
Proof.
  unfold delete_file, try_exceptM, bindM, unlink, ret, is_file, exists_.
  destruct (fs !! p) as [f|] eqn:Hf; simpl.
  - destruct (is_regular f) eqn:Hreg; simpl.
    + destruct (unlink_error p) as [err|] eqn:He; simpl.
      * exists false, fs. repeat split; try done. by intros [_ ?].
      * exists true, (delete p fs). repeat split; done.
    + exists false, fs. repeat split; try done. by intros [? _].
  - exists false, fs. repeat split; try done. by intros [? _].
Qed.

End CleanupProperties.

(** ** Gain stage *)
Section GainProperties.

Variable pow10 : Q → result Q.

Lemma clip1_unit_bound (x : Q) : (Qabs (Np.clip1 (-1) 1 x) <= 1)%Q.
Proof.
  apply Qabs_Qle_condition.
  unfold Np.clip1, Np.minimum, Np.maximum, Qle_bool.
  destruct x as [n d]. cbn [Qnum Qden].
  destruct (Z.leb_spec (n * 1) (-1 * Z.pos d)) as [Hlo|Hlo].
  - cbn. split; discriminate.
  - cbn [Qnum Qden].
    destruct (Z.leb_spec (n * 1) (1 * Z.pos d)) as [Hhi|Hhi].
    + unfold Qle; cbn [Qnum Qden Qopp]. split; lia.
    + split; discriminate.
Qed.

Lemma clip_unit_bound (xs : list Q) :
  Forall (fun x => (Qabs x <= 1)%Q) (Np.clip xs (-1) 1).
Proof.
  unfold Np.clip. induction xs as [|x xs IH]; simpl; constructor.
  - apply clip1_unit_bound.
  - exact IH.
Qed.

(** Whenever the gain is not zero the stage multiplies and clips. *)
Lemma gain_stage_nonzero (gain_db : Q) (enhanced : list Q) :
  ¬ (gain_db == 0)%Q →
  gain_stage pow10 gain_db enhanced =
  let* gain := pow10 (gain_db / 20)%Q in
  Ok (Np.clip (map (fun x => x * gain)%Q enhanced) (-1) 1).
Proof.
  intros Hnz. unfold gain_stage.
  destruct (Qeq_bool gain_db 0) eqn:Hz; [|reflexivity].
  apply Qeq_bool_iff in Hz. contradiction.
Qed.

(** With gain 0 the stage is skipped. *)
Lemma gain_stage_zero (enhanced : list Q) :
  gain_stage pow10 0 enhanced = Ok enhanced.
Proof. reflexivity. Qed.

(** C5 (as the code has it): for every buffer and every positive gain in
    dB, the gain stage either fails in computing the linear gain, and then
    returns no buffer, or returns a buffer of the same length in which no
    sample has absolute value above 1. *)
Theorem gain_stage_clipped (gain_db : Q) (enhanced : list Q) :
  (0 < gain_db)%Q →
  match gain_stage pow10 gain_db enhanced with
  | Ok out =>
    length out = length enhanced ∧ Forall (fun x => (Qabs x <= 1)%Q) out
  | Raise e => pow10 (gain_db / 20)%Q = Raise e
  | OutOfFuel => pow10 (gain_db / 20)%Q = OutOfFuel
  end.
Proof.
  intros Hpos. rewrite gain_stage_nonzero.
  - destruct (pow10 (gain_db / 20)%Q) as [gain|e|]; simpl; try reflexivity.
    split; [|apply clip_unit_bound].
    unfold Np.clip. by rewrite !length_map.
  - intros Hz. rewrite Hz in Hpos. discriminate.
Qed.

End GainProperties.

(** C5, witness: a gain of 6 dB (a factor of 2) on the samples 3/4 and -1/2. *)
Lemma gain_stage_clipped_witness :
  (0 < 6)%Q
  ∧ match gain_stage (fun _ => Ok 2%Q) 6 [3 # 4; - (1 # 2)]%Q with
    | Ok out =>
      length out = length [3 # 4; - (1 # 2)]%Q
      ∧ Forall (fun x => (Qabs x <= 1)%Q) out
    | Raise e => Ok 2%Q = Raise e
    | OutOfFuel => Ok 2%Q = OutOfFuel
    end.
Proof.
  split; [reflexivity|].
  apply (gain_stage_clipped (fun _ => Ok 2%Q) 6 [3 # 4; - (1 # 2)]%Q).
  reflexivity.
Defined.

(** C5, counterexample: gain 0 dB is not negative, the stage is skipped, and
    an enhanced sample 3/2 comes back as it went in. *)
Lemma gain_stage_zero_gain_unclipped :
  gain_stage (fun _ => Ok 1%Q) 0 [3 # 2]%Q = Ok [3 # 2]%Q
  ∧ ¬ Forall (fun x => (Qabs x <= 1)%Q) [3 # 2]%Q.
Proof.
  split; [reflexivity|].
  intros H. apply Forall_cons in H as [H _].
  apply H. reflexivity.
Qed.

(** ** Slices and slice assignment within bounds *)
Section SliceLemmas.

Context {A : Type}.
Implicit Types l : list A.

Lemma len_nonneg l : 0 ≤ len l.
Proof. unfold len. lia. Qed.

Lemma len_app l1 l2 : len (l1 ++ l2) = len l1 + len l2.
Proof. unfold len. rewrite length_app. lia. Qed.

Lemma len_cons (x : A) l : len (x :: l) = 1 + len l.
Proof. unfold len. cbn [length]. lia. Qed.

Lemma slice_bound_in (n i d : Z) : 0 ≤ i → i ≤ n → slice_bound n (Some i) d = i.
Proof.
  intros H0 Hn. unfold slice_bound.
  destruct (Z.ltb_spec i 0); lia.
Qed.

Lemma slice_in l (a b : Z) :
  0 ≤ a → a ≤ b → b ≤ len l →
  slice l (Some a) (Some b) = take (Z.to_nat (b - a)) (drop (Z.to_nat a) l).
Proof.
  intros Ha Hab Hb. unfold slice.
  rewrite !slice_bound_in by lia. reflexivity.
Qed.

Lemma slice_to l (b : Z) :
  0 ≤ b → b ≤ len l → slice l None (Some b) = take (Z.to_nat b) l.
Proof.
  intros H0 Hb. unfold slice. rewrite slice_bound_in by lia.
  cbn [slice_bound]. rewrite Z.sub_0_r. reflexivity.
Qed.

Lemma slice_from l (a : Z) :
  0 ≤ a → a ≤ len l → slice l (Some a) None = drop (Z.to_nat a) l.
Proof.
  intros H0 Ha. unfold slice. rewrite slice_bound_in by lia.
  cbn [slice_bound]. apply take_ge. rewrite length_drop. unfold len. lia.
Qed.

Lemma len_slice_in l (a b : Z) :
  0 ≤ a → a ≤ b → b ≤ len l → len (slice l (Some a) (Some b)) = b - a.
Proof.
  intros Ha Hab Hb. rewrite slice_in by assumption.
  unfold len in *. rewrite length_take, length_drop. lia.
Qed.

End SliceLemmas.

Section NumpyLemmas.

Implicit Types out vals x y : list Q.

Lemma set_slice_in out vals (a b : Z) :
  0 ≤ a → a ≤ b → b ≤ len out → len vals = b - a →
  Np.set_slice out (Some a) (Some b) vals =
  Ok (take (Z.to_nat a) out ++ vals ++ drop (Z.to_nat b) out).
Proof.
  intros Ha Hab Hb Hv. unfold Np.set_slice.
  rewrite !slice_bound_in by lia. rewrite Z.max_r by lia.
  destruct (decide (length vals = Z.to_nat (b - a))) as [_|Hne]; [reflexivity|].
  unfold len in Hv. lia.
Qed.

Lemma set_slice_to out vals (b : Z) :
  0 ≤ b → b ≤ len out → len vals = b →
  Np.set_slice out None (Some b) vals = Ok (vals ++ drop (Z.to_nat b) out).
Proof.
  intros H0 Hb Hv. unfold Np.set_slice.
  rewrite slice_bound_in by lia. cbn [slice_bound].
  rewrite Z.max_r, Z.sub_0_r by lia.
  destruct (decide (length vals = Z.to_nat b)) as [_|Hne]; [reflexivity|].
  unfold len in Hv. lia.
Qed.

Lemma binop_same (f : Q → Q → Q) x y :
  length x = length y → Np.binop f x y = Ok (zip_with f x y).
Proof.
  intros H. unfold Np.binop.
  destruct (decide (length x = length y)); [reflexivity | contradiction].
Qed.

Lemma length_linspace01 (n : Z) : length (Np.linspace01 n) = Z.to_nat n.
Proof. unfold Np.linspace01. by rewrite length_map, length_seq. Qed.

End NumpyLemmas.

(** ** Merging *)

Section MergeProperties.

(** C9: whatever the overlap, positive, zero or negative, merging no chunks
    at all returns the empty buffer and does not raise. *)
Theorem merge_chunks_empty (overlap_samples : Z) :
  _merge_chunks [] overlap_samples = Ok [] ∧ len ([] : list Q) = 0.
Proof.
  split.
  - destruct overlap_samples; reflexivity.
  - reflexivity.
Qed.

Lemma length_crossfade (s : nat) (previous current : list Q) :
  length previous = s → length current = s →
  length (crossfade s previous current) = s.
Proof.
  intros Hp Hc. unfold crossfade.
  rewrite !length_zip_with, length_map, length_linspace01. lia.
Qed.

Lemma length_append_chunk (s : nat) (written chunk : list Q) :
  (s ≤ length written)%nat → (s ≤ length chunk)%nat →
  length (append_chunk s written chunk)
  = (length written + length chunk - s)%nat.
Proof.
  intros Hw Hc. unfold append_chunk.
  rewrite !length_app, length_crossfade, length_take, length_drop.
  - lia.
  - rewrite length_drop. lia.
  - rewrite length_take. lia.
Qed.

(** One pass of the loop for a chunk after the first, on a buffer that
    holds [written] followed by the part not yet written. *)
Lemma merge_loop_step (s : Z) (written pad chunk : list Q)
    (rest : list (list Q)) (i : nat) :
  0 ≤ s → s ≤ len written → 2 * s ≤ len chunk → len chunk - s ≤ len pad →
  merge_loop s (S i) (chunk :: rest) (written ++ pad) (len written) =
  merge_loop s (S (S i)) rest
    (append_chunk (Z.to_nat s) written chunk
       ++ drop (Z.to_nat (len chunk - s)) pad)
    (len (append_chunk (Z.to_nat s) written chunk)).
Proof.
  intros Hs Hw Hc Hpad.
  pose proof (len_nonneg chunk) as Hc0. pose proof (len_nonneg pad) as Hp0.
  assert (Hlen : len (append_chunk (Z.to_nat s) written chunk)
                 = len written + len chunk - s).
  { unfold len in *. rewrite length_append_chunk by lia. lia. }
  cbn [merge_loop].
  set (sn := Z.to_nat s) in *.
  set (k := (length written - sn)%nat).
  assert (Hk : Z.to_nat (len written - s) = k) by (unfold len, k, sn; lia).
  assert (Hprev : length (drop k written) = sn).
  { rewrite length_drop. unfold len, k, sn in *. lia. }
  assert (Hcur : length (take sn chunk) = sn).
  { rewrite length_take. unfold len, sn in *. lia. }
  assert (Hblend :
    (if 0 <? s
     then
       let* prev := Np.binop Qmult
            (slice (written ++ pad) (Some (len written - s)) (Some (len written)))
            (map (λ w : Q, (1 - w)%Q) (Np.linspace01 s)) in
       let* cur := Np.binop Qmult (slice chunk None (Some s)) (Np.linspace01 s) in
       let* mixed := Np.binop Qplus prev cur in
       Np.set_slice (written ++ pad) (Some (len written - s))
         (Some (len written)) mixed
     else Ok (written ++ pad))
    = Ok ((take k written ++ crossfade sn (drop k written) (take sn chunk)) ++ pad)).
  { destruct (Z.ltb_spec 0 s) as [Hpos|Hzero].
    - rewrite slice_in by (rewrite ?len_app; lia).
      replace (len written - (len written - s)) with s by lia.
      rewrite Hk. fold sn.
      rewrite drop_app_le by (unfold k; lia).
      rewrite take_app_le by lia. rewrite take_ge by lia.
      rewrite binop_same by (rewrite length_map, length_linspace01; exact Hprev).
      cbn [bind]. rewrite slice_to by lia. fold sn.
      rewrite binop_same by (rewrite length_linspace01; exact Hcur).
      cbn [bind]. rewrite binop_same.
      2:{ rewrite !length_zip_with, length_map, length_linspace01. fold sn. lia. }
      cbn [bind]. rewrite set_slice_in.
      + rewrite Hk. rewrite take_app_le by (unfold k; lia).
        replace (Z.to_nat (len written)) with (length written) by (unfold len; lia).
        rewrite drop_app_length. unfold crossfade.
        replace (Z.of_nat sn) with s by (unfold sn; lia).
        rewrite <- app_assoc. reflexivity.
      + lia.
      + lia.
      + rewrite len_app. lia.
      + unfold len. rewrite !length_zip_with, length_map, length_linspace01.
        fold sn. rewrite Hprev, Hcur. unfold sn. lia.
    - assert (sn = 0%nat) as Hsn by (unfold sn; lia).
      assert (k = length written) as Hkw by (unfold k; lia).
      rewrite Hkw, take_ge by lia.
      rewrite (nil_length_inv (crossfade sn _ _)).
      + by rewrite app_nil_r.
      + rewrite length_crossfade; [exact Hsn | rewrite length_drop; lia |
          rewrite length_take; lia]. }
  rewrite Hblend. cbn [bind].
  rewrite slice_from by lia. fold sn.
  set (W1 := take k written ++ crossfade sn (drop k written) (take sn chunk)).
  assert (HW1 : length W1 = length written).
  { unfold W1. rewrite length_app, length_take, length_crossfade by assumption.
    unfold k, len, sn in *. lia. }
  assert (Hrem : len (drop sn chunk) = len chunk - s).
  { unfold len. rewrite length_drop. unfold sn, len in *. lia. }
  rewrite set_slice_in.
  - cbn [bind]. f_equal.
    + replace (Z.to_nat (len written - s + s)) with (length W1)
        by (rewrite HW1; unfold len; lia).
      rewrite take_app_length.
      replace (Z.to_nat (len written - s + s + len (drop sn chunk)))
        with (length W1 + Z.to_nat (len chunk - s))%nat
        by (rewrite HW1, Hrem; unfold len in *; lia).
      rewrite drop_app_add. unfold append_chunk, W1. fold k.
      rewrite <- !app_assoc. reflexivity.
    + rewrite Hlen, Hrem. lia.
  - lia.
  - lia.
  - rewrite len_app. unfold len at 3. rewrite HW1. fold (len written). lia.
  - lia.
Qed.

Lemma sum_cons (x : Z) (xs : list Z) : Py.sum (x :: xs) = x + Py.sum xs.
Proof. reflexivity. Qed.

(** Chunks that each hold [2 * s] samples hold [s] times their number. *)
Lemma sum_len_ge (s : Z) (chunks : list (list Q)) :
  0 ≤ s → Forall (fun c => 2 * s ≤ len c) chunks →
  s * len chunks ≤ Py.sum (map len chunks).
Proof.
  intros Hs Hall. induction Hall as [|c rest Hc _ IH].
  - change (s * 0 ≤ 0). lia.
  - cbn [map]. rewrite sum_cons, len_cons. lia.
Qed.

(** [min(len(c) for c in chunks)] is a lower bound of every length. *)
Lemma min_list_len (c0 : list Q) (cs : list (list Q)) :
  0 ≤ min_list (len c0) (map len cs)
  ∧ Forall (fun c => min_list (len c0) (map len cs) ≤ len c) (c0 :: cs).
Proof.
  unfold min_list. induction cs as [|c cs [IH0 IH]]; cbn [map foldr].
  - pose proof (len_nonneg c0). split; [lia|]. constructor; [lia | constructor].
  - pose proof (len_nonneg c). split; [lia|].
    apply Forall_cons in IH as [IHc0 IHcs].
    constructor; [lia|]. constructor; [lia|].
    eapply Forall_impl; [exact IHcs|]. cbn. intros; lia.
Qed.

Lemma len_overlap_add (s : nat) (rest : list (list Q)) (written : list Q) :
  (s ≤ length written)%nat →
  Forall (fun c => 2 * s ≤ length c)%nat rest →
  len (overlap_add s written rest)
  = len written + Py.sum (map len rest) - Z.of_nat s * len rest.
Proof.
  unfold overlap_add. revert written.
  induction rest as [|c rest IH]; intros written Hw Hall; cbn [foldl map].
  - change (len written = len written + 0 - Z.of_nat s * 0). lia.
  - apply Forall_cons in Hall as [Hc Hall].
    rewrite IH; [|rewrite length_append_chunk; lia|exact Hall].
    rewrite sum_cons, len_cons.
    unfold len at 1. rewrite length_append_chunk by lia.
    unfold len. lia.
Qed.

(** The pass for the first chunk copies it to the front of the buffer. *)
Lemma merge_loop_first (s : Z) (chunk : list Q) (rest : list (list Q))
    (output : list Q) (write_pos : Z) :
  merge_loop s 0 (chunk :: rest) output write_pos =
  let* output := Np.set_slice output None (Some (len chunk)) chunk in
  merge_loop s 1 rest output (len chunk).
Proof. reflexivity. Qed.

(** The passes for the chunks after the first write exactly what the spec's
    crossfade-and-append gives, and fill the buffer. *)
Lemma merge_loop_rest (s : Z) (rest : list (list Q)) (written pad : list Q)
    (i : nat) :
  0 ≤ s → s ≤ len written →
  Forall (fun c => 2 * s ≤ len c) rest →
  len pad = Py.sum (map len rest) - s * len rest →
  merge_loop s (S i) rest (written ++ pad) (len written)
  = Ok (overlap_add (Z.to_nat s) written rest).
Proof.
  intros Hs. revert written pad i.
  induction rest as [|c rest IH]; intros written pad i Hw Hall Hpad.
  - change (len pad = 0 - s * 0) in Hpad.
    assert (pad = []) as -> by (apply nil_length_inv; unfold len in Hpad; lia).
    cbn. by rewrite app_nil_r.
  - apply Forall_cons in Hall as [Hc Hall].
    cbn [map] in Hpad. rewrite sum_cons, len_cons in Hpad.
    pose proof (len_nonneg rest) as Hr0.
    pose proof (sum_len_ge s rest Hs Hall) as Hsum.
    rewrite merge_loop_step by lia.
    assert (Happ : len (append_chunk (Z.to_nat s) written c) = len written + len c - s).
    { unfold len in *. rewrite length_append_chunk by lia. lia. }
    rewrite IH; [reflexivity| lia | exact Hall |].
    unfold len at 1. rewrite length_drop. unfold len in *. lia.
Qed.

(** The merger refines the spec's crossfade-and-append, with the one
    overlap [s] it derives from the shortest chunk. *)
Lemma merge_chunks_overlap_add (c0 : list Q) (rest : list (list Q)) (O : Z) :
  0 < O →
  let s := Z.min O (min_list (len c0) (map len rest) `div` 2) in
  0 ≤ s
  ∧ Forall (fun c => 2 * s ≤ len c) (c0 :: rest)
  ∧ _merge_chunks (c0 :: rest) O = Ok (overlap_add (Z.to_nat s) c0 rest).
Proof.
  intros HO s.
  destruct (min_list_len c0 rest) as [Hmpos Hm'].
  set (m := min_list (len c0) (map len rest)) in *.
  assert (Hdiv : 0 ≤ m `div` 2 ∧ 2 * (m `div` 2) ≤ m).
  { split; [apply Z.div_pos; lia | apply Z.mul_div_le; lia]. }
  assert (Hs : 0 ≤ s) by (unfold s; lia).
  assert (Hall : Forall (fun c => 2 * s ≤ len c) (c0 :: rest)).
  { eapply Forall_impl; [exact Hm'|]. intros c Hc. cbv beta in *. unfold s. lia. }
  split; [exact Hs|]. split; [exact Hall|].
  destruct rest as [|c1 rest].
  { unfold _merge_chunks. cbn. by rewrite app_nil_r. }
  unfold _merge_chunks.
  assert (Hl : len (c0 :: c1 :: rest) = 2 + len rest)
    by (rewrite !len_cons; lia).
  pose proof (len_nonneg rest) as Hr0.
  destruct (Z.eqb_spec (len (c0 :: c1 :: rest)) 1) as [Heq|_]; [lia|].
  destruct (Z.leb_spec O 0) as [Hle|_]; [lia|]. cbn [orb].
  fold m. fold s.
  apply Forall_cons in Hall as [H0 Hall].
  pose proof (sum_len_ge s (c1 :: rest) Hs Hall) as Hsum.
  assert (Hl1 : len (c1 :: rest) = 1 + len rest) by apply len_cons.
  set (total := Py.sum (map len (c0 :: c1 :: rest))
                - s * (len (c0 :: c1 :: rest) - 1)).
  assert (Htotal : total = len c0 + (Py.sum (map len (c1 :: rest))
                                      - s * len (c1 :: rest))).
  { unfold total. rewrite Hl, Hl1. cbn [map]. rewrite !sum_cons. lia. }
  pose proof (len_nonneg c0) as Hc0.
  unfold Np.zeros. destruct (Z.ltb_spec total 0) as [Hneg|_]; [lia|].
  cbn [bind]. rewrite merge_loop_first.
  rewrite set_slice_to; [| lia | | reflexivity].
  2:{ unfold len at 2. rewrite length_replicate. lia. }
  cbn [bind]. apply merge_loop_rest; [exact Hs | lia | exact Hall |].
  unfold len at 1. rewrite length_drop, length_replicate.
  unfold len in *. lia.
Qed.

(** The same bounds on the chunk lengths, counted in [nat]. *)
Lemma merge_chunks_overlap_bound (c0 : list Q) (rest : list (list Q)) (O : Z) :
  0 < O →
  let s := Z.to_nat (Z.min O (min_list (len c0) (map len rest) `div` 2)) in
  Forall (fun c => 2 * s ≤ length c)%nat (c0 :: rest).
Proof.
  intros HO s.
  destruct (merge_chunks_overlap_add c0 rest O HO) as (Hs & Hall & _).
  eapply Forall_impl; [exact Hall|]. intros c Hc. cbv beta in *.
  unfold s, len in *. lia.
Qed.

(** The merged length: the chunk lengths together, less the clamped
    overlap for each boundary. *)
Lemma merge_chunks_length (c0 : list Q) (rest : list (list Q)) (O : Z) :
  0 < O →
  let s := Z.min O (min_list (len c0) (map len rest) `div` 2) in
  ∃ out,
    _merge_chunks (c0 :: rest) O = Ok out
    ∧ len out = Py.sum (map len (c0 :: rest)) - s * len rest.
Proof.
  intros HO s.
  destruct (merge_chunks_overlap_add c0 rest O HO) as (Hs & _ & Hrun).
  pose proof (merge_chunks_overlap_bound c0 rest O HO) as HallN.
  apply Forall_cons in HallN as [H0 HallN].
  subst s. cbv zeta in *. eexists. split; [exact Hrun|].
  rewrite len_overlap_add by (lia || assumption).
  cbn [map]. rewrite sum_cons, Z2Nat.id by exact Hs. lia.
Qed.

(** *** Where the samples of each chunk end up *)

Lemma lookup_append_chunk_prefix (s : nat) (written chunk : list Q) (j : nat) :
  (j < length written - s)%nat →
  append_chunk s written chunk !! j = written !! j.
Proof.
  intros Hj. unfold append_chunk.
  rewrite lookup_app_l by (rewrite length_take; lia).
  apply lookup_take_lt. lia.
Qed.

Lemma lookup_append_chunk_tail (s : nat) (written chunk : list Q) (j : nat) :
  (s ≤ length written)%nat → (s ≤ length chunk)%nat → (s ≤ j)%nat →
  append_chunk s written chunk !! (length written - s + j)%nat = chunk !! j.
Proof.
  intros Hw Hc Hj. unfold append_chunk.
  rewrite lookup_app_r by (rewrite length_take; lia).
  rewrite length_take.
  rewrite lookup_app_r.
  - rewrite length_crossfade by (rewrite ?length_drop, ?length_take; lia).
    rewrite lookup_drop. f_equal. lia.
  - rewrite length_crossfade by (rewrite ?length_drop, ?length_take; lia). lia.
Qed.

(** Later chunks leave alone what lies before the last [s] samples. *)
Lemma overlap_add_prefix (s : nat) (rest : list (list Q)) (written : list Q)
    (j : nat) :
  (s ≤ length written)%nat →
  Forall (fun c => 2 * s ≤ length c)%nat rest →
  rest = [] ∨ (j < length written - s)%nat →
  overlap_add s written rest !! j = written !! j.
Proof.
  unfold overlap_add. revert written.
  induction rest as [|c rest IH]; intros written Hw Hall Hj; [reflexivity|].
  destruct Hj as [Hnil|Hj]; [discriminate|].
  apply Forall_cons in Hall as [Hc Hall]. cbn [foldl].
  rewrite IH.
  - by apply lookup_append_chunk_prefix.
  - rewrite length_append_chunk; lia.
  - exact Hall.
  - right. rewrite length_append_chunk; lia.
Qed.

Lemma chunk_offset_0 (s : nat) (chunks : list (list Q)) : chunk_offset s chunks 0 = 0%nat.
Proof. unfold chunk_offset. by rewrite take_0. Qed.

Lemma chunk_offset_S (s : nat) (c : list Q) (chunks : list (list Q)) (i : nat) :
  chunk_offset s (c :: chunks) (S i) = (length c - s + chunk_offset s chunks i)%nat.
Proof. reflexivity. Qed.

(** A chunk after the first: its samples from index [s] on, and up to its
    last [s] samples when another chunk follows, are found in the merged
    buffer from the chunk's offset on. *)
Lemma overlap_add_lookup (s : nat) (rest : list (list Q)) (written : list Q)
    (i : nat) (c : list Q) (j : nat) :
  (s ≤ length written)%nat →
  Forall (fun c => 2 * s ≤ length c)%nat rest →
  rest !! i = Some c →
  (s ≤ j)%nat →
  S i = length rest ∨ (j < length c - s)%nat →
  overlap_add s written rest !! (length written - s + chunk_offset s rest i + j)%nat
  = c !! j.
Proof.
  revert written i.
  induction rest as [|c' rest IH]; intros written i Hw Hall Hi Hj Hlast;
    [discriminate|].
  apply Forall_cons in Hall as [Hc' Hall].
  change (overlap_add s written (c' :: rest))
    with (overlap_add s (append_chunk s written c') rest).
  destruct i as [|i].
  - injection Hi as ->. rewrite chunk_offset_0, Nat.add_0_r.
    rewrite overlap_add_prefix.
    + apply lookup_append_chunk_tail; lia.
    + rewrite length_append_chunk; lia.
    + exact Hall.
    + destruct Hlast as [Hlen|Hlt].
      * left. destruct rest; [reflexivity | discriminate].
      * right. rewrite length_append_chunk; lia.
  - cbn in Hi. rewrite chunk_offset_S.
    specialize (IH (append_chunk s written c') i).
    rewrite length_append_chunk in IH by lia.
    replace (length written - s + (length c' - s + chunk_offset s rest i) + j)%nat
      with (length written + length c' - s - s + chunk_offset s rest i + j)%nat
      by lia.
    apply IH; [lia | exact Hall | exact Hi | exact Hj |].
    destruct Hlast as [Hlen|Hlt]; [left; cbn in Hlen; lia | right; exact Hlt].
Qed.

(** *** The blended samples *)

Lemma lookup_linspace01 (s j : nat) :
  (j < s)%nat → Np.linspace01 (Z.of_nat s) !! j = Some (fade_weight s j).
Proof.
  intros Hj. unfold Np.linspace01, fade_weight. rewrite Nat2Z.id.
  change (map ?f ?l) with (f <$> l).
  rewrite list_lookup_fmap, lookup_seq_lt by lia. reflexivity.
Qed.

Lemma lookup_crossfade (s : nat) (previous current : list Q) (j : nat) (a b : Q) :
  (j < s)%nat → previous !! j = Some a → current !! j = Some b →
  crossfade s previous current !! j
  = Some (a * (1 - fade_weight s j) + b * fade_weight s j)%Q.
Proof.
  intros Hj Ha Hb. unfold crossfade.
  change (map ?f ?l) with (f <$> l).
  rewrite !lookup_zip_with, Ha, Hb, list_lookup_fmap, lookup_linspace01 by lia.
  reflexivity.
Qed.

Lemma lookup_append_chunk_blend (s : nat) (written chunk : list Q) (j : nat)
    (a b : Q) :
  (s ≤ length written)%nat → (s ≤ length chunk)%nat → (j < s)%nat →
  written !! (length written - s + j)%nat = Some a → chunk !! j = Some b →
  append_chunk s written chunk !! (length written - s + j)%nat
  = Some (a * (1 - fade_weight s j) + b * fade_weight s j)%Q.
Proof.
  intros Hw Hc Hj Ha Hb. unfold append_chunk.
  rewrite lookup_app_r by (rewrite length_take; lia).
  rewrite length_take.
  rewrite lookup_app_l
    by (rewrite length_crossfade by (rewrite ?length_drop, ?length_take; lia); lia).
  match goal with
  | |- crossfade _ _ _ !! ?n = _ => replace n with j by lia
  end.
  apply lookup_crossfade; [exact Hj | |].
  - rewrite lookup_drop. exact Ha.
  - rewrite lookup_take_lt by lia. exact Hb.
Qed.

Lemma overlap_add_lookup_blend (s : nat) (rest : list (list Q)) (written : list Q)
    (i : nat) (c : list Q) (j : nat) (a b : Q) :
  (s ≤ length written)%nat →
  Forall (fun c => 2 * s ≤ length c)%nat rest →
  rest !! i = Some c →
  (j < s)%nat →
  let p := previous_of written rest i in
  p !! (length p - s + j)%nat = Some a → c !! j = Some b →
  overlap_add s written rest !! (length written - s + chunk_offset s rest i + j)%nat
  = Some (a * (1 - fade_weight s j) + b * fade_weight s j)%Q.
Proof.
  revert written i.
  induction rest as [|c' rest IH]; intros written i Hw Hall Hi Hj p Ha Hb;
    [discriminate|].
  apply Forall_cons in Hall as [Hc' Hall].
  change (overlap_add s written (c' :: rest))
    with (overlap_add s (append_chunk s written c') rest).
  destruct i as [|i].
  - injection Hi as ->. rewrite chunk_offset_0, Nat.add_0_r.
    rewrite overlap_add_prefix.
    + apply lookup_append_chunk_blend; try lia; assumption.
    + rewrite length_append_chunk; lia.
    + exact Hall.
    + right. rewrite length_append_chunk; lia.
  - cbn in Hi. rewrite chunk_offset_S.
    specialize (IH (append_chunk s written c') i).
    rewrite length_append_chunk in IH by lia.
    replace (length written - s + (length c' - s + chunk_offset s rest i) + j)%nat
      with (length written + length c' - s - s + chunk_offset s rest i + j)%nat
      by lia.
    apply IH; [lia | exact Hall | exact Hi | exact Hj | | exact Hb].
    destruct i as [|i]; [|exact Ha].
    cbn [previous_of]. cbn in Ha. subst p.
    rewrite length_append_chunk by lia.
    replace (length written + length c' - s - s + j)%nat
      with (length written - s + (length c' - s + j))%nat by lia.
    rewrite lookup_append_chunk_tail by lia. exact Ha.
Qed.

(** C4 (as the code has it): for a nonempty list of chunks and a nominal
    overlap [O > 0], [_merge_chunks] returns a buffer. One clamped overlap
    [s = min(O, shortest chunk length // 2)] serves every boundary. The
    buffer's length is the sum of the chunk lengths minus [s] for each
    boundary. Chunk [i] starts at the sum of [length − s] over the chunks
    before it; its samples outside the blended regions (from [s] on unless
    it is the first, up to its last [s] unless it is the last) stand there
    unmodified; and the first [s] samples of every later chunk are
    crossfaded with the last [s] of the chunk before it, previous·(1−w) +
    current·w with [w = j / (s − 1)]. *)
Theorem merge_chunks_clamped_overlap (c0 : list Q) (rest : list (list Q)) (O : Z) :
  0 < O →
  let chunks := c0 :: rest in
  let s := Z.to_nat (Z.min O (min_list (len c0) (map len rest) `div` 2)) in
  ∃ out,
    _merge_chunks chunks O = Ok out
    ∧ len out = Py.sum (map len chunks) - Z.of_nat s * (len chunks - 1)
    ∧ (∀ i c j, chunks !! i = Some c →
         i = 0%nat ∨ (s ≤ j)%nat →
         S i = length chunks ∨ (j < length c - s)%nat →
         out !! (chunk_offset s chunks i + j)%nat = c !! j)
    ∧ (∀ i p c j a b, chunks !! i = Some p → chunks !! S i = Some c →
         (j < s)%nat →
         p !! (length p - s + j)%nat = Some a → c !! j = Some b →
         out !! (chunk_offset s chunks (S i) + j)%nat
         = Some (a * (1 - fade_weight s j) + b * fade_weight s j)%Q).
Proof.
  intros HO chunks s.
  destruct (merge_chunks_overlap_add c0 rest O HO) as (Hs & _ & Hrun).
  pose proof (merge_chunks_overlap_bound c0 rest O HO) as HallN.
  fold s in Hrun, HallN.
  apply Forall_cons in HallN as [H0 HallN].
  exists (overlap_add s c0 rest).
  split; [exact Hrun|]. split; [|split].
  - rewrite len_overlap_add by (lia || assumption).
    unfold chunks. cbn [map]. rewrite !sum_cons, !len_cons. lia.
  - intros i c j Hi Hlo Hhi. destruct i as [|i].
    + injection Hi as ->. rewrite chunk_offset_0.
      apply overlap_add_prefix; [lia | exact HallN |].
      destruct Hhi as [Hlen|Hlt]; [left | right; exact Hlt].
      destruct rest; [reflexivity | discriminate].
    + change (rest !! i = Some c) in Hi. unfold chunks.
      rewrite chunk_offset_S.
      apply overlap_add_lookup; [lia | exact HallN | exact Hi | |].
      * destruct Hlo as [?|?]; [discriminate | assumption].
      * destruct Hhi as [Hlen|Hlt]; [left | right; exact Hlt].
        unfold chunks in Hlen. cbn [length] in Hlen |- *. lia.
  - intros i p c j a b Hp Hc Hj Ha Hb. unfold chunks. rewrite chunk_offset_S.
    change (rest !! i = Some c) in Hc.
    apply (overlap_add_lookup_blend s rest c0 i c j a b);
      [lia | exact HallN | exact Hc | exact Hj | | exact Hb].
    destruct i as [|i].
    + injection Hp as ->. exact Ha.
    + change (rest !! i = Some p) in Hp.
      cbv zeta. cbn [previous_of]. rewrite Hp. exact Ha.
Qed.

End MergeProperties.

(** C4, witness: three chunks of 4, 4 and 5 samples with nominal overlap 2. *)
Lemma merge_chunks_clamped_overlap_witness :
  0 < 2
  ∧ ∃ out,
      _merge_chunks [[1; 2; 3; 4]; [5; 6; 7; 8]; [9; 10; 11; 12; 13]]%Q 2 = Ok out
      ∧ len out = 9
      ∧ out !! 6%nat = Some 11%Q.
Proof.
  split; [reflexivity|].
  destruct (merge_chunks_clamped_overlap [1; 2; 3; 4]%Q
              [[5; 6; 7; 8]; [9; 10; 11; 12; 13]]%Q 2 eq_refl)
    as (out & Hrun & Hlen & Hcopy & _).
  exists out. split; [exact Hrun|]. split; [exact Hlen|].
  exact (Hcopy 2%nat [9; 10; 11; 12; 13]%Q 2%nat eq_refl
           (or_intror (le_n 2)) (or_introl eq_refl)).
Defined.

(** C4, counterexample: chunks of 4, 4 and 2 samples and nominal overlap 2.
    Per boundary the overlaps would be 2 and 1 and the merged length 7; the
    code takes 1 at both boundaries and returns 8 samples. *)
Lemma merge_chunks_not_per_boundary :
  let chunks := [[1; 2; 3; 4]; [5; 6; 7; 8]; [9; 10]]%Q in
  boundary_overlaps 2 chunks = [2; 1]
  ∧ per_boundary_length 2 chunks = 7
  ∧ ∃ out, _merge_chunks chunks 2 = Ok out ∧ len out = 8.
Proof.
  split; [reflexivity|]. split; [reflexivity|].
  eexists. split; [vm_compute; reflexivity | reflexivity].
Qed.

(** ** Model initialization *)

Section InitializeProperties.

Variable df_import : result unit.
Variable init_df : nat → result unit.

Lemma retryable_cases (r : result unit) :
  retryable r = true →
  (∃ cls msg, r = Raise (Exception cls msg)) ∨ (∃ arg, r = Raise (SystemExit arg)).
Proof.
  destruct r as [u|[cls msg|arg|cls]|]; simpl; try discriminate; eauto.
Qed.

(** One failed attempt: the loader is called once, the loop sleeps
    [2 ^ attempt] seconds and goes on with the attempts that remain. *)
Lemma init_attempts_failure (attempt : Z) (rest : list Z) (last_err : option exn)
    (s : state) :
  retryable (init_df (init_df_calls s)) = true →
  ∃ err,
    init_attempts init_df (attempt :: rest) last_err s =
    init_attempts init_df rest (Some err)
      (log_event (Sleep (2 ^ attempt)) (log_event InitDf (count_init_df s))).
Proof.
  intros Hr. apply retryable_cases in Hr as [(cls & msg & Hr)|(arg & Hr)];
    cbn [init_attempts]; unfold call_init_df; rewrite Hr;
    unfold bindM, sleep; eexists; reflexivity.
Qed.

(** A successful attempt ends the loop at once. *)
Lemma init_attempts_success (attempt : Z) (rest : list Z) (last_err : option exn)
    (s : state) :
  init_df (init_df_calls s) = Ok tt →
  init_attempts init_df (attempt :: rest) last_err s =
  (Ok last_err, set_initialized true (log_event InitDf (count_init_df s))).
Proof.
  intros Hr. cbn [init_attempts]. unfold call_init_df. rewrite Hr. reflexivity.
Qed.

(** The loop never calls the loader more often than it has attempts. *)
Lemma init_attempts_calls (attempts : list Z) (last_err : option exn) (s : state)
    (r : result (option exn)) (s' : state) :
  init_attempts init_df attempts last_err s = (r, s') →
  (init_df_calls s' ≤ init_df_calls s + length attempts)%nat.
Proof.
  revert last_err s. induction attempts as [|a rest IH]; intros last_err s.
  - cbn. intros [= <- <-]. lia.
  - cbn [init_attempts length]. unfold call_init_df.
    destruct (init_df (init_df_calls s)) as [u|[cls msg|arg|cls]|];
      unfold bindM, sleep; try (intros [= <- <-]; cbn; lia);
      intros H; apply IH in H; cbn in H; lia.
Qed.

Lemma initialize_unfold (s : state) :
  _initialized s = false → df_import = Ok tt →
  initialize df_import init_df s =
  match init_attempts init_df [0; 1; 2] None s with
  | (Ok last_err, s') =>
    if _initialized s' then (Ok tt, s')
    else (Raise (RuntimeError
            ("Failed to initialize audio processing model: " +:+
             ("Failed to initialize DeepFilterNet after retries: " +:+ fmt_err last_err))),
          s')
  | (Raise e, s') =>
    if is_Exception e
    then (Raise (RuntimeError
            ("Failed to initialize audio processing model: " +:+ str e)), s')
    else (Raise e, s')
  | (OutOfFuel, s') => (OutOfFuel, s')
  end.
Proof.
  intros Hinit Himp. unfold initialize. rewrite Hinit, Himp.
  unfold try_exceptM, bindM, lift, raise.
  destruct (init_attempts init_df [0; 1; 2] None s) as [[last_err|e|] s'];
    try reflexivity.
  destruct (_initialized s'); reflexivity.
Qed.

(** C6: starting from an object that is not initialized (and with the [df]
    module importable), (1) when the loader fails three times in a row, by
    an exception or by [SystemExit], [initialize] calls it exactly three
    times, sleeps 1 s, 2 s and 4 s after the first, second and third failure,
    and then raises one RuntimeError; (2) when the first success is at
    attempt [j < 3], the [j] failures before it are each followed by their
    backoff, the loader is called [j + 1] times and no more, and
    [initialize] returns with the object initialized; (3) in no case is the
    loader called more than three times. *)
Theorem initialize_retry (s : state) :
  _initialized s = false → df_import = Ok tt →
  let k := init_df_calls s in
  (retryable (init_df k) = true → retryable (init_df (S k)) = true →
   retryable (init_df (S (S k))) = true →
   ∃ msg s',
     initialize df_import init_df s = (Raise (RuntimeError msg), s')
     ∧ events s' = events s ++ [InitDf; Sleep 1; InitDf; Sleep 2; InitDf; Sleep 4]
     ∧ init_df_calls s' = (k + 3)%nat
     ∧ _initialized s' = false)
  ∧ (∀ j : nat, (j < 3)%nat →
     (∀ i : nat, (i < j)%nat → retryable (init_df (k + i)%nat) = true) →
     init_df (k + j)%nat = Ok tt →
     ∃ s',
       initialize df_import init_df s = (Ok tt, s')
       ∧ events s' = events s ++ backoff_events j ++ [InitDf]
       ∧ init_df_calls s' = (k + j + 1)%nat
       ∧ _initialized s' = true)
  ∧ (∀ r s', initialize df_import init_df s = (r, s') →
     (init_df_calls s' ≤ k + 3)%nat).
Proof.
  intros Hinit Himp k. split; [|split].
  - intros F0 F1 F2. rewrite initialize_unfold by assumption.
    destruct (init_attempts_failure 0 [1; 2] None s F0) as [e0 ->].
    set (s1 := log_event (Sleep (2 ^ 0)) (log_event InitDf (count_init_df s))).
    destruct (init_attempts_failure 1 [2] (Some e0) s1 F1) as [e1 ->].
    set (s2 := log_event (Sleep (2 ^ 1)) (log_event InitDf (count_init_df s1))).
    destruct (init_attempts_failure 2 [] (Some e1) s2 F2) as [e2 ->].
    cbn [init_attempts]. unfold ret.
    set (s3 := log_event (Sleep (2 ^ 2)) (log_event InitDf (count_init_df s2))).
    assert (H3 : _initialized s3 = false) by exact Hinit.
    rewrite H3. eexists _, s3. split; [reflexivity|].
    split; [|split; [|exact H3]].
    + cbn. rewrite <- !app_assoc. reflexivity.
    + cbn. subst k. lia.
  - intros j Hj Hfail Hok. rewrite initialize_unfold by assumption.
    destruct j as [|[|[|j]]]; [| | |lia].
    + rewrite Nat.add_0_r in Hok.
      rewrite (init_attempts_success 0 [1; 2] None s Hok).
      cbn. eexists. split; [reflexivity|]. cbn. repeat split. subst k; lia.
    + pose proof (Hfail 0%nat ltac:(lia)) as F0. rewrite Nat.add_0_r in F0.
      rewrite Nat.add_1_r in Hok.
      destruct (init_attempts_failure 0 [1; 2] None s F0) as [e0 ->].
      rewrite init_attempts_success by exact Hok.
      cbn. eexists. split; [reflexivity|]. cbn. repeat split.
      * rewrite <- !app_assoc. reflexivity.
      * subst k; lia.
    + pose proof (Hfail 0%nat ltac:(lia)) as F0. rewrite Nat.add_0_r in F0.
      pose proof (Hfail 1%nat ltac:(lia)) as F1. rewrite Nat.add_1_r in F1.
      replace (k + 2)%nat with (S (S k)) in Hok by lia.
      destruct (init_attempts_failure 0 [1; 2] None s F0) as [e0 ->].
      set (s1 := log_event (Sleep (2 ^ 0)) (log_event InitDf (count_init_df s))).
      destruct (init_attempts_failure 1 [2] (Some e0) s1 F1) as [e1 ->].
      rewrite init_attempts_success by exact Hok.
      cbn. eexists. split; [reflexivity|]. cbn. repeat split.
      * rewrite <- !app_assoc. reflexivity.
      * subst k; lia.
  - intros r s' H. rewrite initialize_unfold in H by assumption.
    destruct (init_attempts init_df [0; 1; 2] None s) as [r0 s0] eqn:E.
    apply init_attempts_calls in E. cbn [length] in E.
    assert (s' = s0) as ->.
    { destruct r0 as [last_err|e|].
      - destruct (_initialized s0); congruence.
      - destruct (is_Exception e); congruence.
      - congruence. }
    subst k. lia.
Qed.

End InitializeProperties.

(** C6, witness: a loader that exits the process (SystemExit) at every
    call, on a fresh object. *)
Lemma initialize_retry_witness :
  let s := {| _initialized := false; init_df_calls := 0; events := []; files := ∅ |} in
  let init_df := fun _ : nat => Raise (SystemExit "1") : result unit in
  ∃ msg s',
    initialize (Ok tt) init_df s = (Raise (RuntimeError msg), s')
    ∧ events s' = [InitDf; Sleep 1; InitDf; Sleep 2; InitDf; Sleep 4]
    ∧ init_df_calls s' = 3%nat
    ∧ _initialized s' = false.
Proof.
  intros s init_df.
  exact (proj1 (initialize_retry (Ok tt) init_df s eq_refl eq_refl)
           eq_refl eq_refl eq_refl).
Defined.

(** A loader that answers 503 once and then succeeds: one backoff of one
    second, two calls, and the object is initialized. *)
Example initialize_second_attempt :
  initialize (Ok tt)
    (fun k => match k with
              | O => Raise (Exception "OSError" "503 Service Unavailable")
              | S _ => Ok tt
              end)
    {| _initialized := false; init_df_calls := 0; events := []; files := ∅ |}
  = (Ok tt,
     {| _initialized := true; init_df_calls := 2;
        events := [InitDf; Sleep 1; InitDf]; files := ∅ |}).
Proof. reflexivity. Qed.

(** An exception that is not derived from [Exception] is not retried. *)
Example initialize_keyboard_interrupt :
  initialize (Ok tt) (fun _ => Raise (BaseException "KeyboardInterrupt"))
    {| _initialized := false; init_df_calls := 0; events := []; files := ∅ |}
  = (Raise (BaseException "KeyboardInterrupt"),
     {| _initialized := false; init_df_calls := 1; events := [InitDf];
        files := ∅ |}).
Proof. reflexivity. Qed.

(** ** Saving and the reported output path *)

Section SaveProperties.

Variable df_import : result unit.
Variable init_df : nat → result unit.
Variable enhance_fn : list Q → option Q → result (list Q).
Variable pow10 : Q → result Q.
Variable librosa_load : path → result (ndarray * Z).
Variable librosa_to_mono : list (list Q) → result (list Q).
Variable librosa_resample : list Q → Z → Z → result (list Q).
Variable sf_write : path → list Q → Z → gmap path file → result unit * gmap path file.
Variable pydub_export :
  path → path → string → gmap path file → result unit * gmap path file.
Variable mkdir_parent : path → gmap path file → result unit * gmap path file.
Variable unlink_error : path → option (string * string).

Lemma with_suffix_wav_differs (p : path) :
  lower (suffix p) ≠ ".wav" → with_suffix p ".wav" ≠ p.
Proof.
  intros Hext Heq. apply Hext.
  destruct p as [st sfx]. unfold with_suffix in Heq. cbn in *.
  injection Heq as <-. reflexivity.
Qed.

(** What a run of [save_audio] that returns has done: the directory call
    and the WAV writer returned, and either no conversion was attempted, or
    the export call of the run, on the files the writer left, fell back, or
    it left a usable file and then the unlink of the WAV decided. *)
Lemma save_audio_returns (audio : list Q) (output_path : path) (sample_rate : Z)
    (s s' : state) (p : path) :
  let target_ext := lower (suffix output_path) in
  let wav_path :=
    if String.eqb target_ext ".wav" then output_path
    else with_suffix output_path ".wav" in
  save_audio sf_write pydub_export mkdir_parent unlink_error audio output_path
    sample_rate s = (Ok p, s') →
  ∃ fs0 fs1,
    mkdir_parent output_path (files s) = (Ok tt, fs0)
    ∧ sf_write wav_path audio sample_rate fs0 = (Ok tt, fs1)
    ∧ (((target_ext = "" ∨ target_ext = ".wav") ∧ p = wav_path ∧ s' = set_files fs1 s)
       ∨ (target_ext ≠ "" ∧ target_ext ≠ ".wav"
          ∧ let exported :=
              pydub_export wav_path output_path (lstrip_dots target_ext) fs1 in
            (fell_back output_path exported
             ∧ p = wav_path ∧ s' = set_files (snd exported) s)
            ∨ (¬ fell_back output_path exported
               ∧ match unlink_error wav_path with
                 | None => p = output_path
                           ∧ s' = set_files (delete wav_path (snd exported)) s
                 | Some _ => p = wav_path ∧ s' = set_files (snd exported) s
                 end))).
Proof.
  intros target_ext wav_path. subst wav_path. unfold save_audio. fold target_ext.
  unfold try_exceptM, bindM, ret, raise. cbv beta.
  destruct (mkdir_parent output_path (files s)) as [rm fs0].
  destruct rm as [[]|e|]; cbn [files set_files].
  2:{ destruct (is_Exception e); intros [=]. }
  2:{ intros [=]. }
  destruct (String.eqb_spec target_ext ".wav") as [Hw|Hw].
  { cbn [files set_files].
    destruct (sf_write output_path audio sample_rate fs0) as [rw fs1] eqn:Esf.
    destruct rw as [[]|e|]; cbn [files set_files].
    2:{ destruct (is_Exception e); intros [=]. }
    2:{ intros [=]. }
    rewrite andb_false_r. intros [= <- <-].
    exists fs0, fs1. split; [reflexivity|]. split; [exact Esf|].
    left. repeat split; auto. }
  destruct (has_empty_name output_path).
  { cbn. intros [=]. }
  cbn [files set_files]. set (wav_path := with_suffix output_path ".wav").
  destruct (sf_write wav_path audio sample_rate fs0) as [rw fs1] eqn:Esf.
  destruct rw as [[]|e|]; cbn [files set_files].
  2:{ destruct (is_Exception e); intros [=]. }
  2:{ intros [=]. }
  intros Hrun. exists fs0, fs1. split; [reflexivity|]. split; [exact Esf|].
  revert Hrun.
  destruct (String.eqb_spec target_ext "") as [He|He]; cbn [negb andb].
  { intros [= <- <-]. left. repeat split; auto. }
  intros Hrun. right. split; [exact He|]. split; [exact Hw|]. cbv zeta.
  revert Hrun. cbv beta. cbn [files set_files].
  destruct (pydub_export wav_path output_path (lstrip_dots target_ext) fs1)
    as [rx fs2].
  cbn [snd fell_back]. destruct rx as [[]|e|]; cbn [files set_files].
  - unfold exists_, stat, unlink_missing_ok.
    destruct (fs2 !! output_path) as [f|]; cbn [bind].
    + destruct (Z.ltb_spec 0 (st_size f)) as [Hpos|Hnon].
      * destruct (unlink_error wav_path) as [err|]; cbn [is_Exception files set_files].
        -- intros [= <- <-]. right. split; [lia | split; reflexivity].
        -- intros [= <- <-]. right. split; [lia | split; reflexivity].
      * intros [= <- <-]. left. repeat split; auto.
    + cbn. intros [= <- <-]. left. repeat split; auto.
  - destruct (is_Exception e) eqn:Ee.
    + intros [= <- <-]. left. repeat split; auto.
    + cbn. rewrite Ee. intros [=].
  - intros [=].
Qed.

(** A success result of [process_file] comes from a load, an enhancement
    and a save that all returned; it reports the path [save_audio] returned
    and the size found at that path afterwards. *)
Lemma process_file_success (self : processor) (fuel : nat)
    (input_path output_path : path) (atten gain : option Q) (s s' : state)
    (d : Q) (sr size : Z) (mb : Q) (out : path) :
  process_file df_import init_df enhance_fn pow10 librosa_load librosa_to_mono
    librosa_resample sf_write pydub_export mkdir_parent unlink_error self fuel
    input_path output_path atten gain s = (Ok (Success d sr size mb out), s') →
  ∃ audio enhanced s1,
    load_audio librosa_load librosa_to_mono librosa_resample self input_path s
    = (Ok (audio, sr), s)
    ∧ sr ≠ 0
    ∧ d = (inject_Z (len audio) / inject_Z sr)%Q
    ∧ enhance_audio df_import init_df enhance_fn pow10 self fuel audio sr atten gain s
      = (Ok enhanced, s1)
    ∧ save_audio sf_write pydub_export mkdir_parent unlink_error enhanced
        output_path sr s1 = (Ok out, s')
    ∧ mb = (inject_Z size / inject_Z (1024 * 1024))%Q
    ∧ ∃ f, files s' !! out = Some f ∧ st_size f = size.
Proof.
  unfold process_file, try_exceptM, bindM, ret, lift. cbv beta.
  destruct (load_audio _ _ _ self input_path s) as [[[audio sr0]|e|] s0] eqn:Eload.
  2:{ destruct (is_Exception e); intros [=]. }
  2:{ intros [=]. }
  assert (s0 = s) as -> by (unfold load_audio, lift in Eload; congruence).
  cbn [fst snd].
  destruct (Z.eqb_spec sr0 0) as [?|Hnz].
  { cbn. intros [=]. }
  destruct (enhance_audio _ _ _ _ self fuel audio sr0 atten gain s)
    as [[enhanced|e|] s1] eqn:Eenh.
  2:{ destruct (is_Exception e); intros [=]. }
  2:{ intros [=]. }
  destruct (save_audio _ _ _ _ enhanced output_path sr0 s1)
    as [[final|e|] s2] eqn:Esave.
  2:{ destruct (is_Exception e); intros [=]. }
  2:{ intros [=]. }
  unfold stat. destruct (files s2 !! final) as [f|] eqn:Ef.
  - intros [= <- <- <- <- <- <-]. exists audio, enhanced, s1.
    repeat split; try done. exists f. split; [exact Ef | reflexivity].
  - cbn. intros [=].
Qed.

(** C8: when a container other than WAV was requested and [process_file]
    reports success, the result comes from a run in which the audio was
    loaded and enhanced, the directory call and the WAV writer returned,
    and the size reported is that of the file found at the reported path.
    If the conversion of that run fell back (the export call it made, on
    the files the WAV writer left, raised, or left no file or an empty one
    at the requested path), the reported path is the path of the WAV file,
    which is not the requested path; the same holds when the conversion
    went through but the unlink of the WAV file was refused. *)
Theorem process_file_reports_written_path (self : processor) (fuel : nat)
    (input_path output_path : path) (atten gain : option Q) (s s' : state)
    (d : Q) (sr size : Z) (mb : Q) (out : path) :
  let target_ext := lower (suffix output_path) in
  let wav_path := with_suffix output_path ".wav" in
  target_ext ≠ ".wav" →
  process_file df_import init_df enhance_fn pow10 librosa_load librosa_to_mono
    librosa_resample sf_write pydub_export mkdir_parent unlink_error self fuel
    input_path output_path atten gain s = (Ok (Success d sr size mb out), s') →
  ∃ audio enhanced s1 fs0 fs1,
    load_audio librosa_load librosa_to_mono librosa_resample self input_path s
    = (Ok (audio, sr), s)
    ∧ enhance_audio df_import init_df enhance_fn pow10 self fuel audio sr atten gain s
      = (Ok enhanced, s1)
    ∧ mkdir_parent output_path (files s1) = (Ok tt, fs0)
    ∧ sf_write wav_path enhanced sr fs0 = (Ok tt, fs1)
    ∧ (∃ f, files s' !! out = Some f ∧ st_size f = size)
    ∧ (fell_back output_path
         (pydub_export wav_path output_path (lstrip_dots target_ext) fs1) →
       out = wav_path ∧ out ≠ output_path)
    ∧ (unlink_error wav_path ≠ None → out = wav_path ∧ out ≠ output_path).
Proof.
  intros target_ext wav_path Hext Hrun.
  apply process_file_success in Hrun
    as (audio & enhanced & s1 & Hload & _ & _ & Henh & Hsave & _ & Hsize).
  apply save_audio_returns in Hsave as (fs0 & fs1 & Hmk & Hw & Hcases).
  fold target_ext in Hw, Hcases.
  assert (Ew : String.eqb target_ext ".wav" = false) by (by apply String.eqb_neq).
  rewrite Ew in Hw, Hcases. fold wav_path in Hw, Hcases.
  assert (Hne : wav_path ≠ output_path) by (by apply with_suffix_wav_differs).
  exists audio, enhanced, s1, fs0, fs1.
  repeat (split; [assumption|]).
  destruct Hcases as [([He|He] & -> & _) | (He & _ & Hconv)]; [by split| done |].
  cbv zeta in Hconv. destruct Hconv as [(Hfb & -> & _) | (Hnfb & Hul)]; [by split|].
  split; [intros Hfb; contradiction|].
  destruct (unlink_error wav_path) as [err|]; [|done].
  destruct Hul as [-> _]. by split.
Qed.

End SaveProperties.

(** C8, witness: an MP3 is requested, the WAV writer leaves a 48-byte file
    and the exporter raises; the run succeeds and reports the WAV file. *)
Lemma process_file_reports_written_path_witness :
  let self := __init__ 48000 30 (1 # 20) None 0 in
  let input_path := Path "uploads/a" ".wav" in
  let output_path := Path "processed/a" ".mp3" in
  let sf_write := fun (p : path) (a : list Q) (_ : Z) (fs : gmap path file) =>
    (Ok tt, <[p := File Regular 0 (44 + 2 * len a)]> fs) in
  let pydub_export := fun (_ _ : path) (_ : string) (fs : gmap path file) =>
    (Raise (Exception "CouldntEncodeError" "encoder not found") : result unit, fs) in
  let mkdir_parent := fun (_ : path) (fs : gmap path file) => (Ok tt, fs) in
  let s := {| _initialized := false; init_df_calls := 0; events := []; files := ∅ |} in
  ∃ d sr size mb out s',
    process_file (Ok tt) (fun _ => Ok tt) (fun x _ => Ok x) (fun _ => Ok 1%Q)
      (fun _ => Ok (Array1 [1 # 2; 1 # 4]%Q, 48000)) (fun _ => Ok [])
      (fun a _ _ => Ok a) sf_write pydub_export mkdir_parent (fun _ => None)
      self 0 input_path output_path None None s
    = (Ok (Success d sr size mb out), s')
    ∧ out = Path "processed/a" ".wav"
    ∧ out ≠ output_path
    ∧ size = 48
    ∧ ∃ f, files s' !! out = Some f ∧ st_size f = size.
Proof.
  intros self input_path output_path sf_write pydub_export mkdir_parent s.
  eexists _, _, _, _, _, _.
  split; [vm_compute; reflexivity|].
  pose proof (process_file_reports_written_path (Ok tt) (fun _ => Ok tt)
    (fun x _ => Ok x) (fun _ => Ok 1%Q)
    (fun _ => Ok (Array1 [1 # 2; 1 # 4]%Q, 48000)) (fun _ => Ok [])
    (fun a _ _ => Ok a) sf_write pydub_export mkdir_parent (fun _ => None)
    self 0 input_path output_path None None s) as T.
  cbv zeta in T.
  edestruct T as (audio & enhanced & s1 & fs0 & fs1 & _ & _ & _ & _ & H3 & Hfb & _).
  - vm_compute. discriminate.
  - vm_compute. reflexivity.
  - destruct (Hfb I) as [H1 H2].
    split; [exact H1|]. split; [exact H2|]. split; [reflexivity | exact H3].
Defined.

(** ** Chunk planning *)

Section PlanProperties.

Variables C overlap N : Z.
Hypothesis overlap_nonneg : 0 ≤ overlap.
Hypothesis overlap_lt_chunk : overlap < C.

(** Fuel equal to the number of samples left is enough for the loop to
    finish, and the windows it visits are the plan. *)
Lemma chunk_windows_plan (fuel : nat) (start : Z) :
  start < N → N - start ≤ Z.of_nat fuel →
  ∃ ws, chunk_windows C overlap N fuel start = Some ws
        ∧ is_plan C overlap N start ws.
Proof.
  revert start. induction fuel as [|fuel IH]; intros start Hlt Hfuel; [lia|].
  cbn [chunk_windows].
  destruct (Z.ltb_spec start N) as [_|?]; [|lia].
  destruct (Z.leb_spec N (Z.min (start + C) N)) as [Hend|Hend].
  - eexists. split; [reflexivity|]. cbn. repeat split. lia.
  - assert (Hnext : (if 0 <? overlap then Z.min (start + C) N - overlap
                     else Z.min (start + C) N)
                    = Z.min (start + C) N - overlap).
    { destruct (Z.ltb_spec 0 overlap); lia. }
    rewrite Hnext.
    destruct (IH (Z.min (start + C) N - overlap)) as (ws & Hws & Hplan); [lia..|].
    rewrite Hws. cbn. eexists. split; [reflexivity|].
    cbn [is_plan fst snd]. split; [reflexivity|]. split; [reflexivity|].
    destruct ws as [|w ws]; [destruct Hplan|]. split; [exact Hend | exact Hplan].
Qed.

(** More fuel does not change what the loop returns. *)
Lemma chunk_windows_fuel_mono (fuel fuel' : nat) (start : Z) (ws : list (Z * Z)) :
  chunk_windows C overlap N fuel start = Some ws → (fuel ≤ fuel')%nat →
  chunk_windows C overlap N fuel' start = Some ws.
Proof.
  revert fuel' start ws.
  induction fuel as [|fuel IH]; intros fuel' start ws Hrun Hle; [discriminate|].
  destruct fuel' as [|fuel']; [lia|].
  cbn [chunk_windows] in *.
  destruct (start <? N); [|exact Hrun].
  destruct (N <=? Z.min (start + C) N); [exact Hrun|].
  destruct (chunk_windows C overlap N fuel _) as [ws'|] eqn:E; [|discriminate].
  rewrite (IH fuel' _ ws' E) by lia. exact Hrun.
Qed.

(** Successive window starts strictly increase. *)
Lemma is_plan_starts_increase (start : Z) (ws : list (Z * Z)) :
  is_plan C overlap N start ws →
  ∀ i w w', ws !! i = Some w → ws !! S i = Some w' → fst w < fst w'.
Proof.
  revert start. induction ws as [|w0 rest IH]; intros start Hplan i w w' Hw Hw';
    [discriminate|].
  destruct Hplan as (Hs & He & Hrest).
  destruct rest as [|w1 rest]; [discriminate|].
  destruct Hrest as [Hlt Hplan'].
  destruct i as [|i].
  - injection Hw as <-. injection Hw' as <-.
    destruct Hplan' as (Hs1 & _). lia.
  - exact (IH _ Hplan' i w w' Hw Hw').
Qed.

(** Every window but the last holds [C] samples; the last, of [L] samples,
    ends at [N]; and the windows cover the samples from [start] on. *)
Lemma is_plan_shape (start : Z) (ws : list (Z * Z)) :
  is_plan C overlap N start ws → start < N →
  ∃ (k : nat) (L : Z),
    map window_len ws = replicate k C ++ [L]
    ∧ 0 < L ∧ L ≤ C
    ∧ N - start = Z.of_nat k * (C - overlap) + L
    ∧ last ws = Some (N - L, N)
    ∧ ((0 < k)%nat → overlap < L).
Proof.
  revert start. induction ws as [|w0 rest IH]; intros start Hplan Hlt;
    [destruct Hplan|].
  destruct w0 as [s0 e0]. destruct Hplan as (Hs & He & Hrest). cbn in Hs, He.
  destruct rest as [|w1 rest].
  - cbn in Hrest. exists 0%nat, (N - start).
    cbn. unfold window_len. cbn. subst s0.
    repeat split; try lia.
    + do 2 f_equal; lia.
    + do 2 f_equal; lia.
  - destruct Hrest as [HltN Hplan']. cbn in HltN.
    destruct (IH (e0 - overlap) Hplan') as (k & L & Hmap & HL0 & HLC & Hcover & Hlast & Hov);
      [lia|].
    exists (S k), L. cbn [replicate app].
    change (map window_len ((s0, e0) :: w1 :: rest))
      with (window_len (s0, e0) :: map window_len (w1 :: rest)).
    rewrite Hmap. unfold window_len at 1. cbn [fst snd].
    repeat split; try lia.
    + f_equal. lia.
    + exact Hlast.
    + intros _. destruct k as [|k]; [|apply Hov; lia].
      cbn in Hcover. lia.
Qed.

End PlanProperties.

(** ** The chunking loop *)
Section ChunkLoopProperties.

Variable enhance_fn : list Q → option Q → result (list Q).
Variable audio : list Q.
Variables C overlap : Z.
Variable atten : option Q.
Hypothesis chunk_pos : 0 < C.
Hypothesis overlap_nonneg : 0 ≤ overlap.
Hypothesis overlap_lt_chunk : overlap < C.

Lemma chunk_windows_length (N : Z) (fuel : nat) (start : Z) (ws : list (Z * Z)) :
  chunk_windows C overlap N fuel start = Some ws → (length ws ≤ fuel)%nat.
Proof.
  revert start ws. induction fuel as [|fuel IH]; intros start ws; [discriminate|].
  cbn [chunk_windows].
  destruct (start <? N); [|intros [= <-]; cbn; lia].
  destruct (N <=? Z.min (start + C) N); [intros [= <-]; cbn; lia|].
  destruct (chunk_windows C overlap N fuel _) as [ws'|] eqn:E; [|discriminate].
  cbn. intros [= <-]. apply IH in E. cbn. lia.
Qed.

(** With a model call that returns or raises, the loop ends within as many
    passes as there are samples left. *)
Lemma chunk_loop_terminates (fuel : nat) (start chunk_idx : Z)
    (acc : list (list Q)) :
  (∀ x a, enhance_fn x a ≠ OutOfFuel) →
  start < len audio → len audio - start ≤ Z.of_nat fuel →
  chunk_loop enhance_fn audio C overlap (len audio) atten fuel start chunk_idx acc
  ≠ OutOfFuel.
Proof.
  intros Hret. revert start chunk_idx acc.
  induction fuel as [|fuel IH]; intros start chunk_idx acc Hlt Hfuel; [lia|].
  cbn [chunk_loop].
  destruct (Z.ltb_spec start (len audio)) as [_|?]; [|lia].
  unfold _run_enhance.
  set (chunk := slice audio (Some start) (Some (Z.min (start + C) (len audio)))).
  assert (Hcall : ∃ r, r = enhance_fn chunk atten ∧ r ≠ OutOfFuel).
  { eexists. split; [reflexivity | apply Hret]. }
  destruct Hcall as (r & Hr & Hne).
  replace (match atten with
           | Some a => enhance_fn chunk (Some a)
           | None => enhance_fn chunk None
           end) with r by (rewrite Hr; destruct atten; reflexivity).
  destruct r as [y|e|]; cbn [bind]; [|discriminate|contradiction].
  destruct (Z.leb_spec (len audio) (Z.min (start + C) (len audio))) as [_|Hend];
    [discriminate|].
  apply IH; destruct (Z.ltb_spec 0 overlap); lia.
Qed.

Hypothesis shape_preserving :
  ∀ x a, ∃ y, enhance_fn x a = Ok y ∧ length y = length x.

(** With a shape-preserving model call the loop returns one chunk per
    window of the plan, each as long as its window. *)
Lemma chunk_loop_chunks (fuel : nat) (start chunk_idx : Z) (acc : list (list Q))
    (ws : list (Z * Z)) :
  0 ≤ start →
  chunk_windows C overlap (len audio) fuel start = Some ws →
  ∃ chunks,
    chunk_loop enhance_fn audio C overlap (len audio) atten fuel start chunk_idx acc
    = Ok (acc ++ chunks)
    ∧ map len chunks = map window_len ws.
Proof.
  revert start chunk_idx acc ws.
  induction fuel as [|fuel IH]; intros start chunk_idx acc ws Hstart; [discriminate|].
  cbn [chunk_loop chunk_windows].
  destruct (Z.ltb_spec start (len audio)) as [Hlt|Hge].
  2:{ intros [= <-]. exists []. by rewrite app_nil_r. }
  set (end_ := Z.min (start + C) (len audio)).
  assert (Hend : start ≤ end_ ∧ end_ ≤ len audio) by (unfold end_; lia).
  unfold _run_enhance.
  destruct (shape_preserving (slice audio (Some start) (Some end_)) atten)
    as (y & Hy & Hlen).
  replace (match atten with
           | Some a => enhance_fn (slice audio (Some start) (Some end_)) (Some a)
           | None => enhance_fn (slice audio (Some start) (Some end_)) None
           end) with (Ok y : result (list Q))
    by (rewrite <- Hy; destruct atten; reflexivity).
  cbn [bind].
  assert (Hleny : len y = window_len (start, end_)).
  { unfold window_len. cbn [fst snd].
    rewrite <- (len_slice_in audio start end_) by lia.
    unfold len. by rewrite Hlen. }
  destruct (Z.leb_spec (len audio) end_) as [Hlast|Hmore].
  - intros [= <-]. exists [y]. split; [reflexivity|]. cbn [map]. by rewrite Hleny.
  - destruct (chunk_windows C overlap (len audio) fuel _) as [ws'|] eqn:E;
      [|discriminate].
    cbn. intros [= <-].
    eapply (IH _ (chunk_idx + 1) (acc ++ [y])) in E.
    + destruct E as (chunks & Hrun & Hmap).
      exists (y :: chunks). rewrite Hrun, <- app_assoc. split; [reflexivity|].
      cbn [map]. by rewrite Hleny, Hmap.
    + destruct (Z.ltb_spec 0 overlap); unfold end_ in *; lia.
Qed.

End ChunkLoopProperties.

(** C7: for an input of [N > 0] samples, a chunk size [C > 0] and any
    configured overlap [O ≥ 0], [O ≥ C] included, the overlap the loop uses
    is clamped to at most [C // 4] and so is below [C]; with [N] units of
    fuel the loop visits a fixed, nonempty sequence of at most [N] windows
    whose starts strictly increase; and the loop itself, with any model call
    that returns or raises, comes to an end. *)
Theorem chunk_loop_progress (self : processor) (C : Z) (audio : list Q) :
  0 < len audio → 0 < C → 0 ≤ chunk_overlap_samples self →
  let N := len audio in
  let overlap := planned_overlap self C in
  overlap ≤ C `div` 4 ∧ overlap < C
  ∧ ∃ ws,
      (∀ fuel, (Z.to_nat N ≤ fuel)%nat →
         chunk_windows C overlap N fuel 0 = Some ws)
      ∧ (0 < length ws ≤ Z.to_nat N)%nat
      ∧ (∀ i w w', ws !! i = Some w → ws !! S i = Some w' → fst w < fst w')
      ∧ (∀ enhance_fn atten fuel,
           (∀ x a, enhance_fn x a ≠ OutOfFuel) → (Z.to_nat N ≤ fuel)%nat →
           chunk_loop enhance_fn audio C overlap N atten fuel 0 1 [] ≠ OutOfFuel).
Proof.
  intros HN HC HO N overlap.
  assert (Hdiv : 0 ≤ C `div` 4 ∧ C `div` 4 < C).
  { split; [apply Z.div_pos; lia | apply Z.div_lt; lia]. }
  assert (Hov : 0 ≤ overlap ∧ overlap ≤ C `div` 4)
    by (unfold overlap, planned_overlap; lia).
  split; [lia|]. split; [lia|].
  destruct (chunk_windows_plan C overlap N ltac:(lia) ltac:(lia) (Z.to_nat N) 0)
    as (ws & Hws & Hplan); [lia..|].
  exists ws. split; [|split; [|split]].
  - intros fuel Hfuel. by apply (chunk_windows_fuel_mono C overlap N (Z.to_nat N)).
  - split.
    + destruct ws; [destruct Hplan | cbn; lia].
    + by apply (chunk_windows_length C overlap N _ 0).
  - apply (is_plan_starts_increase C overlap N ltac:(lia) 0). exact Hplan.
  - intros enhance_fn atten fuel Hret Hfuel.
    apply chunk_loop_terminates; [lia | lia | exact Hret | lia | unfold N in *; lia].
Qed.

(** C7, witness: nine samples, chunks of eight, and a configured overlap of
    160 samples, far above the chunk size. *)
Lemma chunk_loop_progress_witness :
  let self := __init__ 8 1 20 None 0 in
  let audio := [1; 2; 3; 4; 5; 6; 7; 8; 9]%Q in
  chunk_overlap_samples self = 160
  ∧ planned_overlap self 8 = 2
  ∧ chunk_windows 8 2 9 9 0 = Some [(0, 8); (6, 9)]
  ∧ chunk_loop (fun x _ => Ok x) audio 8 2 9 None 9 0 1 [] ≠ OutOfFuel.
Proof.
  intros self audio.
  destruct (chunk_loop_progress self 8 audio eq_refl eq_refl ltac:(discriminate))
    as (_ & _ & ws & Hfuel & _ & _ & Hloop).
  split; [reflexivity|]. split; [reflexivity|]. split; [reflexivity|].
  apply (Hloop (fun x _ => Ok x) None 9%nat); [discriminate | apply le_n].
Defined.

(** ** Chunking followed by merging *)

Lemma sum_replicate_app (k : nat) (C L : Z) :
  Py.sum (replicate k C ++ [L]) = Z.of_nat k * C + L.
Proof.
  induction k as [|k IH].
  - change (L + 0 = 0 * C + L). lia.
  - cbn [replicate app]. rewrite sum_cons, IH. lia.
Qed.

Lemma min_list_replicate_app (k : nat) (C L : Z) :
  L ≤ C → min_list C (replicate k C ++ [L]) = L.
Proof.
  intros HL. unfold min_list. induction k as [|k IH].
  - cbn. lia.
  - cbn [replicate app foldr]. rewrite IH. lia.
Qed.

Section ChunkAndMerge.

Variable enhance_fn : list Q → option Q → result (list Q).
Hypothesis shape_preserving :
  ∀ x a, ∃ y, enhance_fn x a = Ok y ∧ length y = length x.

(** What the loop and the merger give for an input longer than one chunk,
    in terms of the number [k] of full windows and the length [L] of the
    last window. *)
Lemma chunk_and_merge (audio : list Q) (C overlap : Z) (atten : option Q)
    (fuel : nat) :
  let N := len audio in
  0 < C → C < N → 0 < overlap → overlap < C → 4 * overlap ≤ C →
  (Z.to_nat N ≤ fuel)%nat →
  ∃ ws chunks out (k : nat) (L : Z),
    chunk_windows C overlap N fuel 0 = Some ws
    ∧ is_plan C overlap N 0 ws
    ∧ map window_len ws = replicate (S k) C ++ [L]
    ∧ last ws = Some (N - L, N)
    ∧ overlap < L ∧ L ≤ C
    ∧ N = Z.of_nat (S k) * (C - overlap) + L
    ∧ chunk_loop enhance_fn audio C overlap N atten fuel 0 1 [] = Ok chunks
    ∧ map len chunks = map window_len ws
    ∧ _merge_chunks chunks overlap = Ok out
    ∧ len out = N + Z.of_nat (S k) * (overlap - Z.min overlap (L `div` 2)).
Proof.
  intros N HC HN HO HOC HO4 Hfuel.
  destruct (chunk_windows_plan C overlap N ltac:(lia) HOC (Z.to_nat N) 0)
    as (ws & Hws0 & Hplan); [lia..|].
  pose proof (chunk_windows_fuel_mono C overlap N _ fuel 0 ws Hws0 Hfuel) as Hws.
  destruct (is_plan_shape C overlap N ltac:(lia) 0 ws Hplan ltac:(lia))
    as (k & L & Hmap & HL0 & HLC & Hcover & Hlast & Hov).
  destruct k as [|k]; [cbn in Hcover; lia|].
  specialize (Hov ltac:(lia)).
  destruct (chunk_loop_chunks enhance_fn audio C overlap atten HC HOC shape_preserving
              fuel 0 1 [] ws ltac:(lia) Hws) as (chunks & Hrun & Hlens).
  cbn [app] in Hrun.
  assert (Hlens' : map len chunks = replicate (S k) C ++ [L]) by congruence.
  destruct chunks as [|c0 rest]; [discriminate|].
  cbn [map replicate app] in Hlens'. injection Hlens' as Hc0 Hrest.
  destruct (merge_chunks_length c0 rest overlap HO) as (out & Hmerge & Hlen).
  exists ws, (c0 :: rest), out, k, L.
  repeat (split; [first [assumption | lia]|]).
  rewrite Hlen. cbn [map]. rewrite sum_cons, Hc0, Hrest.
  rewrite sum_replicate_app, min_list_replicate_app by lia.
  assert (Hlr : len rest = Z.of_nat (S k)).
  { unfold len. rewrite <- (length_map len rest), Hrest.
    rewrite length_app, length_replicate. cbn [length]. lia. }
  rewrite Hlr. lia.
Qed.

End ChunkAndMerge.

(** The merged length in general: for an input of [N] samples, a chunk
    size [C] and an overlap [O] with [N > C > 0] and [0 < O ≤ C/4], and a
    shape-preserving model call, the loop steps back by [O] and the merger
    is given [O]; the merged buffer holds [N + (k − 1)·(O − O')] samples,
    where [k] is the number of chunks, [L] the length of the last chunk and
    [O' = min(O, L // 2)] the overlap the merger removes at each boundary.
    That is exactly [N] when the last chunk holds at least [2·O] samples,
    and more than [N] when it holds fewer. *)
Theorem chunk_merge_length (enhance_fn : list Q → option Q → result (list Q))
    (audio : list Q) (C O : Z) (atten : option Q) (fuel : nat) :
  (∀ x a, ∃ y, enhance_fn x a = Ok y ∧ length y = length x) →
  let N := len audio in
  0 < C → C < N → 0 < O → 4 * O ≤ C → (Z.to_nat N ≤ fuel)%nat →
  let overlap := Z.min O (C `div` 4) in
  overlap = O
  ∧ ∃ chunks out L,
      chunk_loop enhance_fn audio C overlap N atten fuel 0 1 [] = Ok chunks
      ∧ last (map len chunks) = Some L
      ∧ _merge_chunks chunks overlap = Ok out
      ∧ len out = N + (len chunks - 1) * (O - Z.min O (L `div` 2))
      ∧ (2 * O ≤ L → len out = N)
      ∧ (L < 2 * O → N < len out).
Proof.
  intros Hshape N HC HN HO HO4 Hfuel overlap.
  assert (Hov : overlap = O).
  { unfold overlap. apply Z.min_l. apply Z.div_le_lower_bound; lia. }
  split; [exact Hov|]. rewrite Hov.
  destruct (chunk_and_merge enhance_fn Hshape audio C O atten fuel
              HC HN HO ltac:(lia) HO4 Hfuel)
    as (ws & chunks & out & k & L & _ & _ & Hmap & _ & HOL & HLC & _ & Hrun
        & Hlens & Hmerge & Hlen).
  exists chunks, out, L.
  assert (Hk : len chunks - 1 = Z.of_nat (S k)).
  { unfold len. rewrite <- (length_map len chunks), Hlens, Hmap.
    rewrite length_app, length_replicate. cbn [length]. lia. }
  split; [exact Hrun|]. split; [by rewrite Hlens, Hmap, last_snoc|].
  split; [exact Hmerge|]. split; [by rewrite Hk|].
  split.
  - intros H2. rewrite Hlen, Z.min_l; [lia|].
    apply Z.div_le_lower_bound; lia.
  - intros H2. rewrite Hlen.
    assert (L `div` 2 < O) by (apply Z.div_lt_upper_bound; lia).
    rewrite Z.min_r by lia. nia.
Qed.

(** Twelve samples, chunks of eight, overlap two: the last chunk holds
    six samples and the merged buffer twelve. *)
Lemma chunk_merge_length_witness :
  let audio := [1; 2; 3; 4; 5; 6; 7; 8; 9; 10; 11; 12]%Q in
  ∃ chunks out,
    chunk_loop (fun x _ => Ok x) audio 8 2 12 None 12 0 1 [] = Ok chunks
    ∧ last (map len chunks) = Some 6
    ∧ _merge_chunks chunks 2 = Ok out
    ∧ len out = 12.
Proof.
  intros audio.
  destruct (chunk_merge_length (fun x _ => Ok x) audio 8 2 None 12
              ltac:(intros x a; exists x; split; reflexivity)
              eq_refl eq_refl eq_refl ltac:(discriminate) (le_n 12))
    as (_ & chunks & out & L & Hrun & Hlast & Hmerge & _ & Hexact & _).
  exists chunks, out.
  assert (HL : L = 6).
  { vm_compute in Hrun. injection Hrun as <-.
    vm_compute in Hlast. by injection Hlast as <-. }
  subst L. repeat split; try assumption. apply Hexact. discriminate.
Defined.

(** C3, counterexample: nine samples, chunks of eight, overlap two
    ([9 > 8 > 0], [0 < 2 ≤ 8/4]). The last chunk holds three samples, the
    loop has stepped back by two samples but the merger removes one sample
    at the boundary, and the output has ten samples, not nine. *)
Lemma chunk_merge_length_short_tail :
  let audio := [1; 2; 3; 4; 5; 6; 7; 8; 9]%Q in
  let self := __init__ 8 1 (1 # 4) None 0 in
  max_chunk_samples self = Some 8
  ∧ chunk_overlap_samples self = 2
  ∧ ∃ chunks out,
      chunk_loop (fun x _ => Ok x) audio 8 2 9 None 9 0 1 [] = Ok chunks
      ∧ map len chunks = [8; 3]
      ∧ _merge_chunks chunks 2 = Ok out
      ∧ len out = 10
      ∧ ∃ out',
          enhance_try (fun x _ => Ok x) (fun _ => Ok 1%Q) self 9 audio None None
          = Ok out'
          ∧ len out' = 10.
Proof.
  split; [reflexivity|]. split; [reflexivity|].
  eexists _, _. split; [vm_compute; reflexivity|].
  split; [reflexivity|]. split; [vm_compute; reflexivity|].
  split; [reflexivity|].
  eexists. split; [vm_compute; reflexivity | reflexivity].
Qed.

(** ** The whole of [enhance_audio]'s [try] block on a chunked input *)
Section EnhanceTry.

Variable enhance_fn : list Q → option Q → result (list Q).
Variable pow10 : Q → result Q.

(** On a nonempty input longer than one chunk the block normalizes the
    input, which keeps its length, runs the loop, merges and applies the
    gain stage. *)
Lemma enhance_try_chunked (self : processor) (fuel : nat) (audio : list Q)
    (atten' gain' : option Q) (C : Z) :
  audio ≠ [] → max_chunk_samples self = Some C → C ≠ 0 → C < len audio →
  ∃ audio',
    length audio' = length audio
    ∧ enhance_try enhance_fn pow10 self fuel audio atten' gain' =
      let atten_lim :=
        match atten' with Some a => Some a | None => attenuation_limit_db self end in
      let gain_db :=
        match gain' with Some g => g | None => output_gain_db self end in
      let* chunks :=
        chunk_loop enhance_fn audio' C (planned_overlap self C) (len audio')
          atten_lim fuel 0 1 [] in
      let* enhanced := _merge_chunks chunks (planned_overlap self C) in
      gain_stage pow10 gain_db enhanced.
Proof.
  intros Hne HC HC0 HCN. unfold enhance_try.
  destruct audio as [|x xs]; [contradiction|].
  cbn [Np.abs_max bind].
  set (peak := foldr (fun y m => Np.maximum m (Qabs y)) (Qabs x) xs).
  set (audio' := if Qlt_le_dec 1 peak
                 then map (fun x => x / peak)%Q (x :: xs) else x :: xs).
  assert (Hlen : length audio' = length (x :: xs)).
  { unfold audio'. destruct (Qlt_le_dec 1 peak); [apply length_map | reflexivity]. }
  exists audio'. split; [exact Hlen|].
  rewrite HC.
  assert (Hlen' : len audio' = len (x :: xs)) by (unfold len; by rewrite Hlen).
  destruct (Z.eqb_spec C 0) as [?|_]; [contradiction|].
  destruct (Z.ltb_spec C (len audio')) as [_|?]; [|lia].
  cbn [negb andb]. cbv zeta.
  destruct (chunk_loop enhance_fn audio' C (planned_overlap self C) (len audio')
              _ fuel 0 1 []) as [chunks|e|]; reflexivity.
Qed.

End EnhanceTry.

(** ** The 90-second example *)
Section NinetySeconds.

Variable enhance_fn : list Q → option Q → result (list Q).
Hypothesis shape_preserving :
  ∀ x a, ∃ y, enhance_fn x a = Ok y ∧ length y = length x.

(** 90 s at 48 kHz in chunks of 30 s with 0.05 s of overlap: the loop, the
    lengths of its chunks and the merged length. *)
Lemma ninety_seconds_chunks (audio : list Q) (atten : option Q) (fuel : nat) :
  len audio = 4320000 → (4 ≤ fuel)%nat →
  chunk_windows 1440000 2400 4320000 fuel 0
  = Some [(0, 1440000); (1437600, 2877600); (2875200, 4315200);
          (4312800, 4320000)]
  ∧ ∃ chunks out,
      chunk_loop enhance_fn audio 1440000 2400 4320000 atten fuel 0 1 [] = Ok chunks
      ∧ map len chunks = [1440000; 1440000; 1440000; 7200]
      ∧ _merge_chunks chunks 2400 = Ok out
      ∧ len out = 4320000.
Proof.
  intros Hlen Hfuel.
  assert (Hws : chunk_windows 1440000 2400 4320000 fuel 0
                = Some [(0, 1440000); (1437600, 2877600); (2875200, 4315200);
                        (4312800, 4320000)]).
  { apply (chunk_windows_fuel_mono _ _ _ 4); [vm_compute; reflexivity | exact Hfuel]. }
  split; [exact Hws|].
  rewrite <- Hlen in Hws at 1.
  destruct (chunk_loop_chunks enhance_fn audio 1440000 2400 atten eq_refl eq_refl
              shape_preserving fuel 0 1 [] _ ltac:(lia) Hws)
    as (chunks & Hrun & Hmap).
  rewrite Hlen in Hrun. cbn [app] in Hrun.
  change (map window_len _) with [1440000; 1440000; 1440000; 7200] in Hmap.
  destruct chunks as [|c0 [|c1 [|c2 [|c3 [|c4 rest]]]]]; try discriminate.
  injection Hmap as H0 H1 H2 H3.
  destruct (merge_chunks_length c0 [c1; c2; c3] 2400 eq_refl)
    as (out & Hmerge & Hout).
  exists [c0; c1; c2; c3], out.
  split; [exact Hrun|]. split; [cbn [map]; congruence|]. split; [exact Hmerge|].
  rewrite Hout. cbn [map]. rewrite !sum_cons, !len_cons, H0, H1, H2, H3.
  reflexivity.
Qed.

End NinetySeconds.

(** C1 (as the code has it): a 90-second mono input at 48000 Hz
    (4,320,000 samples), chunks of at most 30 s (1,440,000 samples) and
    0.05 s of overlap (2,400 samples), with a shape-preserving model call.
    The loop visits four windows, three of 1,440,000 samples and a last one
    of 7,200 samples, each starting 2,400 samples before the end of the one
    before; the merged buffer, and the buffer [enhance_audio] returns (its
    [try] block, and the method itself on an initialized object), hold
    exactly 4,320,000 samples. *)
Theorem ninety_second_clip (enhance_fn : list Q → option Q → result (list Q))
    (pow10 : Q → result Q) (audio : list Q) (fuel : nat) :
  (∀ x a, ∃ y, enhance_fn x a = Ok y ∧ length y = length x) →
  len audio = 4320000 → (4 ≤ fuel)%nat →
  let self := __init__ 48000 30 (1 # 20) None 0 in
  max_chunk_samples self = Some 1440000
  ∧ planned_overlap self 1440000 = 2400
  ∧ chunk_windows 1440000 2400 4320000 fuel 0
    = Some [(0, 1440000); (1437600, 2877600); (2875200, 4315200);
            (4312800, 4320000)]
  ∧ (∃ chunks out,
       chunk_loop enhance_fn audio 1440000 2400 4320000 None fuel 0 1 [] = Ok chunks
       ∧ map len chunks = [1440000; 1440000; 1440000; 7200]
       ∧ _merge_chunks chunks 2400 = Ok out
       ∧ len out = 4320000)
  ∧ ∃ out,
      enhance_try enhance_fn pow10 self fuel audio None None = Ok out
      ∧ len out = 4320000
      ∧ ∀ (init_df : nat → result unit) (s : state),
          _initialized s = true →
          enhance_audio (Ok tt) init_df enhance_fn pow10 self fuel audio 48000
            None None s = (Ok out, s).
Proof.
  intros Hshape Hlen Hfuel self.
  assert (HC : max_chunk_samples self = Some 1440000) by reflexivity.
  assert (HO : planned_overlap self 1440000 = 2400) by reflexivity.
  split; [exact HC|]. split; [exact HO|].
  destruct (ninety_seconds_chunks enhance_fn Hshape audio None fuel Hlen Hfuel)
    as (Hws & Hchunks).
  split; [exact Hws|]. split; [exact Hchunks|].
  destruct (enhance_try_chunked enhance_fn pow10 self fuel audio None None 1440000)
    as (audio' & Hlen' & Htry).
  - intros ->. discriminate.
  - exact HC.
  - discriminate.
  - rewrite Hlen. reflexivity.
  - assert (Hlen'' : len audio' = 4320000) by (unfold len in *; by rewrite Hlen').
    destruct (ninety_seconds_chunks enhance_fn Hshape audio' None fuel Hlen'' Hfuel)
      as (_ & chunks & out & Hrun & _ & Hmerge & Hout).
    assert (Hok : enhance_try enhance_fn pow10 self fuel audio None None = Ok out).
    { rewrite Htry, HO, Hlen''. cbv zeta.
      change (attenuation_limit_db self) with (@None Q).
      rewrite Hrun. cbn [bind]. rewrite Hmerge. cbn [bind].
      apply gain_stage_zero. }
    exists out. split; [exact Hok|]. split; [exact Hout|].
    intros init_df s Hinit. unfold enhance_audio, bindM, lift.
    rewrite Hinit. cbn [negb bind]. rewrite Hok. reflexivity.
Qed.

(** C1, witness: 4,320,000 samples of silence and a model call that
    returns its input. *)
Lemma ninety_second_clip_witness :
  let audio := replicate (Z.to_nat 4320000) 0%Q in
  len audio = 4320000
  ∧ ∃ chunks out,
      chunk_loop (fun x _ => Ok x) audio 1440000 2400 4320000 None 4 0 1 []
      = Ok chunks
      ∧ map len chunks = [1440000; 1440000; 1440000; 7200]
      ∧ _merge_chunks chunks 2400 = Ok out
      ∧ len out = 4320000.
Proof.
  intros audio.
  assert (Hlen : len audio = 4320000).
  { unfold audio, len. rewrite length_replicate. apply Z2Nat.id. discriminate. }
  split; [exact Hlen|].
  exact (proj1 (proj2 (proj2 (proj2
    (ninety_second_clip (fun x _ => Ok x) (fun _ => Ok 1%Q) audio 4
       (fun x a => ex_intro _ x (conj eq_refl eq_refl)) Hlen (le_n 4)))))).
Defined.

(** C1, counterexample: on 4,320,000 samples of silence the loop does not
    stop after three windows: those end at sample 4,315,200, and a fourth
    chunk of 7,200 samples follows. *)
Lemma ninety_second_clip_four_windows :
  let audio := replicate (Z.to_nat 4320000) 0%Q in
  len audio = 4320000
  ∧ chunk_windows 1440000 2400 4320000 4 0
    = Some [(0, 1440000); (1437600, 2877600); (2875200, 4315200);
            (4312800, 4320000)]
  ∧ ∃ chunks,
      chunk_loop (fun x _ => Ok x) audio 1440000 2400 4320000 None 4 0 1 []
      = Ok chunks
      ∧ map len chunks = [1440000; 1440000; 1440000; 7200]
      ∧ length chunks ≠ 3%nat.
Proof.
  intros audio.
  assert (Hlen : len audio = 4320000).
  { unfold audio, len. rewrite length_replicate. apply Z2Nat.id. discriminate. }
  split; [exact Hlen|].
  destruct (ninety_seconds_chunks (fun x _ => Ok x)
              (fun x a => ex_intro _ x (conj eq_refl eq_refl)) audio None 4
              Hlen (le_n 4)) as (Hws & chunks & out & Hrun & Hmap & _).
  split; [exact Hws|]. exists chunks. split; [exact Hrun|]. split; [exact Hmap|].
  rewrite <- (length_map len chunks), Hmap. discriminate.
Qed.

(** ** Thirty seconds and one sample *)
Section OneSampleOver.

Variable enhance_fn : list Q → option Q → result (list Q).
Hypothesis shape_preserving :
  ∀ x a, ∃ y, enhance_fn x a = Ok y ∧ length y = length x.

(** 1,440,001 samples in chunks of 1,440,000 with 2,400 samples of overlap:
    the loop, the lengths of its chunks and the merged length. *)
Lemma one_sample_over_chunks (audio : list Q) (atten : option Q) (fuel : nat) :
  len audio = 1440001 → (2 ≤ fuel)%nat →
  chunk_windows 1440000 2400 1440001 fuel 0
  = Some [(0, 1440000); (1437600, 1440001)]
  ∧ ∃ chunks out,
      chunk_loop enhance_fn audio 1440000 2400 1440001 atten fuel 0 1 [] = Ok chunks
      ∧ map len chunks = [1440000; 2401]
      ∧ _merge_chunks chunks 2400 = Ok out
      ∧ len out = 1441201.
Proof.
  intros Hlen Hfuel.
  assert (Hws : chunk_windows 1440000 2400 1440001 fuel 0
                = Some [(0, 1440000); (1437600, 1440001)]).
  { apply (chunk_windows_fuel_mono _ _ _ 2); [vm_compute; reflexivity | exact Hfuel]. }
  split; [exact Hws|].
  rewrite <- Hlen in Hws at 1.
  destruct (chunk_loop_chunks enhance_fn audio 1440000 2400 atten eq_refl eq_refl
              shape_preserving fuel 0 1 [] _ ltac:(lia) Hws)
    as (chunks & Hrun & Hmap).
  rewrite Hlen in Hrun. cbn [app] in Hrun.
  change (map window_len _) with [1440000; 2401] in Hmap.
  destruct chunks as [|c0 [|c1 [|c2 rest]]]; try discriminate.
  injection Hmap as H0 H1.
  destruct (merge_chunks_length c0 [c1] 2400 eq_refl) as (out & Hmerge & Hout).
  exists [c0; c1], out.
  split; [exact Hrun|]. split; [cbn [map]; congruence|]. split; [exact Hmerge|].
  rewrite Hout. cbn [map min_list foldr]. rewrite !sum_cons, !len_cons, H0, H1.
  reflexivity.
Qed.

End OneSampleOver.

(** C3, the code at the failing input: a processor with the shipped
    settings (48000 Hz, chunks of 30 s, 0.05 s of overlap) and an input of
    1,440,001 samples, one more than a chunk. The preconditions of the
    claim hold ([N > C > 0], [0 < O ≤ C/4]). The loop makes two chunks, of
    1,440,000 and 2,401 samples, the second starting 2,400 samples before
    the end of the first; the merger removes 1,200 samples at the boundary,
    half of the short chunk, not the 2,400 the loop duplicated; and the
    buffer [enhance_audio]'s [try] block returns holds 1,441,201 samples,
    1,200 more than the input. *)
Theorem default_chunks_one_sample_over (enhance_fn : list Q → option Q → result (list Q))
    (pow10 : Q → result Q) (audio : list Q) (fuel : nat) :
  (∀ x a, ∃ y, enhance_fn x a = Ok y ∧ length y = length x) →
  len audio = 1440001 → (2 ≤ fuel)%nat →
  let self := __init__ 48000 30 (1 # 20) None 0 in
  max_chunk_samples self = Some 1440000
  ∧ planned_overlap self 1440000 = 2400
  ∧ (0 < 1440000 ∧ 1440000 < len audio ∧ 0 < 2400 ∧ 4 * 2400 ≤ 1440000)
  ∧ (∃ chunks out,
       chunk_loop enhance_fn audio 1440000 2400 1440001 None fuel 0 1 [] = Ok chunks
       ∧ map len chunks = [1440000; 2401]
       ∧ _merge_chunks chunks 2400 = Ok out
       ∧ len out = 1441201)
  ∧ ∃ out,
      enhance_try enhance_fn pow10 self fuel audio None None = Ok out
      ∧ len out = 1441201
      ∧ len out = len audio + 1200.
Proof.
  intros Hshape Hlen Hfuel self.
  assert (HC : max_chunk_samples self = Some 1440000) by reflexivity.
  assert (HO : planned_overlap self 1440000 = 2400) by reflexivity.
  split; [exact HC|]. split; [exact HO|]. split; [lia|].
  destruct (one_sample_over_chunks enhance_fn Hshape audio None fuel Hlen Hfuel)
    as (_ & Hchunks).
  split; [exact Hchunks|].
  destruct (enhance_try_chunked enhance_fn pow10 self fuel audio None None 1440000)
    as (audio' & Hlen' & Htry).
  - intros ->. discriminate.
  - exact HC.
  - discriminate.
  - rewrite Hlen. reflexivity.
  - assert (Hlen'' : len audio' = 1440001) by (unfold len in *; by rewrite Hlen').
    destruct (one_sample_over_chunks enhance_fn Hshape audio' None fuel Hlen'' Hfuel)
      as (_ & chunks & out & Hrun & _ & Hmerge & Hout).
    exists out. split; [|split; [exact Hout | lia]].
    rewrite Htry, HO, Hlen''. cbv zeta.
    change (attenuation_limit_db self) with (@None Q).
    rewrite Hrun. cbn [bind]. rewrite Hmerge. cbn [bind].
    apply gain_stage_zero.
Qed.

(** C3, witness: 1,440,001 samples of silence and a model call that
    returns its input. *)
Lemma default_chunks_one_sample_over_witness :
  let audio := replicate (Z.to_nat 1440001) 0%Q in
  let self := __init__ 48000 30 (1 # 20) None 0 in
  len audio = 1440001
  ∧ ∃ out,
      enhance_try (fun x _ => Ok x) (fun _ => Ok 1%Q) self 2 audio None None = Ok out
      ∧ len out = 1441201.
Proof.
  intros audio self.
  assert (Hlen : len audio = 1440001).
  { unfold audio, len. rewrite length_replicate. apply Z2Nat.id. discriminate. }
  split; [exact Hlen|].
  destruct (default_chunks_one_sample_over (fun x _ => Ok x) (fun _ => Ok 1%Q) audio 2
              (fun x a => ex_intro _ x (conj eq_refl eq_refl)) Hlen (le_n 2))
    as (_ & _ & _ & _ & out & Hrun & Hout & _).
  exists out. split; [exact Hrun | exact Hout].
Defined.

(** * Further properties of the pipeline *)

(** ** What the windows of the plan cover *)
Section PlanCoverage.

Variables C overlap N : Z.
Hypothesis overlap_nonneg : 0 ≤ overlap.
Hypothesis overlap_lt_chunk : overlap < C.

Lemma is_plan_bounds (start : Z) (ws : list (Z * Z)) :
  is_plan C overlap N start ws → start < N →
  Forall (fun w => start ≤ fst w ∧ fst w < snd w ∧ snd w ≤ N ∧ window_len w ≤ C) ws.
Proof.
  revert start. induction ws as [|w0 rest IH]; intros start Hplan Hlt;
    [destruct Hplan|].
  destruct w0 as [s0 e0]. destruct Hplan as (Hs & He & Hrest). cbn in Hs, He.
  constructor.
  - unfold window_len. cbn. lia.
  - destruct rest as [|w1 rest]; [constructor|].
    destruct Hrest as [HltN Hplan']. cbn in HltN.
    eapply Forall_impl; [apply (IH (e0 - overlap)); [exact Hplan' | lia]|].
    intros w Hw. cbv beta in *. lia.
Qed.

Lemma is_plan_adjacent (start : Z) (ws : list (Z * Z)) :
  is_plan C overlap N start ws →
  ∀ i w w', ws !! i = Some w → ws !! S i = Some w' → fst w' = snd w - overlap.
Proof.
  revert start. induction ws as [|w0 rest IH]; intros start Hplan i w w' Hw Hw';
    [discriminate|].
  destruct Hplan as (Hs & He & Hrest).
  destruct rest as [|w1 rest]; [discriminate|].
  destruct Hrest as [Hlt Hplan'].
  destruct i as [|i].
  - injection Hw as <-. injection Hw' as <-. by destruct Hplan' as (-> & _).
  - exact (IH _ Hplan' i w w' Hw Hw').
Qed.

Lemma is_plan_cover (start : Z) (ws : list (Z * Z)) :
  is_plan C overlap N start ws →
  ∀ j, start ≤ j → j < N → ∃ w, w ∈ ws ∧ fst w ≤ j ∧ j < snd w.
Proof.
  revert start. induction ws as [|w0 rest IH]; intros start Hplan j Hj HjN;
    [destruct Hplan|].
  destruct w0 as [s0 e0]. destruct Hplan as (Hs & He & Hrest). cbn in Hs, He.
  destruct (Z.lt_ge_cases j e0) as [Hin|Hout].
  - exists (s0, e0). split; [left|cbn; lia].
  - destruct rest as [|w1 rest]; [cbn in Hrest; lia|].
    destruct Hrest as [HltN Hplan']. cbn [snd] in Hplan'.
    assert (Hj' : e0 - overlap ≤ j) by lia.
    destruct (IH _ Hplan' j Hj' HjN) as (w & Hw & Hwj).
    exists w. split; [by right | exact Hwj].
Qed.

Lemma is_plan_head (start : Z) (ws : list (Z * Z)) :
  is_plan C overlap N start ws → ∃ e, head ws = Some (start, e).
Proof.
  destruct ws as [|[s0 e0] rest]; [intros []|]. intros (Hs & _). cbn in Hs.
  subst s0. by exists e0.
Qed.

End PlanCoverage.

(** X1: for [N > 0] samples, chunk size [C > 0] and a configured overlap
    [O ≥ 0], the windows the loop visits lie inside the input, are never
    empty and never hold more than [C] samples; the first starts at sample
    0 and the last ends at sample [N]; each window starts the clamped
    overlap before the end of the one before; and every sample of the
    input lies in at least one window. *)
Theorem chunk_windows_cover (self : processor) (C N : Z) (fuel : nat) :
  0 < N → 0 < C → 0 ≤ chunk_overlap_samples self → (Z.to_nat N ≤ fuel)%nat →
  let overlap := planned_overlap self C in
  ∃ ws,
    chunk_windows C overlap N fuel 0 = Some ws
    ∧ Forall (fun w => 0 ≤ fst w ∧ fst w < snd w ∧ snd w ≤ N ∧ window_len w ≤ C) ws
    ∧ (∃ e, head ws = Some (0, e))
    ∧ (∃ s, last ws = Some (s, N))
    ∧ (∀ i w w', ws !! i = Some w → ws !! S i = Some w' →
         fst w' = snd w - overlap ∧ fst w' ≤ snd w)
    ∧ (∀ j, 0 ≤ j → j < N → ∃ w, w ∈ ws ∧ fst w ≤ j ∧ j < snd w).
Proof.
  intros HN HC HO Hfuel overlap.
  assert (Hdiv : 0 ≤ C `div` 4 ∧ C `div` 4 < C).
  { split; [apply Z.div_pos; lia | apply Z.div_lt; lia]. }
  assert (Hov : 0 ≤ overlap ∧ overlap < C)
    by (unfold overlap, planned_overlap; lia).
  destruct Hov as [Hov0 HovC].
  destruct (chunk_windows_plan C overlap N Hov0 HovC (Z.to_nat N) 0)
    as (ws & Hws & Hplan); [lia..|].
  exists ws. split.
  { by apply (chunk_windows_fuel_mono C overlap N (Z.to_nat N)). }
  split; [eapply is_plan_bounds; try eassumption; lia|].
  split; [by apply (is_plan_head C overlap N 0)|].
  split.
  { destruct (is_plan_shape C overlap N Hov0 0 ws Hplan HN)
      as (k & L & _ & _ & _ & _ & Hlast & _). eauto. }
  split.
  { intros i w w' Hw Hw'.
    pose proof (is_plan_adjacent C overlap N 0 ws Hplan i w w' Hw Hw'). lia. }
  eapply is_plan_cover; try eassumption; lia.
Qed.

(** X1, witness: nine samples, chunks of eight, configured overlap two. *)
Lemma chunk_windows_cover_witness :
  let self := __init__ 8 1 (1 # 4) None 0 in
  ∃ ws,
    chunk_windows 8 (planned_overlap self 8) 9 9 0 = Some ws
    ∧ ws = [(0, 8); (6, 9)]
    ∧ ∃ w, w ∈ ws ∧ fst w ≤ 8 ∧ 8 < snd w.
Proof.
  intros self.
  destruct (chunk_windows_cover self 8 9 9 eq_refl eq_refl ltac:(discriminate)
              (le_n 9)) as (ws & Hws & _ & _ & _ & _ & Hcover).
  exists ws. split; [exact Hws|]. split.
  - vm_compute in Hws. by injection Hws as <-.
  - apply Hcover; [discriminate | reflexivity].
Defined.

(** ** Chunking without overlap *)
Section ZeroOverlap.

Variable enhance_fn : list Q → option Q → result (list Q).
Variable audio : list Q.
Variable C : Z.
Variable atten : option Q.
Hypothesis chunk_pos : 0 < C.

(** With no overlap and a model call that returns its input, the chunks
    are consecutive pieces of the input. *)
Lemma chunk_loop_identity (fuel : nat) (start chunk_idx : Z) (acc : list (list Q)) :
  (∀ x a, enhance_fn x a = Ok x) →
  0 ≤ start → start ≤ len audio → len audio - start < Z.of_nat fuel →
  ∃ chunks,
    chunk_loop enhance_fn audio C 0 (len audio) atten fuel start chunk_idx acc
    = Ok (acc ++ chunks)
    ∧ concat chunks = drop (Z.to_nat start) audio.
Proof.
  intros Hid. revert start chunk_idx acc.
  induction fuel as [|fuel IH]; intros start chunk_idx acc Hstart Hle Hfuel; [lia|].
  cbn [chunk_loop].
  destruct (Z.ltb_spec start (len audio)) as [Hlt|Hge].
  2:{ exists []. rewrite app_nil_r. split; [reflexivity|].
      cbn. symmetry. apply drop_ge. unfold len in Hge. lia. }
  set (end_ := Z.min (start + C) (len audio)).
  assert (Hend : start < end_ ∧ end_ ≤ len audio) by (unfold end_; lia).
  unfold _run_enhance.
  replace (match atten with
           | Some a => enhance_fn (slice audio (Some start) (Some end_)) (Some a)
           | None => enhance_fn (slice audio (Some start) (Some end_)) None
           end) with (Ok (slice audio (Some start) (Some end_)) : result (list Q))
    by (destruct atten; by rewrite Hid).
  cbn [bind]. rewrite slice_in by lia.
  set (piece := take (Z.to_nat (end_ - start)) (drop (Z.to_nat start) audio)).
  destruct (Z.leb_spec (len audio) end_) as [Hlast|Hmore].
  - exists [piece]. split; [reflexivity|]. cbn. rewrite app_nil_r.
    unfold piece. apply take_ge. rewrite length_drop. unfold len in *. lia.
  - change (0 <? 0) with false. cbv iota.
    destruct (IH end_ (chunk_idx + 1) (acc ++ [piece])) as (chunks & Hrun & Hcat);
      [lia | lia | lia |].
    exists (piece :: chunks). rewrite Hrun, <- app_assoc. split; [reflexivity|].
    cbn [concat]. rewrite Hcat. unfold piece.
    replace (Z.to_nat end_) with (Z.to_nat start + Z.to_nat (end_ - start))%nat by lia.
    rewrite <- drop_drop. apply take_drop.
Qed.

End ZeroOverlap.

(** Without an overlap to blend the merger concatenates. *)
Lemma merge_chunks_no_overlap (chunks : list (list Q)) (O : Z) :
  O ≤ 0 → _merge_chunks chunks O = Ok (concat chunks).
Proof.
  intros HO. unfold _merge_chunks. destruct chunks as [|c cs]; [reflexivity|].
  destruct (Z.leb_spec O 0); [|lia]. by rewrite orb_true_r.
Qed.

Lemma len_concat (chunks : list (list Q)) :
  len (concat chunks) = Py.sum (map len chunks).
Proof.
  induction chunks as [|c cs IH]; [reflexivity|].
  cbn [concat map]. rewrite len_app, sum_cons, IH. reflexivity.
Qed.

(** X2: with the overlap set to zero, chunking an input and merging the
    chunks gives back as many samples as went in, for any chunk size and
    any shape-preserving model call; and when the model call returns its
    input unchanged, the merged buffer is the input itself, sample for
    sample. *)
Theorem zero_overlap_round_trip (enhance_fn : list Q → option Q → result (list Q))
    (audio : list Q) (C : Z) (atten : option Q) (fuel : nat) :
  0 < C → (Z.to_nat (len audio) < fuel)%nat →
  (∀ x a, ∃ y, enhance_fn x a = Ok y ∧ length y = length x) →
  ∃ chunks out,
    chunk_loop enhance_fn audio C 0 (len audio) atten fuel 0 1 [] = Ok chunks
    ∧ _merge_chunks chunks 0 = Ok out
    ∧ len out = len audio
    ∧ ((∀ x a, enhance_fn x a = Ok x) → out = audio).
Proof.
  intros HC Hfuel Hshape.
  pose proof (len_nonneg audio) as HN.
  assert (Hrun : ∃ chunks,
    chunk_loop enhance_fn audio C 0 (len audio) atten fuel 0 1 [] = Ok chunks
    ∧ Py.sum (map len chunks) = len audio).
  { destruct (Z.eq_dec (len audio) 0) as [H0|Hpos].
    - destruct fuel as [|fuel]; [lia|]. exists []. cbn [chunk_loop].
      rewrite H0. split; reflexivity.
    - destruct (chunk_windows_plan C 0 (len audio) ltac:(lia) HC
                  (Z.to_nat (len audio)) 0) as (ws & Hws0 & Hplan); [lia..|].
      pose proof (chunk_windows_fuel_mono C 0 (len audio) _ fuel 0 ws Hws0
                    ltac:(lia)) as Hws.
      destruct (chunk_loop_chunks enhance_fn audio C 0 atten HC HC Hshape
                  fuel 0 1 [] ws ltac:(lia) Hws) as (chunks & Hrun & Hlens).
      exists chunks. split; [exact Hrun|]. rewrite Hlens.
      destruct (is_plan_shape C 0 (len audio) ltac:(lia) 0 ws Hplan ltac:(lia))
        as (k & L & Hmap & _ & _ & Hcover & _).
      rewrite Hmap, sum_replicate_app. lia. }
  destruct Hrun as (chunks & Hrun & Hsum).
  exists chunks, (concat chunks).
  split; [exact Hrun|]. split; [by apply merge_chunks_no_overlap|].
  split; [by rewrite len_concat|].
  intros Hid.
  destruct (chunk_loop_identity enhance_fn audio C atten HC fuel 0 1 [] Hid)
    as (chunks' & Hrun' & Hcat); [lia..|].
  rewrite Hrun in Hrun'. injection Hrun' as ->. exact Hcat.
Qed.

(** X2, witness: ten samples in chunks of four, returned unchanged. *)
Lemma zero_overlap_round_trip_witness :
  let audio := [1; 2; 3; 4; 5; 6; 7; 8; 9; 10]%Q in
  ∃ chunks,
    chunk_loop (fun x _ => Ok x) audio 4 0 10 None 11 0 1 [] = Ok chunks
    ∧ _merge_chunks chunks 0 = Ok audio.
Proof.
  intros audio.
  destruct (zero_overlap_round_trip (fun x _ => Ok x) audio 4 None 11 eq_refl
              (le_n 11) (fun x a => ex_intro _ x (conj eq_refl eq_refl)))
    as (chunks & out & Hrun & Hmerge & _ & Hid).
  exists chunks. split; [exact Hrun|].
  rewrite <- (Hid (fun x a => eq_refl)). exact Hmerge.
Defined.

(** ** Samples stay in range *)


Section RangeProperties.

Lemma fade_weight_unit (s j : nat) :
  (j < s)%nat → (0 <= fade_weight s j)%Q ∧ (fade_weight s j <= 1)%Q.
Proof.
  intros Hj. unfold fade_weight, Qle. cbn [Qnum Qden].
  destruct (Nat.eq_dec s 1%nat) as [->|Hs].
  - assert (j = 0%nat) as -> by lia. cbn. lia.
  - rewrite !Z.mul_1_r, Z.mul_1_l.
    assert (Z.pos (Pos.of_nat (s - 1)) = Z.of_nat (s - 1)) as ->.
    { rewrite <- positive_nat_Z, Nat2Pos.id by lia. reflexivity. }
    lia.
Qed.

Lemma blend_in_range (a b w : Q) :
  in_range a → in_range b → (0 <= w)%Q → (w <= 1)%Q →
  in_range (a * (1 - w) + b * w)%Q.
Proof. unfold in_range. intros [? ?] [? ?] ? ?. split; nra. Qed.

Lemma crossfade_in_range (s : nat) (previous current : list Q) :
  Forall in_range previous → Forall in_range current →
  Forall in_range (crossfade s previous current).
Proof.
  intros Hp Hc. apply Forall_lookup. intros j x Hx.
  unfold crossfade in Hx. change (map ?f ?l) with (f <$> l) in Hx.
  apply lookup_zip_with_Some in Hx as (u & v & -> & Hu & Hv).
  apply lookup_zip_with_Some in Hu as (a & w1 & -> & Ha & Hw1).
  apply lookup_zip_with_Some in Hv as (b & w & -> & Hb & Hw).
  rewrite list_lookup_fmap in Hw1.
  assert (Hj : (j < s)%nat).
  { apply lookup_lt_Some in Hw. by rewrite length_linspace01, Nat2Z.id in Hw. }
  rewrite lookup_linspace01 in Hw, Hw1 by exact Hj.
  injection Hw as <-. injection Hw1 as <-.
  destruct (fade_weight_unit s j Hj).
  apply blend_in_range; try assumption.
  - by eapply Forall_lookup_1 in Hp.
  - by eapply Forall_lookup_1 in Hc.
Qed.

Lemma append_chunk_in_range (s : nat) (written chunk : list Q) :
  Forall in_range written → Forall in_range chunk →
  Forall in_range (append_chunk s written chunk).
Proof.
  intros Hw Hc. unfold append_chunk.
  apply Forall_app. split; [by apply Forall_take|].
  apply Forall_app. split; [|by apply Forall_drop].
  apply crossfade_in_range; [by apply Forall_drop | by apply Forall_take].
Qed.

Lemma overlap_add_in_range (s : nat) (rest : list (list Q)) (written : list Q) :
  Forall in_range written → Forall (Forall in_range) rest →
  Forall in_range (overlap_add s written rest).
Proof.
  unfold overlap_add. revert written.
  induction rest as [|c rest IH]; intros written Hw Hall; [exact Hw|].
  apply Forall_cons in Hall as [Hc Hall]. cbn [foldl].
  apply IH; [by apply append_chunk_in_range | exact Hall].
Qed.

End RangeProperties.

(** X3: whatever the overlap, when every sample of every chunk lies within
    [-1, 1], so does every sample of the merged buffer: the crossfade is a
    weighted mean with weights between 0 and 1 and cannot overshoot. *)
Theorem merge_chunks_in_range (chunks : list (list Q)) (O : Z) :
  Forall (Forall in_range) chunks →
  ∃ out, _merge_chunks chunks O = Ok out ∧ Forall in_range out.
Proof.
  intros Hall.
  destruct (Z.le_gt_cases O 0) as [HO|HO].
  - exists (concat chunks). split; [by apply merge_chunks_no_overlap|].
    induction Hall as [|c cs Hc _ IH]; cbn [concat]; [constructor|].
    apply Forall_app. by split.
  - destruct chunks as [|c0 rest]; [exists []; split; [reflexivity|constructor]|].
    destruct (merge_chunks_overlap_add c0 rest O ltac:(lia)) as (_ & _ & Hrun).
    eexists. split; [exact Hrun|].
    apply Forall_cons in Hall as [H0 Hrest].
    by apply overlap_add_in_range.
Qed.

(** X3, witness: two chunks at the limits of the range, blended over two
    samples. *)
Lemma merge_chunks_in_range_witness :
  ∃ out,
    _merge_chunks [[1; 1; 1; 1]; [-1; -1; -1; -1]]%Q 2 = Ok out
    ∧ Forall in_range out.
Proof.
  apply merge_chunks_in_range.
  repeat constructor; discriminate.
Defined.

(** ** What the model is given *)
Section Normalization.

Variable enhance_fn : list Q → option Q → result (list Q).
Variable pow10 : Q → result Q.

Lemma in_range_abs (x : Q) : in_range x ↔ (Qabs x <= 1)%Q.
Proof. unfold in_range. rewrite Qabs_Qle_condition. reflexivity. Qed.

Lemma maximum_bounds (a b : Q) :
  (a <= Np.maximum a b)%Q ∧ (b <= Np.maximum a b)%Q.
Proof.
  unfold Np.maximum. destruct (Qle_bool a b) eqn:E.
  - apply Qle_bool_iff in E. split; [exact E | apply Qle_refl].
  - split; [apply Qle_refl|].
    apply Qnot_lt_le. intros Hlt. apply Qlt_le_weak, Qle_bool_iff in Hlt.
    congruence.
Qed.

(** [np.abs(audio).max()] bounds every sample. *)
Lemma abs_max_bounds (x : Q) (xs : list Q) :
  let peak := foldr (fun y m => Np.maximum m (Qabs y)) (Qabs x) xs in
  Forall (fun y => (Qabs y <= peak)%Q) (x :: xs).
Proof.
  induction xs as [|y ys IH]; cbn [foldr].
  - constructor; [apply Qle_refl | constructor].
  - set (m := foldr (fun y m => Np.maximum m (Qabs y)) (Qabs x) ys) in *.
    destruct (maximum_bounds m (Qabs y)) as [Hm Hy].
    cbv zeta in IH. apply Forall_cons in IH as [Hx Hys].
    constructor; [eapply Qle_trans; eassumption|].
    constructor; [exact Hy|].
    eapply Forall_impl; [exact Hys|]. intros z Hz. cbv beta in *.
    eapply Qle_trans; eassumption.
Qed.

Lemma scaled_in_range (peak y : Q) :
  (1 < peak)%Q → (Qabs y <= peak)%Q → in_range (y / peak)%Q.
Proof.
  intros Hp Hy. apply in_range_abs.
  assert (Hpos : (0 < peak)%Q) by (eapply Qlt_trans; [|exact Hp]; reflexivity).
  unfold Qdiv. rewrite Qabs_Qmult.
  rewrite (Qabs_pos (/ peak)) by (apply Qlt_le_weak, Qinv_lt_0_compat, Hpos).
  apply Qle_shift_div_r; [exact Hpos|]. by rewrite Qmult_1_l.
Qed.

(** [np.abs(audio).max()] is the absolute value of one of the samples. *)
Lemma abs_max_attained (x : Q) (xs : list Q) :
  let peak := foldr (fun y m => Np.maximum m (Qabs y)) (Qabs x) xs in
  ∃ y, y ∈ x :: xs ∧ peak = Qabs y.
Proof.
  induction xs as [|z zs IH]; cbn [foldr].
  - exists x. split; [apply list_elem_of_here | reflexivity].
  - cbv zeta in IH. destruct IH as (y & Hy & Hpeak).
    unfold Np.maximum. destruct (Qle_bool _ _).
    + exists z. split; [|reflexivity].
      apply list_elem_of_further, list_elem_of_here.
    + exists y. split; [|exact Hpeak].
      apply elem_of_cons in Hy as [->|Hy];
        [apply list_elem_of_here | by do 2 apply list_elem_of_further].
Qed.

(** X4: on a nonempty input that is not chunked (chunking is disabled, or
    the input is no longer than one chunk), the [try] block of
    [enhance_audio] makes exactly one model call, on a buffer of the same
    length whose samples all lie within [-1, 1]. With [peak] the largest
    absolute value of a sample (it is the absolute value of one of the
    samples, and no sample exceeds it), that buffer is the input itself
    when [peak ≤ 1], and the input divided by [peak] when [peak > 1]; the
    gain stage is applied to what the model returns. *)
Theorem enhance_try_normalizes (self : processor) (fuel : nat) (audio : list Q)
    (atten' gain' : option Q) :
  audio ≠ [] →
  match max_chunk_samples self with
  | Some C => C = 0 ∨ len audio ≤ C
  | None => True
  end →
  ∃ peak audio',
    (∃ y, y ∈ audio ∧ peak = Qabs y)
    ∧ Forall (fun y => (Qabs y <= peak)%Q) audio
    ∧ ((peak <= 1)%Q → audio' = audio)
    ∧ ((1 < peak)%Q → audio' = map (fun y => y / peak)%Q audio)
    ∧ length audio' = length audio
    ∧ Forall in_range audio'
    ∧ (Forall in_range audio → audio' = audio)
    ∧ enhance_try enhance_fn pow10 self fuel audio atten' gain' =
      let atten_lim :=
        match atten' with Some a => Some a | None => attenuation_limit_db self end in
      let gain_db :=
        match gain' with Some g => g | None => output_gain_db self end in
      let* enhanced := enhance_fn audio' atten_lim in
      gain_stage pow10 gain_db enhanced.
Proof.
  intros Hne Hshort. destruct audio as [|x xs]; [contradiction|].
  pose proof (abs_max_bounds x xs) as Hpeak. cbv zeta in Hpeak.
  pose proof (abs_max_attained x xs) as Hatt. cbv zeta in Hatt.
  unfold enhance_try. cbn [Np.abs_max bind].
  set (peak := foldr (fun y m => Np.maximum m (Qabs y)) (Qabs x) xs) in *.
  set (audio' := if Qlt_le_dec 1 peak
                 then map (fun y => y / peak)%Q (x :: xs) else x :: xs).
  exists peak, audio'.
  assert (Hlen : length audio' = length (x :: xs)).
  { unfold audio'. destruct (Qlt_le_dec 1 peak); [apply length_map | reflexivity]. }
  split; [exact Hatt|]. split; [exact Hpeak|].
  split; [|split; [|split; [exact Hlen|split; [|split]]]].
  - intros Hle. unfold audio'. destruct (Qlt_le_dec 1 peak) as [Hgt|_];
      [|reflexivity].
    exfalso. apply (Qlt_irrefl 1). eapply Qlt_le_trans; eassumption.
  - intros Hgt. unfold audio'. destruct (Qlt_le_dec 1 peak) as [_|Hle];
      [reflexivity|].
    exfalso. apply (Qlt_irrefl 1). eapply Qlt_le_trans; eassumption.
  - unfold audio'. destruct (Qlt_le_dec 1 peak) as [Hgt|Hle].
    + change (map ?f ?l) with (f <$> l). apply Forall_fmap.
      eapply Forall_impl; [exact Hpeak|]. intros y Hy. by apply scaled_in_range.
    + eapply Forall_impl; [exact Hpeak|]. intros y Hy. cbv beta in *.
      apply in_range_abs. eapply Qle_trans; eassumption.
  - intros Hin. unfold audio'. destruct (Qlt_le_dec 1 peak) as [Hgt|Hle];
      [|reflexivity].
    exfalso. apply (Qlt_irrefl 1). eapply Qlt_le_trans; [exact Hgt|].
    destruct Hatt as (y & Hy & ->).
    rewrite Forall_forall in Hin. exact (proj1 (in_range_abs y) (Hin y Hy)).
  - assert (Hlen' : len audio' = len (x :: xs)) by (unfold len; by rewrite Hlen).
    assert (Hbranch :
      match max_chunk_samples self with
      | Some max_chunk =>
        negb (max_chunk =? 0) && (max_chunk <? len audio') = false
      | None => True
      end).
    { destruct (max_chunk_samples self) as [C|]; [|exact I].
      destruct Hshort as [->|Hle]; [reflexivity|].
      destruct (Z.ltb_spec C (len audio')); [lia|]. apply andb_false_r. }
    destruct (max_chunk_samples self) as [C|]; [rewrite Hbranch|];
      cbv zeta; unfold _run_enhance;
      destruct atten' as [a|]; [| destruct (attenuation_limit_db self) | |
                                  destruct (attenuation_limit_db self)];
      reflexivity.
Qed.

End Normalization.

(** X4, witness: the samples 2, -4 and 1, chunking disabled, a model call
    that returns its input, no gain: the peak is 4. *)
Lemma enhance_try_normalizes_witness :
  let self := __init__ 48000 0 0 None 0 in
  ∃ peak audio',
    (peak == 4)%Q
    ∧ Forall in_range audio'
    ∧ audio' = map (fun y => y / peak)%Q [2; -4; 1]%Q
    ∧ enhance_try (fun x _ => Ok x) (fun _ => Ok 1%Q) self 0 [2; -4; 1]%Q None None
      = Ok audio'.
Proof.
  intros self.
  destruct (enhance_try_normalizes (fun x _ => Ok x) (fun _ => Ok 1%Q) self 0
              [2; -4; 1]%Q None None ltac:(discriminate) I)
    as (peak & audio' & Hatt & Hbound & _ & Hscaled & _ & Hin & _ & Hrun).
  assert (Hpeak : (peak == 4)%Q).
  { apply Qle_antisym.
    - destruct Hatt as (y & Hy & ->).
      repeat (apply elem_of_cons in Hy as [->|Hy]; [vm_compute; discriminate|]).
      by apply elem_of_nil in Hy.
    - apply Forall_cons in Hbound as [_ Hbound].
      apply Forall_cons in Hbound as [H4 _]. exact H4. }
  exists peak, audio'. split; [exact Hpeak|]. split; [exact Hin|].
  assert (Hgt : (1 < peak)%Q) by (rewrite Hpeak; reflexivity).
  specialize (Hscaled Hgt). split; [exact Hscaled|].
  rewrite Hrun. cbv zeta. cbn [bind]. reflexivity.
Defined.

(** ** The [try] block of [enhance_audio] comes to an end *)


Section Termination.

Lemma bind_finishes {A B} (m : result A) (k : A → result B) :
  finishes m → (∀ a, finishes (k a)) → finishes (bind m k).
Proof. unfold finishes. destruct m; cbn; [auto | discriminate | contradiction]. Qed.

Lemma binop_finishes (f : Q → Q → Q) (x y : list Q) : finishes (Np.binop f x y).
Proof.
  unfold finishes, Np.binop. destruct (decide _); [discriminate|].
  destruct x as [|a [|b x]], y as [|c [|d y]]; discriminate.
Qed.

Lemma set_slice_finishes (out : list Q) (a b : option Z) (vals : list Q) :
  finishes (Np.set_slice out a b vals).
Proof.
  unfold finishes, Np.set_slice. cbv zeta. destruct (decide _); [discriminate|].
  destruct vals as [|v [|w vals]]; discriminate.
Qed.

Lemma merge_loop_finishes (s : Z) (chunks : list (list Q)) :
  ∀ idx output write_pos, finishes (merge_loop s idx chunks output write_pos).
Proof.
  induction chunks as [|c rest IH]; intros idx output write_pos; [discriminate|].
  destruct idx as [|idx]; cbn [merge_loop].
  - apply bind_finishes; [apply set_slice_finishes | intros; apply IH].
  - cbv zeta. apply bind_finishes.
    + destruct (0 <? s); [|discriminate].
      repeat (apply bind_finishes; [apply binop_finishes | intros]).
      apply set_slice_finishes.
    + intros. apply bind_finishes; [apply set_slice_finishes | intros; apply IH].
Qed.

Lemma merge_chunks_finishes (chunks : list (list Q)) (O : Z) :
  finishes (_merge_chunks chunks O).
Proof.
  unfold _merge_chunks. destruct chunks as [|c cs]; [discriminate|].
  destruct (_ || _); [discriminate|]. cbv zeta.
  apply bind_finishes; [|intros; apply merge_loop_finishes].
  unfold Np.zeros. destruct (_ <? 0); discriminate.
Qed.

Lemma int_nonneg (q : Q) : (0 <= q)%Q → 0 ≤ int q.
Proof.
  unfold Qle, int. cbn. rewrite Z.mul_1_r. intros H.
  apply Z.quot_pos; lia.
Qed.

(** [__init__] never sets a negative chunk size or overlap when the sample
    rate is not negative. *)
Lemma init_chunk_parameters (sr : Z) (dur ov : Q) (a : option Q) (g : Q) :
  0 ≤ sr →
  let self := __init__ sr dur ov a g in
  0 ≤ chunk_overlap_samples self
  ∧ match max_chunk_samples self with Some C => 0 ≤ C | None => True end.
Proof.
  intros Hsr. cbn.
  assert (Hscale : ∀ d : Q, (0 < d)%Q → 0 ≤ int (d * inject_Z sr)).
  { intros d Hd. apply int_nonneg. apply Qmult_le_0_compat.
    - by apply Qlt_le_weak.
    - unfold Qle. cbn. lia. }
  split.
  - destruct (Qlt_le_dec 0 ov); [by apply Hscale | reflexivity].
  - destruct (Qlt_le_dec 0 dur); [by apply Hscale | exact I].
Qed.

End Termination.

(** X5: for a processor built by [__init__] with a sample rate that is not
    negative, whatever the chunk duration and overlap it was given, the
    [try] block of [enhance_audio] comes to an end on every input within
    as many loop passes as the input has samples, provided the model call
    and the power function return or raise. *)
Theorem enhance_try_finishes (sr : Z) (dur ov : Q) (a : option Q) (g : Q)
    (enhance_fn : list Q → option Q → result (list Q)) (pow10 : Q → result Q)
    (fuel : nat) (audio : list Q) (atten' gain' : option Q) :
  0 ≤ sr →
  (∀ x a, enhance_fn x a ≠ OutOfFuel) → (∀ x, pow10 x ≠ OutOfFuel) →
  (Z.to_nat (len audio) ≤ fuel)%nat →
  enhance_try enhance_fn pow10 (__init__ sr dur ov a g) fuel audio atten' gain'
  ≠ OutOfFuel.
Proof.
  intros Hsr Hmodel Hpow Hfuel.
  destruct (init_chunk_parameters sr dur ov a g Hsr) as [_ HC].
  set (self := __init__ sr dur ov a g) in *.
  assert (Hgain : ∀ gain_db enhanced, finishes (gain_stage pow10 gain_db enhanced)).
  { intros gain_db enhanced. unfold gain_stage.
    destruct (negb _); [|discriminate].
    apply bind_finishes; [apply Hpow | discriminate]. }
  assert (Hrun : ∀ x l at', finishes (_run_enhance enhance_fn x l at')).
  { intros x l [at'|]; apply Hmodel. }
  destruct audio as [|x xs].
  { unfold enhance_try. cbn. discriminate. }
  destruct (max_chunk_samples self) as [C|] eqn:EC.
  - destruct (Z.eq_dec C 0) as [->|HC0].
    + unfold enhance_try. cbn [Np.abs_max bind]. rewrite EC. cbn [Z.eqb negb andb].
      cbv zeta. apply bind_finishes; [apply Hrun | intros; apply Hgain].
    + destruct (Z.lt_ge_cases C (len (x :: xs))) as [Hlong|Hshort].
      * destruct (enhance_try_chunked enhance_fn pow10 self fuel (x :: xs)
                    atten' gain' C ltac:(discriminate) EC HC0 Hlong)
          as (audio' & Hlen & ->).
        cbv zeta.
        assert (Hlen' : len audio' = len (x :: xs)) by (unfold len; by rewrite Hlen).
        assert (Hdiv : 0 ≤ C `div` 4 ∧ C `div` 4 < C).
        { split; [apply Z.div_pos; lia | apply Z.div_lt; lia]. }
        apply bind_finishes.
        -- apply chunk_loop_terminates;
             [lia | unfold planned_overlap; lia | exact Hmodel | lia | lia].
        -- intros chunks. apply bind_finishes;
             [apply merge_chunks_finishes | intros; apply Hgain].
      * unfold enhance_try. cbn [Np.abs_max bind]. rewrite EC. cbv zeta.
        match goal with
        | |- context [negb (C =? 0) && (C <? ?n)] =>
          assert (Hn : n = len (x :: xs))
        end.
        { unfold len. f_equal. destruct (Qlt_le_dec 1 _);
            [by rewrite length_map | reflexivity]. }
        rewrite Hn. destruct (Z.ltb_spec C (len (x :: xs))); [lia|].
        rewrite andb_false_r.
        apply bind_finishes; [apply Hrun | intros; apply Hgain].
  - unfold enhance_try. cbn [Np.abs_max bind]. rewrite EC. cbv zeta.
    apply bind_finishes; [apply Hrun | intros; apply Hgain].
Qed.

(** X5, witness: a one-second chunk at 8 Hz, an overlap setting of 20
    seconds, a model call that raises on every chunk. *)
Lemma enhance_try_finishes_witness :
  enhance_try (fun _ _ => Raise (RuntimeError "model failed")) (fun _ => Ok 1%Q)
    (__init__ 8 1 20 None 0) 9 [1; 2; 3; 4; 5; 6; 7; 8; 9]%Q None None
  ≠ OutOfFuel.
Proof.
  apply enhance_try_finishes; [discriminate | discriminate | discriminate|].
  apply le_n.
Defined.

(** ** Lazy initialization *)
Section InitializeMore.

Variable df_import : result unit.
Variable init_df : nat → result unit.

(** X6: once [initialize] has returned normally the object is initialized,
    and calling [initialize] again, with whatever loader, returns at once:
    no loader call, no sleep, the state as it was. *)
Theorem initialize_idempotent (s s' : state) :
  initialize df_import init_df s = (Ok tt, s') →
  _initialized s' = true
  ∧ ∀ (df_import' : result unit) (init_df' : nat → result unit),
      initialize df_import' init_df' s' = (Ok tt, s').
Proof.
  intros Hrun.
  assert (Hinit : _initialized s' = true).
  { unfold initialize in Hrun. destruct (_initialized s) eqn:E.
    - injection Hrun as <-. exact E.
    - unfold try_exceptM, bindM, lift, raise in Hrun.
      destruct df_import as [[]|e|].
      + destruct (init_attempts init_df [0; 1; 2] None s) as [[last_err|e|] s1] eqn:E1.
        * destruct (_initialized s1) eqn:E2; cbn in Hrun.
          -- by injection Hrun as <-.
          -- discriminate.
        * destruct (is_Exception e); discriminate.
        * discriminate.
      + destruct (is_Exception e); discriminate.
      + discriminate. }
  split; [exact Hinit|]. intros df_import' init_df'.
  unfold initialize. by rewrite Hinit.
Qed.

End InitializeMore.

(** X6, witness: a loader that fails once and then succeeds. *)
Lemma initialize_idempotent_witness :
  let init_df := fun k : nat =>
    match k with
    | O => Raise (Exception "OSError" "503 Service Unavailable")
    | S _ => Ok tt
    end in
  let s := {| _initialized := false; init_df_calls := 0; events := []; files := ∅ |} in
  ∃ s',
    initialize (Ok tt) init_df s = (Ok tt, s')
    ∧ events s' = [InitDf; Sleep 1; InitDf]
    ∧ initialize (Ok tt) init_df s' = (Ok tt, s').
Proof.
  intros init_df s. eexists. split; [reflexivity|]. split; [reflexivity|].
  refine (proj2 (initialize_idempotent (Ok tt) init_df s _ eq_refl) _ _).
Defined.

(** ** Loading, saving and the result of [process_file] *)
Section PipelineMore.

Variable df_import : result unit.
Variable init_df : nat → result unit.
Variable enhance_fn : list Q → option Q → result (list Q).
Variable pow10 : Q → result Q.
Variable librosa_load : path → result (ndarray * Z).
Variable librosa_to_mono : list (list Q) → result (list Q).
Variable librosa_resample : list Q → Z → Z → result (list Q).
Variable sf_write : path → list Q → Z → gmap path file → result unit * gmap path file.
Variable pydub_export :
  path → path → string → gmap path file → result unit * gmap path file.
Variable mkdir_parent : path → gmap path file → result unit * gmap path file.
Variable unlink_error : path → option (string * string).

(** The state is left alone, and a value returned carries the target
    rate. *)
Lemma load_audio_cases (self : processor) (file_path : path) (s s' : state)
    (r : result (list Q * Z)) :
  load_audio librosa_load librosa_to_mono librosa_resample self file_path s = (r, s') →
  s' = s
  ∧ match r with
    | Ok loaded => snd loaded = target_sample_rate self
    | Raise e =>
      is_Exception e = true →
      ∃ msg, e = RuntimeError ("Failed to load audio file: " +:+ msg)
    | OutOfFuel => True
    end.
Proof.
  unfold load_audio, lift. intros [= <- <-]. split; [reflexivity|].
  unfold try_except.
  destruct (librosa_load file_path) as [[arr sr]|e|]; cbn [bind fst snd].
  2:{ destruct (is_Exception e) eqn:E; [eauto | congruence]. }
  2:{ exact I. }
  assert (Hrest : ∀ audio : list Q,
    match
      (if negb (sr =? target_sample_rate self)
       then let* audio0 := librosa_resample audio sr (target_sample_rate self) in
            Ok (audio0, target_sample_rate self)
       else Ok (audio, sr))
    with
    | Ok loaded => snd loaded = target_sample_rate self
    | Raise e => True
    | OutOfFuel => True
    end).
  { intros audio. destruct (Z.eqb_spec sr (target_sample_rate self)) as [->|_];
      cbn [negb]; [reflexivity|].
    destruct (librosa_resample audio sr (target_sample_rate self)); cbn; done. }
  destruct arr as [a|chs]; cbn [bind].
  - specialize (Hrest a).
    destruct (if negb (sr =? target_sample_rate self) then _ else _) as [l|e|];
      [exact Hrest | | exact I].
    destruct (is_Exception e) eqn:E; [eauto | congruence].
  - destruct (librosa_to_mono chs) as [a|e|]; cbn [bind].
    + specialize (Hrest a).
      destruct (if negb (sr =? target_sample_rate self) then _ else _) as [l|e|];
        [exact Hrest | | exact I].
      destruct (is_Exception e) eqn:E; [eauto | congruence].
    + destruct (is_Exception e) eqn:E; [eauto | congruence].
    + exact I.
Qed.

(** X7: [load_audio] leaves the state alone. Whatever a stage raises (the
    loader, the mix-down to mono, the resampling) comes out of it: an
    [Exception] as a RuntimeError whose message is "Failed to load audio
    file: " followed by the text of that exception, anything else as it
    is. When the stages return, it returns the mono buffer with the target
    rate if the file had that rate, and the resampled buffer with the
    target rate otherwise; so a rate it returns is always the target
    rate. *)
Theorem load_audio_contract (self : processor) (file_path : path) (s : state) :
  let target := target_sample_rate self in
  ∃ r,
    load_audio librosa_load librosa_to_mono librosa_resample self file_path s = (r, s)
    ∧ (∀ e, load_failure librosa_load librosa_to_mono librosa_resample target
              file_path e →
            r = Raise (wrapped "Failed to load audio file: " e))
    ∧ (∀ arr sr mono,
         librosa_load file_path = Ok (arr, sr) →
         mono_of librosa_to_mono arr = Ok mono →
         (sr = target → r = Ok (mono, target))
         ∧ (∀ resampled, sr ≠ target →
              librosa_resample mono sr target = Ok resampled →
              r = Ok (resampled, target)))
    ∧ (∀ loaded, r = Ok loaded → snd loaded = target).
Proof.
  intros target. eexists. split; [reflexivity|].
  split; [|split]; [| |intros loaded Hr;
    refine (proj2 (load_audio_cases self file_path s s (Ok loaded) _));
    exact (f_equal (fun x => (x, s)) Hr)];
    unfold try_except, wrapped, load_failure, mono_of; fold target.
  - intros e [He | [(arr & sr & Hl & Hm) | (arr & sr & mono & Hl & Hm & Hsr & Hr)]].
    + rewrite He. cbn [bind]. by destruct (is_Exception e).
    + rewrite Hl. cbn [bind fst snd]. destruct arr as [a|chs]; [discriminate|].
      rewrite Hm. cbn [bind]. by destruct (is_Exception e).
    + rewrite Hl. cbn [bind fst snd].
      assert (Hmono :
        match arr with Array1 a => Ok a | Array2 chs => librosa_to_mono chs end
        = Ok mono) by exact Hm.
      rewrite Hmono. cbn [bind].
      destruct (Z.eqb_spec sr target) as [?|_]; [contradiction|].
      cbn [negb]. rewrite Hr. cbn [bind]. by destruct (is_Exception e).
  - intros arr sr mono Hl Hm. rewrite Hl. cbn [bind fst snd].
    assert (Hmono :
      match arr with Array1 a => Ok a | Array2 chs => librosa_to_mono chs end
      = Ok mono) by exact Hm.
    rewrite Hmono. cbn [bind]. split.
    + intros ->. rewrite Z.eqb_refl. reflexivity.
    + intros resampled Hsr Hr.
      destruct (Z.eqb_spec sr target) as [?|_]; [contradiction|].
      cbn [negb]. rewrite Hr. reflexivity.
Qed.

(** What a run of [process_file] that ends in a result or an exception
    says about its result. *)
Lemma process_file_cases (self : processor) (fuel : nat)
    (input_path output_path : path) (atten gain : option Q) (s s' : state)
    (r : result process_result) :
  process_file df_import init_df enhance_fn pow10 librosa_load librosa_to_mono
    librosa_resample sf_write pydub_export mkdir_parent unlink_error self fuel
    input_path output_path atten gain s = (r, s') →
  match r with
  | Ok (Success d sr size mb out) =>
    sr = target_sample_rate self
    ∧ mb = (inject_Z size / inject_Z (1024 * 1024))%Q
    ∧ ∃ f, files s' !! out = Some f ∧ st_size f = size
  | Ok (Failure _) => True
  | Raise e => is_Exception e = false
  | OutOfFuel => True
  end.
Proof.
  destruct r as [[d sr size mb out|err]|e|]; [|done| |done].
  - intros Hrun.
    apply (process_file_success df_import init_df enhance_fn pow10 librosa_load
             librosa_to_mono librosa_resample sf_write pydub_export mkdir_parent
             unlink_error) in Hrun
      as (audio & enhanced & s1 & Hload & _ & _ & _ & _ & Hmb & Hf).
    apply load_audio_cases in Hload as [_ Hsr]. cbn in Hsr. auto.
  - unfold process_file, try_exceptM, ret.
    destruct (bindM _ _ s) as [[x|e0|] s0]; [discriminate| |discriminate].
    destruct (is_Exception e0) eqn:E; [discriminate|]. intros [= <- _]. exact E.
Qed.

(** X8: [process_file] never raises an [Exception]: an [Exception] out of
    loading, out of enhancing or out of saving comes back as a failure
    result that carries its text, with the state that stage left. When
    the three stages return, the result is a success that reports the
    rate [load_audio] returned (the target rate), the number of samples
    [load_audio] returned divided by that rate as the duration, the path
    [save_audio] returned, the size of the file found there and that size
    divided by 1024² as the size in MB; if no file is found there, the
    result is a failure. *)
Theorem process_file_result (self : processor) (fuel : nat)
    (input_path output_path : path) (atten gain : option Q) (s : state) :
  let load := load_audio librosa_load librosa_to_mono librosa_resample self input_path in
  let enhance := enhance_audio df_import init_df enhance_fn pow10 self fuel in
  let save := save_audio sf_write pydub_export mkdir_parent unlink_error in
  ∃ r s',
    process_file df_import init_df enhance_fn pow10 librosa_load librosa_to_mono
      librosa_resample sf_write pydub_export mkdir_parent unlink_error self fuel
      input_path output_path atten gain s = (r, s')
    ∧ (∀ e, r = Raise e → is_Exception e = false)
    ∧ (∀ e, load s = (Raise e, s) → is_Exception e = true →
            r = Ok (Failure (str e)) ∧ s' = s)
    ∧ (∀ audio sr, load s = (Ok (audio, sr), s) →
         sr = target_sample_rate self
         ∧ (sr = 0 → r = Ok (Failure "division by zero") ∧ s' = s)
         ∧ (sr ≠ 0 →
            (∀ e s1, enhance audio sr atten gain s = (Raise e, s1) →
                     is_Exception e = true →
                     r = Ok (Failure (str e)) ∧ s' = s1)
            ∧ (∀ enhanced s1, enhance audio sr atten gain s = (Ok enhanced, s1) →
                 (∀ e s2, save enhanced output_path sr s1 = (Raise e, s2) →
                          is_Exception e = true →
                          r = Ok (Failure (str e)) ∧ s' = s2)
                 ∧ (∀ out s2, save enhanced output_path sr s1 = (Ok out, s2) →
                      s' = s2
                      ∧ match files s2 !! out with
                        | Some f =>
                          r = Ok (Success (inject_Z (len audio) / inject_Z sr)%Q sr
                                    (st_size f)
                                    (inject_Z (st_size f) / inject_Z (1024 * 1024))%Q
                                    out)
                        | None => r = Ok (Failure "No such file or directory")
                        end)))).
Proof.
  intros load enhance save.
  destruct (process_file df_import init_df enhance_fn pow10 librosa_load
              librosa_to_mono librosa_resample sf_write pydub_export mkdir_parent
              unlink_error self fuel input_path output_path atten gain s)
    as [r s'] eqn:Hrun.
  exists r, s'. split; [reflexivity|].
  split.
  { intros e ->. exact (process_file_cases _ _ _ _ _ _ _ _ _ Hrun). }
  revert Hrun. unfold process_file, try_exceptM, bindM, ret, lift. cbv beta.
  fold load enhance save.
  split.
  { intros e Hl He. rewrite Hl, He in Hrun. by injection Hrun as <- <-. }
  intros audio sr Hl. rewrite Hl in Hrun. cbn [fst snd] in Hrun.
  split.
  { apply load_audio_cases in Hl as [_ Hsr]. exact Hsr. }
  split.
  { intros ->. cbn in Hrun. by injection Hrun as <- <-. }
  intros Hnz. destruct (Z.eqb_spec sr 0) as [?|_]; [contradiction|].
  split.
  { intros e s1 He Hex. rewrite He, Hex in Hrun. by injection Hrun as <- <-. }
  intros enhanced s1 He. rewrite He in Hrun.
  split.
  { intros e s2 Hs Hex. rewrite Hs, Hex in Hrun. by injection Hrun as <- <-. }
  intros out s2 Hs. rewrite Hs in Hrun. unfold stat in Hrun.
  destruct (files s2 !! out) as [f|]; cbn in Hrun; by injection Hrun as <- <-.
Qed.

(** X9: when the requested path ends in [.wav], in any letter case, or has
    no extension at all, [save_audio] does not consult the converter; when
    it returns, it returns the requested path itself for a [.wav] request
    and the path with [.wav] appended for a request without extension, and
    the files are what the WAV writer left of the files the directory call
    left. *)
Theorem save_audio_wav_request (pydub_export' :
      path → path → string → gmap path file → result unit * gmap path file)
    (audio : list Q) (output_path : path) (sample_rate : Z) (s : state) :
  let target_ext := lower (suffix output_path) in
  target_ext = ".wav" ∨ target_ext = "" →
  save_audio sf_write pydub_export mkdir_parent unlink_error audio output_path
    sample_rate s
  = save_audio sf_write pydub_export' mkdir_parent unlink_error audio output_path
      sample_rate s
  ∧ ∀ p s', save_audio sf_write pydub_export mkdir_parent unlink_error audio
              output_path sample_rate s = (Ok p, s') →
      p = (if String.eqb target_ext ".wav" then output_path
           else with_suffix output_path ".wav")
      ∧ files s'
        = snd (sf_write p audio sample_rate
                 (snd (mkdir_parent output_path (files s)))).
Proof.
  intros target_ext Hext.
  assert (Hcond : negb (String.eqb target_ext "") && negb (String.eqb target_ext ".wav")
                  = false).
  { destruct Hext as [-> | ->]; reflexivity. }
  split.
  { unfold save_audio. fold target_ext. rewrite Hcond. reflexivity. }
  intros p s' Hrun.
  apply save_audio_returns in Hrun as (fs0 & fs1 & Hmk & Hw & Hcases).
  fold target_ext in Hw, Hcases.
  destruct Hcases as [(_ & -> & ->) | (He & Hw' & _)].
  - split; [reflexivity|]. cbn [files set_files]. rewrite Hmk. cbn [snd].
    by rewrite Hw.
  - destruct Hext; contradiction.
Qed.

(** X10: when another container than WAV is requested, the directory call
    and the WAV writer return, and the converter returns having left a
    nonempty file at the requested path, what [save_audio] returns depends
    on the unlink of the intermediate WAV alone. If the system allows it,
    [save_audio] returns the requested path, the requested file is there
    and the WAV is not. If the system refuses it, the error is swallowed
    and [save_audio] returns the path of the WAV, with the files as the
    converter left them. *)
Theorem save_audio_converted (audio : list Q) (output_path : path)
    (sample_rate : Z) (s : state) (fs0 fs1 fs2 : gmap path file) (f : file) :
  let target_ext := lower (suffix output_path) in
  let wav_path := with_suffix output_path ".wav" in
  target_ext ≠ ".wav" → target_ext ≠ "" →
  mkdir_parent output_path (files s) = (Ok tt, fs0) →
  sf_write wav_path audio sample_rate fs0 = (Ok tt, fs1) →
  pydub_export wav_path output_path (lstrip_dots target_ext) fs1 = (Ok tt, fs2) →
  fs2 !! output_path = Some f → 0 < st_size f →
  ∃ s',
    match unlink_error wav_path with
    | None =>
      save_audio sf_write pydub_export mkdir_parent unlink_error audio output_path
        sample_rate s = (Ok output_path, s')
      ∧ files s' = delete wav_path fs2
      ∧ files s' !! output_path = Some f
      ∧ files s' !! wav_path = None
    | Some _ =>
      save_audio sf_write pydub_export mkdir_parent unlink_error audio output_path
        sample_rate s = (Ok wav_path, s')
      ∧ files s' = fs2
    end.
Proof.
  intros target_ext wav_path Hwav Hnone Hmk Hw Hx Hf Hsize.
  assert (Ew : String.eqb target_ext ".wav" = false) by (by apply String.eqb_neq).
  assert (En : String.eqb target_ext "" = false) by (by apply String.eqb_neq).
  assert (Hname : has_empty_name output_path = false).
  { unfold has_empty_name. destruct (String.eqb_spec (suffix output_path) "") as [E|_];
      [|reflexivity].
    exfalso. apply Hnone. unfold target_ext. by rewrite E. }
  unfold save_audio. fold target_ext. rewrite Ew, En, Hname. fold wav_path.
  cbn [negb andb]. unfold try_exceptM, bindM, ret, raise. cbv beta.
  rewrite Hmk. cbn [files set_files]. rewrite Hw. cbn [files set_files].
  rewrite Hx. cbn [files set_files].
  unfold exists_, stat, unlink_missing_ok. rewrite Hf. cbn [bind].
  destruct (Z.ltb_spec 0 (st_size f)); [|lia].
  destruct (unlink_error wav_path) as [err|]; cbn [is_Exception files set_files].
  - eexists. split; reflexivity.
  - eexists. split; [reflexivity|]. cbn [files set_files].
    split; [reflexivity|]. split.
    + rewrite lookup_delete_ne; [exact Hf|].
      by apply with_suffix_wav_differs.
    + apply lookup_delete_eq.
Qed.

End PipelineMore.

(** X7, witness: a stereo file at 16 kHz, loaded by a processor at 48 kHz,
    and a file the loader cannot read. *)
Lemma load_audio_contract_witness :
  let self := __init__ 48000 30 (1 # 20) None 0 in
  let s := {| _initialized := false; init_df_calls := 0; events := []; files := ∅ |} in
  load_audio (fun _ => Ok (Array2 [[1; 0]; [0; 1]]%Q, 16000))
    (fun _ => Ok [1 # 2; 1 # 2]%Q)
    (fun a _ _ => Ok (a ++ a ++ a)) self (Path "uploads/a" ".wav") s
  = (Ok ([1 # 2; 1 # 2; 1 # 2; 1 # 2; 1 # 2; 1 # 2]%Q, 48000), s)
  ∧ load_audio (fun _ => Raise (Exception "NoBackendError" "no backend"))
      (fun _ => Ok []) (fun a _ _ => Ok a) self (Path "uploads/a" ".xyz") s
    = (Raise (RuntimeError "Failed to load audio file: no backend"), s).
Proof.
  intros self s. split.
  - destruct (load_audio_contract (fun _ => Ok (Array2 [[1; 0]; [0; 1]]%Q, 16000))
                (fun _ => Ok [1 # 2; 1 # 2]%Q) (fun a _ _ => Ok (a ++ a ++ a)) self
                (Path "uploads/a" ".wav") s) as (r & -> & _ & Hok & _).
    destruct (Hok _ _ _ eq_refl eq_refl) as [_ Hres].
    by rewrite (Hres _ ltac:(discriminate) eq_refl).
  - destruct (load_audio_contract
                (fun _ => Raise (Exception "NoBackendError" "no backend"))
                (fun _ => Ok []) (fun a _ _ => Ok a) self
                (Path "uploads/a" ".xyz") s) as (r & -> & Hfail & _).
    by rewrite (Hfail _ (or_introl eq_refl)).
Defined.

(** X8, witness: a run that succeeds on a two-sample file, and a run on a
    file the loader cannot read. *)
Lemma process_file_result_witness :
  let self := __init__ 48000 30 (1 # 20) None 0 in
  let s := {| _initialized := false; init_df_calls := 0; events := []; files := ∅ |} in
  let sf_write := fun (p : path) (a : list Q) (_ : Z) (fs : gmap path file) =>
    (Ok tt, <[p := File Regular 0 (44 + 2 * len a)]> fs) in
  let mkdir_parent := fun (_ : path) (fs : gmap path file) => (Ok tt, fs) in
  fst (process_file (Ok tt) (fun _ => Ok tt) (fun x _ => Ok x) (fun _ => Ok 1%Q)
         (fun _ => Ok (Array1 [1 # 2; 1 # 4]%Q, 48000)) (fun _ => Ok [])
         (fun a _ _ => Ok a) sf_write (fun _ _ _ fs => (Ok tt, fs)) mkdir_parent
         (fun _ => None) self 0
         (Path "uploads/a" ".wav") (Path "processed/a" ".wav") None None s)
  = Ok (Success (2 / 48000) 48000 48 (48 / inject_Z (1024 * 1024))
          (Path "processed/a" ".wav"))
  ∧ fst (process_file (Ok tt) (fun _ => Ok tt) (fun x _ => Ok x) (fun _ => Ok 1%Q)
           (fun _ => Raise (Exception "NoBackendError" "no backend")) (fun _ => Ok [])
           (fun a _ _ => Ok a) sf_write (fun _ _ _ fs => (Ok tt, fs)) mkdir_parent
           (fun _ => None) self 0
           (Path "uploads/a" ".xyz") (Path "processed/a" ".wav") None None s)
    = Ok (Failure "Failed to load audio file: no backend").
Proof.
  intros self s sf_write mkdir_parent. split.
  - destruct (process_file_result (Ok tt) (fun _ => Ok tt) (fun x _ => Ok x)
                (fun _ => Ok 1%Q) (fun _ => Ok (Array1 [1 # 2; 1 # 4]%Q, 48000))
                (fun _ => Ok []) (fun a _ _ => Ok a) sf_write
                (fun _ _ _ fs => (Ok tt, fs)) mkdir_parent (fun _ => None) self 0
                (Path "uploads/a" ".wav") (Path "processed/a" ".wav") None None s)
      as (r & s' & -> & _ & _ & Hok).
    cbn [fst].
    destruct (Hok [1 # 2; 1 # 4]%Q 48000 eq_refl) as (_ & _ & Hrun).
    destruct (Hrun ltac:(discriminate)) as [_ Hsave].
    destruct (Hsave [1 # 2; 1 # 4]%Q _ ltac:(vm_compute; reflexivity)) as [_ Hres].
    destruct (Hres (Path "processed/a" ".wav") _ ltac:(vm_compute; reflexivity))
      as [_ Hfile].
    vm_compute in Hfile. exact Hfile.
  - destruct (process_file_result (Ok tt) (fun _ => Ok tt) (fun x _ => Ok x)
                (fun _ => Ok 1%Q)
                (fun _ => Raise (Exception "NoBackendError" "no backend"))
                (fun _ => Ok []) (fun a _ _ => Ok a) sf_write
                (fun _ _ _ fs => (Ok tt, fs)) mkdir_parent (fun _ => None) self 0
                (Path "uploads/a" ".xyz") (Path "processed/a" ".wav") None None s)
      as (r & s' & -> & _ & Hfail & _).
    cbn [fst]. exact (proj1 (Hfail _ eq_refl eq_refl)).
Defined.

(** X9, witness: a request for [OUT.WAV] gives the same run with a
    converter that does nothing as with one that wipes the file system. *)
Lemma save_audio_wav_request_witness :
  let s := {| _initialized := true; init_df_calls := 1; events := [InitDf]; files := ∅ |} in
  let sf_write := fun (p : path) (a : list Q) (_ : Z) (fs : gmap path file) =>
    (Ok tt, <[p := File Regular 0 (44 + 2 * len a)]> fs) in
  let mkdir_parent := fun (_ : path) (fs : gmap path file) => (Ok tt, fs) in
  save_audio sf_write (fun _ _ _ fs => (Ok tt, fs)) mkdir_parent (fun _ => None)
    [1 # 2]%Q (Path "processed/OUT" ".WAV") 48000 s
  = save_audio sf_write (fun _ _ _ fs => (Ok tt, ∅)) mkdir_parent (fun _ => None)
      [1 # 2]%Q (Path "processed/OUT" ".WAV") 48000 s.
Proof.
  intros s sf_write mkdir_parent.
  exact (proj1 (save_audio_wav_request sf_write (fun _ _ _ fs => (Ok tt, fs))
                  mkdir_parent (fun _ => None)
                  (fun _ _ _ fs => (Ok tt, ∅)) [1 # 2]%Q (Path "processed/OUT" ".WAV")
                  48000 s (or_introl eq_refl))).
Defined.

(** X10, witness: an MP3 request with a converter that writes 17 bytes and
    a system that allows the unlink. *)
Lemma save_audio_converted_witness :
  let s := {| _initialized := true; init_df_calls := 1; events := [InitDf]; files := ∅ |} in
  let sf_write := fun (p : path) (a : list Q) (_ : Z) (fs : gmap path file) =>
    (Ok tt, <[p := File Regular 0 (44 + 2 * len a)]> fs) in
  let pydub_export := fun (_ dst : path) (_ : string) (fs : gmap path file) =>
    (Ok tt, <[dst := File Regular 0 17]> fs) in
  let mkdir_parent := fun (_ : path) (fs : gmap path file) => (Ok tt, fs) in
  ∃ s',
    save_audio sf_write pydub_export mkdir_parent (fun _ => None) [1 # 2]%Q
      (Path "processed/a" ".mp3") 48000 s
    = (Ok (Path "processed/a" ".mp3"), s')
    ∧ files s' !! Path "processed/a" ".mp3" = Some (File Regular 0 17)
    ∧ files s' !! Path "processed/a" ".wav" = None.
Proof.
  intros s sf_write pydub_export mkdir_parent.
  destruct (save_audio_converted sf_write pydub_export mkdir_parent (fun _ => None)
              [1 # 2]%Q (Path "processed/a" ".mp3") 48000 s ∅
              (<[Path "processed/a" ".wav" := File Regular 0 46]> ∅)
              (<[Path "processed/a" ".mp3" := File Regular 0 17]>
                 (<[Path "processed/a" ".wav" := File Regular 0 46]> ∅))
              (File Regular 0 17))
    as (s' & Hrun & _ & Hmp3 & Hwav).
  - discriminate.
  - discriminate.
  - reflexivity.
  - reflexivity.
  - reflexivity.
  - apply lookup_insert_eq.
  - reflexivity.
  - exists s'. repeat split; assumption.
Defined.

(** ** The periodic sweep *)


Section SweepProperties.

Variable time_time : Q.
Variable unlink_error : path → option (string * string).
Variable iterdir : gmap path file → path → list path + exn.

Lemma sweeps_refl (cutoff : Q) (st : gmap path file * Z) :
  sweeps unlink_error cutoff st st.
Proof.
  split; [|split]; [tauto | | lia].
  intros p f H1 H2. congruence.
Qed.

Lemma sweeps_trans (cutoff : Q) (st1 st2 st3 : gmap path file * Z) :
  sweeps unlink_error cutoff st1 st2 → sweeps unlink_error cutoff st2 st3 →
  sweeps unlink_error cutoff st1 st3.
Proof.
  intros (Ha1 & Ha2 & Ha3) (Hb1 & Hb2 & Hb3). split; [|split]; [auto | | lia].
  intros p f H1 H3.
  destruct (fst st2 !! p) as [f2|] eqn:H2.
  - pose proof (Ha1 _ _ H2) as H2'. rewrite H1 in H2'. injection H2' as <-.
    eapply Hb2; eassumption.
  - eapply Ha2; eassumption.
Qed.

Lemma sweep_file_ok (cutoff : Q) (p : path) (st : gmap path file * Z) :
  ∃ st', sweep_file unlink_error cutoff p st = (Ok tt, st')
         ∧ sweeps unlink_error cutoff st st'.
Proof.
  destruct st as [fs n].
  unfold sweep_file, is_file, stat, bindM, try_exceptM, unlink, ret. cbn [fst snd].
  destruct (fs !! p) as [f|] eqn:Hf; cbn [negb bind].
  2:{ eexists; split; [reflexivity | apply sweeps_refl]. }
  destruct (is_regular f) eqn:Hreg; cbn [negb].
  2:{ eexists; split; [reflexivity | apply sweeps_refl]. }
  destruct (Qlt_le_dec (st_mtime f) cutoff) as [Hold|Hyoung].
  2:{ eexists; split; [reflexivity | apply sweeps_refl]. }
  cbn [fst snd]. rewrite Hf.
  destruct (unlink_error p) as [err|] eqn:He; cbn [is_Exception fst snd].
  { eexists; split; [reflexivity | apply sweeps_refl]. }
  eexists; split; [reflexivity|].
  split; [|split]; cbn [fst snd].
  - intros q g Hq. apply lookup_delete_Some in Hq. tauto.
  - intros q g Hq Hq'. destruct (decide (q = p)) as [->|Hne].
    + rewrite Hf in Hq. injection Hq as <-. auto.
    + rewrite lookup_delete_ne in Hq' by congruence. congruence.
  - pose proof (map_size_delete_Some p fs (mk_is_Some _ _ Hf)) as Hs.
    assert (size fs ≠ 0%nat) as Hne.
    { intros H0. apply map_size_empty_inv in H0. subst fs.
      rewrite lookup_empty in Hf. discriminate. }
    rewrite Hs. destruct (size fs) as [|k]; [done|]. cbn [Init.Nat.pred]. lia.
Qed.

Lemma sweep_files_ok (cutoff : Q) (ps : list path) (st : gmap path file * Z) :
  ∃ st', sweep_files unlink_error cutoff ps st = (Ok tt, st')
         ∧ sweeps unlink_error cutoff st st'.
Proof.
  revert st. induction ps as [|p ps IH]; intros st; cbn [sweep_files].
  - eexists; split; [reflexivity | apply sweeps_refl].
  - unfold bindM.
    destruct (sweep_file_ok cutoff p st) as (st1 & -> & H1).
    destruct (IH st1) as (st2 & -> & H2).
    eexists; split; [reflexivity | eapply sweeps_trans; eassumption].
Qed.

Lemma sweep_directory_cases (cutoff : Q) (d : path) (st : gmap path file * Z) :
  ∃ r st', sweep_directory unlink_error iterdir cutoff d st = (r, st')
           ∧ not_Exception r
           ∧ sweeps unlink_error cutoff st st'.
Proof.
  unfold sweep_directory, try_exceptM, bindM, ret.
  destruct (exists_ (fst st) d); cbn [negb].
  2:{ eexists _, _; split; [reflexivity|]. split; [exact I | apply sweeps_refl]. }
  destruct (iterdir (fst st) d) as [ps|e].
  - destruct (sweep_files_ok cutoff ps st) as (st' & -> & H).
    eexists _, _; split; [reflexivity|]. split; [exact I | exact H].
  - destruct (is_Exception e) eqn:He.
    + eexists _, _; split; [reflexivity|]. split; [exact I | apply sweeps_refl].
    + eexists _, _; split; [reflexivity|]. split; [exact He | apply sweeps_refl].
Qed.

Lemma sweep_directories_cases (cutoff : Q) (ds : list path)
    (st : gmap path file * Z) :
  ∃ r st', sweep_directories unlink_error iterdir cutoff ds st = (r, st')
           ∧ not_Exception r
           ∧ sweeps unlink_error cutoff st st'.
Proof.
  revert st. induction ds as [|d ds IH]; intros st; cbn [sweep_directories].
  - eexists _, _; split; [reflexivity|]. split; [exact I | apply sweeps_refl].
  - unfold bindM.
    destruct (sweep_directory_cases cutoff d st) as (r1 & st1 & -> & Hr1 & H1).
    destruct r1 as [[]|e|]; [| |destruct Hr1].
    + destruct (IH st1) as (r2 & st2 & -> & Hr2 & H2).
      eexists _, _; split; [reflexivity|].
      split; [exact Hr2 | eapply sweeps_trans; eassumption].
    + eexists _, _; split; [reflexivity|]. split; [exact Hr1 | exact H1].
Qed.




Section Removal.

Variable cutoff : Q.
Variable p : path.
Variable f : file.
Hypothesis Hreg : is_regular f = true.
Hypothesis Hold : (st_mtime f < cutoff)%Q.
Hypothesis Hunlink : unlink_error p = None.





Variable fs : gmap path file.
Variable d : path.
Variable g : file.
Hypothesis Hg : is_regular g = false.
Hypothesis Hlist :
  ∀ fs0, fs0 ⊆ fs → fs0 !! d = Some g → fs0 !! p = Some f →
         ∃ ps, iterdir fs0 d = inl ps ∧ p ∈ ps.



End Removal.

End SweepProperties.

(** X11: whatever [cleanup_old_files] returns or raises, it only removes
    entries: every path it leaves is as it was, and every path it removes
    named a regular file modified before
    [time.time() - retention_seconds] whose unlink was allowed. When it
    returns, the number returned is the number of entries removed. *)
Theorem cleanup_old_files_safe (time_time : Q)
    (unlink_error : path → option (string * string))
    (iterdir : gmap path file → path → list path + exn)
    (self : manager) (fs : gmap path file) :
  ∃ r fs',
    cleanup_old_files time_time unlink_error iterdir self fs = (r, fs')
    ∧ (∀ p f, fs' !! p = Some f → fs !! p = Some f)
    ∧ (∀ p f, fs !! p = Some f → fs' !! p = None →
         is_regular f = true
         ∧ (st_mtime f < time_time - inject_Z (retention_seconds self))%Q
         ∧ unlink_error p = None)
    ∧ (∀ n, r = Ok n → 0 ≤ n ∧ Z.of_nat (size fs) = Z.of_nat (size fs') + n).
Proof.
  unfold cleanup_old_files.
  destruct (sweep_directories_cases unlink_error iterdir
              (time_time - inject_Z (retention_seconds self))%Q
              (directories self) (fs, 0))
    as (r & [fs' n'] & -> & _ & H1 & H2 & H3).
  cbn [fst snd] in *.
  eexists _, _; split; [reflexivity|].
  split; [exact H1|]. split; [exact H2|].
  intros n Hn. destruct r as [[]|e|]; try discriminate.
  cbn in Hn. injection Hn as <-.
  assert (size fs' ≤ size fs)%nat; [|lia].
  apply map_subseteq_size, map_subseteq_spec. exact H1.
Qed.



(** X13: the sweep agrees with the countdown the status endpoint shows: a
    path for which [get_time_until_deletion] reports a positive number of
    seconds is left as it is by a sweep made at the same time. *)
Theorem cleanup_old_files_spares_unexpired (time_time : Q)
    (unlink_error : path → option (string * string))
    (iterdir : gmap path file → path → list path + exn)
    (self : manager) (fs : gmap path file) (p : path) :
  0 < get_time_until_deletion time_time self fs p →
  snd (cleanup_old_files time_time unlink_error iterdir self fs) !! p = fs !! p.
Proof.
  intros Hpos. unfold cleanup_old_files.
  destruct (sweep_directories_cases unlink_error iterdir
              (time_time - inject_Z (retention_seconds self))%Q
              (directories self) (fs, 0))
    as (r & [fs' n'] & -> & _ & H1 & H2 & _).
  cbn [fst snd] in *.
  destruct (fs' !! p) as [f'|] eqn:Hf'.
  { symmetry. apply H1. exact Hf'. }
  destruct (fs !! p) as [f|] eqn:Hf; [|reflexivity].
  exfalso. destruct (H2 p f Hf Hf') as (_ & Hold & _).
  revert Hpos. unfold get_time_until_deletion.
  rewrite file_age_lookup, Hf.
  assert (int (inject_Z (retention_seconds self) - (time_time - st_mtime f)) ≤ 0).
  { apply int_nonpos. lra. }
  lia.
Qed.

(** X13, witness: five minutes into a ten-minute retention. *)
Lemma cleanup_old_files_spares_unexpired_witness :
  let d := Path "uploads" "" in
  let p := Path "uploads/a" ".mp3" in
  let fs : gmap path file :=
    <[p := File Regular 900 4096]> {[ d := File Directory 0 0 ]} in
  snd (cleanup_old_files 1200 (fun _ => None) (fun _ _ => inl [p])
         {| directories := [d]; retention_seconds := 600 |} fs) !! p
  = Some (File Regular 900 4096).
Proof.
  intros d p fs.
  rewrite (cleanup_old_files_spares_unexpired 1200 (fun _ => None)
             (fun _ _ => inl [p]) {| directories := [d]; retention_seconds := 600 |}
             fs p).
  - vm_compute. reflexivity.
  - vm_compute. reflexivity.
Defined.

(** ** A model that cannot be loaded *)


Section InitFailure.

Variable df_import : result unit.
Variable init_df : nat → result unit.
Variable enhance_fn : list Q → option Q → result (list Q).
Variable pow10 : Q → result Q.
Variable librosa_load : path → result (ndarray * Z).
Variable librosa_to_mono : list (list Q) → result (list Q).
Variable librosa_resample : list Q → Z → Z → result (list Q).
Variable sf_write : path → list Q → Z → gmap path file → result unit * gmap path file.
Variable pydub_export :
  path → path → string → gmap path file → result unit * gmap path file.
Variable mkdir_parent : path → gmap path file → result unit * gmap path file.
Variable unlink_error : path → option (string * string).

Lemma init_attempts_failure_error (attempt : Z) (rest : list Z)
    (last_err : option exn) (s : state) :
  retryable (init_df (init_df_calls s)) = true →
  ∃ err,
    str err = attempt_error (init_df (init_df_calls s))
    ∧ init_attempts init_df (attempt :: rest) last_err s =
      init_attempts init_df rest (Some err)
        (log_event (Sleep (2 ^ attempt)) (log_event InitDf (count_init_df s))).
Proof.
  intros Hr. cbn [init_attempts]. unfold call_init_df.
  destruct (init_df (init_df_calls s)) as [u|[cls msg|arg|cls]|];
    try discriminate; unfold bindM, sleep;
    (eexists; split; [|reflexivity]; reflexivity).
Qed.

(** X14: when the model cannot be loaded (three failed attempts, by an
    exception or by [SystemExit]), [process_file] on a readable input does
    not raise: it returns a failure result whose error text names the
    error of the last attempt, after three loader calls, and it writes no
    file. *)
Theorem process_file_init_failure (self : processor) (fuel : nat)
    (input_path output_path : path) (atten gain : option Q) (s : state)
    (loaded : list Q * Z) :
  _initialized s = false → df_import = Ok tt →
  target_sample_rate self ≠ 0 →
  load_audio librosa_load librosa_to_mono librosa_resample self input_path s
  = (Ok loaded, s) →
  let k := init_df_calls s in
  retryable (init_df k) = true → retryable (init_df (S k)) = true →
  retryable (init_df (S (S k))) = true →
  ∃ s',
    process_file df_import init_df enhance_fn pow10 librosa_load librosa_to_mono
      librosa_resample sf_write pydub_export mkdir_parent unlink_error self fuel
      input_path output_path atten gain s
    = (Ok (Failure ("Failed to initialize audio processing model: " +:+
                    ("Failed to initialize DeepFilterNet after retries: " +:+
                     attempt_error (init_df (S (S k)))))), s')
    ∧ files s' = files s
    ∧ init_df_calls s' = (k + 3)%nat
    ∧ _initialized s' = false.
Proof.
  intros Hinit Himp Hrate Hload k F0 F1 F2.
  pose proof (load_audio_cases _ _ _ _ _ _ _ _ Hload) as [_ Hsr]. cbn in Hsr.
  unfold process_file, try_exceptM, bindM, ret, lift. cbv beta.
  rewrite Hload.
  destruct (Z.eqb_spec (snd loaded) 0) as [H0|_]; [congruence|].
  unfold enhance_audio, bindM. rewrite Hinit. cbn [negb].
  rewrite initialize_unfold by assumption.
  destruct (init_attempts_failure_error 0 [1; 2] None s F0) as (e0 & _ & ->).
  set (s1 := log_event (Sleep (2 ^ 0)) (log_event InitDf (count_init_df s))).
  destruct (init_attempts_failure_error 1 [2] (Some e0) s1 F1) as (e1 & _ & ->).
  set (s2 := log_event (Sleep (2 ^ 1)) (log_event InitDf (count_init_df s1))).
  destruct (init_attempts_failure_error 2 [] (Some e1) s2 F2) as (e2 & He2 & ->).
  cbn [init_attempts]. unfold ret.
  set (s3 := log_event (Sleep (2 ^ 2)) (log_event InitDf (count_init_df s2))).
  assert (H3 : _initialized s3 = false) by exact Hinit.
  rewrite H3. cbn [is_Exception RuntimeError str fmt_err].
  change (init_df_calls s2) with (S (S k)) in He2. rewrite He2.
  exists s3. split; [reflexivity|]. split; [reflexivity|].
  split; [|exact H3]. cbn. subst k. lia.
Qed.

End InitFailure.

(** X14, witness: an uninitialized processor whose loader answers 503
    each time. *)
Lemma process_file_init_failure_witness :
  let self := __init__ 48000 30 (1 # 20) None 0 in
  let s := {| _initialized := false; init_df_calls := 0; events := []; files := ∅ |} in
  ∃ s',
    process_file (Ok tt) (fun _ => Raise (Exception "HTTPError" "503"))
      (fun x _ => Ok x) (fun _ => Ok 1%Q)
      (fun _ => Ok (Array1 [1 # 2; 1 # 4]%Q, 48000)) (fun _ => Ok [])
      (fun a _ _ => Ok a)
      (fun p a _ fs => (Ok tt, <[p := File Regular 0 (44 + 2 * len a)]> fs))
      (fun _ _ _ fs => (Ok tt, fs)) (fun _ fs => (Ok tt, fs)) (fun _ => None)
      self 0
      (Path "uploads/a" ".wav") (Path "processed/a" ".wav") None None s
    = (Ok (Failure
        "Failed to initialize audio processing model: Failed to initialize DeepFilterNet after retries: 503"),
       s')
    ∧ files s' = ∅
    ∧ init_df_calls s' = 3%nat
    ∧ _initialized s' = false.
Proof.
  intros self s.
  refine (process_file_init_failure (Ok tt) (fun _ => Raise (Exception "HTTPError" "503"))
    (fun x _ => Ok x) (fun _ => Ok 1%Q)
    (fun _ => Ok (Array1 [1 # 2; 1 # 4]%Q, 48000)) (fun _ => Ok [])
    (fun a _ _ => Ok a)
    (fun p a _ fs => (Ok tt, <[p := File Regular 0 (44 + 2 * len a)]> fs))
    (fun _ _ _ fs => (Ok tt, fs)) (fun _ fs => (Ok tt, fs)) (fun _ => None)
      self 0 (Path "uploads/a" ".wav")
    (Path "processed/a" ".wav") None None s ([1 # 2; 1 # 4]%Q, 48000)
    eq_refl eq_refl _ eq_refl eq_refl eq_refl eq_refl).
  discriminate.
Defined.

(** ** The worker task *)
Section TaskProperties.

Variable df_import : result unit.
Variable init_df : nat → result unit.
Variable enhance_fn : list Q → option Q → result (list Q).
Variable pow10 : Q → result Q.
Variable librosa_load : path → result (ndarray * Z).
Variable librosa_to_mono : list (list Q) → result (list Q).
Variable librosa_resample : list Q → Z → Z → result (list Q).
Variable sf_write : path → list Q → Z → gmap path file → result unit * gmap path file.
Variable pydub_export :
  path → path → string → gmap path file → result unit * gmap path file.
Variable mkdir_parent : path → gmap path file → result unit * gmap path file.
Variable unlink_error : path → option (string * string).
Variable update_state : result unit.

(** X15: what [process_audio_task] does with the result of [process_file],
    once the state update has returned. A failure result never comes back
    as a result: the task raises an exception whose text is the error of
    that result. A success result comes back as a result that says
    "completed", with the task id given, progress 100, and the duration,
    sample rate, size in MB and output path of the success result; the
    sample rate is the processor's target rate and the output path names a
    file present when the task ends, whose size in MB is the size
    reported. An exception out of [process_file], or out of the state
    update, is raised again as it is. So a result the task returns always
    says "completed" and points at an existing file. *)
Theorem process_audio_task_outcome (audio_processor : processor) (fuel : nat)
    (input_path output_path : path) (task_id : string)
    (options : option (gmap string Q)) (s : state) :
  let run :=
    process_file df_import init_df enhance_fn pow10 librosa_load librosa_to_mono
      librosa_resample sf_write pydub_export mkdir_parent unlink_error
      audio_processor fuel input_path output_path
      (default ∅ options !! "attenuation_limit_db")
      (default ∅ options !! "output_gain_db") s in
  let task :=
    CeleryWorker.process_audio_task df_import init_df enhance_fn pow10 librosa_load
      librosa_to_mono librosa_resample sf_write pydub_export mkdir_parent
      unlink_error update_state audio_processor fuel input_path output_path
      task_id options s in
  (∀ e, update_state = Raise e → task = (Raise e, s))
  ∧ (update_state = Ok tt →
     (∀ err, fst run = Ok (Failure err) →
             task = (Raise (Exception "Exception" err), snd run))
     ∧ (∀ d sr size mb out, fst run = Ok (Success d sr size mb out) →
          task = (Ok {| CeleryWorker.status := "completed";
                        CeleryWorker.task_id := task_id;
                        CeleryWorker.output_path := out;
                        CeleryWorker.duration_seconds := d;
                        CeleryWorker.sample_rate := sr;
                        CeleryWorker.output_size_mb := mb;
                        CeleryWorker.progress := 100 |}, snd run)
          ∧ sr = target_sample_rate audio_processor
          ∧ ∃ f, files (snd run) !! out = Some f
                 ∧ mb = (inject_Z (st_size f) / inject_Z (1024 * 1024))%Q)
     ∧ (∀ e, fst run = Raise e → task = (Raise e, snd run)))
  ∧ (∀ res s', task = (Ok res, s') →
       CeleryWorker.status res = "completed"
       ∧ CeleryWorker.task_id res = task_id
       ∧ CeleryWorker.progress res = 100
       ∧ CeleryWorker.sample_rate res = target_sample_rate audio_processor
       ∧ ∃ f, files s' !! CeleryWorker.output_path res = Some f
              ∧ CeleryWorker.output_size_mb res
                = (inject_Z (st_size f) / inject_Z (1024 * 1024))%Q).
Proof.
  intros run task.
  assert (Hsuccess : ∀ d sr size mb out, fst run = Ok (Success d sr size mb out) →
    sr = target_sample_rate audio_processor
    ∧ ∃ f, files (snd run) !! out = Some f
           ∧ mb = (inject_Z (st_size f) / inject_Z (1024 * 1024))%Q).
  { intros d sr size mb out Hr.
    pose proof (process_file_cases df_import init_df enhance_fn pow10 librosa_load
                  librosa_to_mono librosa_resample sf_write pydub_export mkdir_parent
                  unlink_error audio_processor fuel input_path output_path _ _ s
                  (snd run) (fst run) (surjective_pairing run)) as H.
    rewrite Hr in H. destruct H as (Hsr & Hmb & f & Hf & Hsize).
    split; [exact Hsr|]. exists f. split; [exact Hf|]. by rewrite Hsize. }
  assert (Htask : task =
    match update_state with
    | Ok _ =>
      match fst run with
      | Ok (Success d sr _ mb out) =>
        (Ok {| CeleryWorker.status := "completed";
               CeleryWorker.task_id := task_id;
               CeleryWorker.output_path := out;
               CeleryWorker.duration_seconds := d;
               CeleryWorker.sample_rate := sr;
               CeleryWorker.output_size_mb := mb;
               CeleryWorker.progress := 100 |}, snd run)
      | Ok (Failure err) => (Raise (Exception "Exception" err), snd run)
      | Raise e => (Raise e, snd run)
      | OutOfFuel => (OutOfFuel, snd run)
      end
    | Raise e => (Raise e, s)
    | OutOfFuel => (OutOfFuel, s)
    end).
  { unfold task, CeleryWorker.process_audio_task, try_exceptM, bindM, lift, ret, raise.
    cbv beta. fold run.
    destruct update_state as [[]|e|]; [| by destruct (is_Exception e) | reflexivity].
    destruct run as [[[d sr size mb out|err]|e|] s1]; cbn [fst snd];
      try reflexivity.
    by destruct (is_Exception e). }
  split; [|split].
  - intros e He. by rewrite Htask, He.
  - intros Hu. rewrite Htask, Hu. split; [|split].
    + intros err ->. reflexivity.
    + intros d sr size mb out Hr. rewrite Hr. split; [reflexivity|].
      exact (Hsuccess d sr size mb out Hr).
    + intros e ->. reflexivity.
  - intros res s' Hres. rewrite Htask in Hres.
    destruct update_state as [[]|e|]; [|discriminate|discriminate].
    destruct (fst run) as [[d sr size mb out|err]|e|] eqn:Hr; try discriminate.
    injection Hres as <- <-. cbn.
    destruct (Hsuccess d sr size mb out eq_refl) as (Hsr & f & Hf & Hmb).
    repeat split; try done. by exists f.
Qed.

End TaskProperties.

(** X15, witness: a two-sample upload processed with the options of a
    slider at 5, and an upload the loader cannot read. *)
Lemma process_audio_task_outcome_witness :
  let self := __init__ 48000 30 (1 # 20) None 0 in
  let s := {| _initialized := false; init_df_calls := 0; events := []; files := ∅ |} in
  let sf_write := fun (p : path) (a : list Q) (_ : Z) (fs : gmap path file) =>
    (Ok tt, <[p := File Regular 0 (44 + 2 * len a)]> fs) in
  let mkdir_parent := fun (_ : path) (fs : gmap path file) => (Ok tt, fs) in
  (∃ res s',
     CeleryWorker.process_audio_task (Ok tt) (fun _ => Ok tt) (fun x _ => Ok x)
       (fun _ => Ok 1%Q) (fun _ => Ok (Array1 [1 # 2; 1 # 4]%Q, 48000)) (fun _ => Ok [])
       (fun a _ _ => Ok a) sf_write (fun _ _ _ fs => (Ok tt, fs)) mkdir_parent
       (fun _ => None) (Ok tt) self 0
       (Path "uploads/a" ".wav") (Path "processed/enhanced_a" ".wav") "a"
       (Some (Main.proc_options (Some 5%Q))) s
     = (Ok res, s')
     ∧ CeleryWorker.status res = "completed"
     ∧ CeleryWorker.sample_rate res = 48000
     ∧ ∃ f, files s' !! CeleryWorker.output_path res = Some f
            ∧ CeleryWorker.output_size_mb res
              = (inject_Z (st_size f) / inject_Z (1024 * 1024))%Q)
  ∧ fst (CeleryWorker.process_audio_task (Ok tt) (fun _ => Ok tt) (fun x _ => Ok x)
           (fun _ => Ok 1%Q)
           (fun _ => Raise (Exception "NoBackendError" "no backend")) (fun _ => Ok [])
           (fun a _ _ => Ok a) sf_write (fun _ _ _ fs => (Ok tt, fs)) mkdir_parent
           (fun _ => None) (Ok tt) self 0
           (Path "uploads/a" ".xyz") (Path "processed/enhanced_a" ".wav") "a" None s)
    = Raise (Exception "Exception" "Failed to load audio file: no backend").
Proof.
  intros self s sf_write mkdir_parent. split.
  - eexists _, _. split; [vm_compute; reflexivity|].
    destruct (process_audio_task_outcome (Ok tt) (fun _ => Ok tt) (fun x _ => Ok x)
      (fun _ => Ok 1%Q) (fun _ => Ok (Array1 [1 # 2; 1 # 4]%Q, 48000)) (fun _ => Ok [])
      (fun a _ _ => Ok a) sf_write (fun _ _ _ fs => (Ok tt, fs)) mkdir_parent
      (fun _ => None) (Ok tt) self 0
      (Path "uploads/a" ".wav") (Path "processed/enhanced_a" ".wav") "a"
      (Some (Main.proc_options (Some 5%Q))) s) as (_ & _ & Hret).
    destruct (Hret _ _ ltac:(vm_compute; reflexivity)) as (Hst & _ & _ & Hsr & Hfile).
    split; [exact Hst|]. split; [exact Hsr | exact Hfile].
  - destruct (process_audio_task_outcome (Ok tt) (fun _ => Ok tt) (fun x _ => Ok x)
      (fun _ => Ok 1%Q)
      (fun _ => Raise (Exception "NoBackendError" "no backend")) (fun _ => Ok [])
      (fun a _ _ => Ok a) sf_write (fun _ _ _ fs => (Ok tt, fs)) mkdir_parent
      (fun _ => None) (Ok tt) self 0
      (Path "uploads/a" ".xyz") (Path "processed/enhanced_a" ".wav") "a" None s)
      as (_ & Hrun & _).
    destruct (Hrun eq_refl) as (Hfail & _).
    by rewrite (Hfail "Failed to load audio file: no backend" eq_refl).
Defined.

(** ** The options of an upload *)
Section OptionProperties.

Lemma max_bounds (a b : Q) :
  (a <= Main.max_ a b)%Q ∧ (b <= Main.max_ a b)%Q
  ∧ (Main.max_ a b = a ∨ Main.max_ a b = b).
Proof.
  unfold Main.max_. destruct (Qlt_le_dec a b); repeat split; auto; lra.
Qed.

Lemma min_bounds (a b : Q) :
  (Main.min_ a b <= a)%Q ∧ (Main.min_ a b <= b)%Q
  ∧ (Main.min_ a b = a ∨ Main.min_ a b = b).
Proof.
  unfold Main.min_. destruct (Qlt_le_dec b a); repeat split; auto; lra.
Qed.

(** The clamped slider value. *)
Lemma strength_range (noise_strength : Q) :
  let strength := Main.max_ 0 (Main.min_ 10 noise_strength) in
  (0 <= strength)%Q ∧ (strength <= 10)%Q
  ∧ ((noise_strength <= 0)%Q → strength = 0%Q)
  ∧ ((10 <= noise_strength)%Q → strength = 10%Q).
Proof.
  cbv zeta. unfold Main.max_, Main.min_.
  destruct (Qlt_le_dec noise_strength 10) as [H10|H10].
  - destruct (Qlt_le_dec 0 noise_strength) as [H0|H0];
      repeat split; intros; try reflexivity; try lra; exfalso; lra.
  - destruct (Qlt_le_dec 0 10) as [_|H0]; [|exfalso; lra].
    repeat split; intros; try reflexivity; try lra; exfalso; lra.
Qed.

(** [round] keeps a value between two integers between them, and fixes an
    integer. *)
Lemma round_bounds (x : Q) (a b : Z) :
  (inject_Z a <= x)%Q → (x <= inject_Z b)%Q → a ≤ Main.round_ x ≤ b.
Proof.
  intros Ha Hb.
  pose proof (Qfloor_le x) as Hf. pose proof (Qlt_floor x) as Hf'.
  assert (a ≤ Qfloor x).
  { apply Qfloor_resp_le in Ha. by rewrite Qfloor_Z in Ha. }
  assert (Qfloor x ≤ b).
  { apply Qfloor_resp_le in Hb. by rewrite Qfloor_Z in Hb. }
  assert (Hup : (1 # 2 <= x - inject_Z (Qfloor x))%Q → Qfloor x + 1 ≤ b).
  { intros Hr. destruct (Z.eq_dec (Qfloor x) b) as [Heq|Hne]; [|lia].
    exfalso. rewrite Heq in Hr. lra. }
  unfold Main.round_.
  destruct (Qlt_le_dec (x - inject_Z (Qfloor x)) (1 # 2)) as [Hlt|Hge]; [lia|].
  destruct (Qlt_le_dec (1 # 2) (x - inject_Z (Qfloor x))) as [Hgt|Hle].
  - specialize (Hup Hge). lia.
  - destruct (Z.even (Qfloor x)); [lia|]. specialize (Hup Hge). lia.
Qed.

Lemma round2_bounds (x : Q) (a b : Z) :
  (inject_Z a <= x * 100)%Q → (x * 100 <= inject_Z b)%Q →
  (inject_Z a / 100 <= Main.round2 x)%Q ∧ (Main.round2 x <= inject_Z b / 100)%Q.
Proof.
  intros Ha Hb. destruct (round_bounds _ _ _ Ha Hb) as [H1 H2].
  unfold Main.round2.
  assert (inject_Z a <= inject_Z (Main.round_ (x * 100)))%Q
    by (rewrite <- Zle_Qle; exact H1).
  assert (inject_Z (Main.round_ (x * 100)) <= inject_Z b)%Q
    by (rewrite <- Zle_Qle; exact H2).
  split; apply Qmult_le_compat_r; try assumption; discriminate.
Qed.

End OptionProperties.

(** X16: for every slider value, the options [upload_audio] builds hold,
    under the two keys the worker task reads, an attenuation limit between
    6 and 26 dB (6 for a slider at or below 0, 26 at or above 10) and an
    output gain between 1 and 2 dB (2 at or below 0, 1 at or above 10); the
    gain is never 0, so the gain stage of [enhance_audio] always clips its
    output to [-1, 1] for an upload with a slider value. *)
Theorem proc_options_range (noise_strength : Q) :
  ∃ a g,
    Main.proc_options (Some noise_strength) !! "attenuation_limit_db" = Some a
    ∧ Main.proc_options (Some noise_strength) !! "output_gain_db" = Some g
    ∧ (6 <= a)%Q ∧ (a <= 26)%Q ∧ (1 <= g)%Q ∧ (g <= 2)%Q
    ∧ ((noise_strength <= 0)%Q → (a == 6)%Q ∧ (g == 2)%Q)
    ∧ ((10 <= noise_strength)%Q → (a == 26)%Q ∧ (g == 1)%Q)
    ∧ ∀ (pow10 : Q → result Q) (enhanced out : list Q),
        gain_stage pow10 g enhanced = Ok out →
        Forall (fun x => (Qabs x <= 1)%Q) out.
Proof.
  unfold Main.proc_options.
  destruct (strength_range noise_strength) as (Hlo & Hhi & Hzero & Hten).
  set (strength := Main.max_ 0 (Main.min_ 10 noise_strength)) in *.
  cbv zeta. eexists _, _.
  split; [reflexivity|]. split; [reflexivity|].
  assert (Hr : (inject_Z 100 / 100 <= Main.round2 (2 - strength * (1 # 10)))%Q
               ∧ (Main.round2 (2 - strength * (1 # 10)) <= inject_Z 200 / 100)%Q).
  { apply round2_bounds.
    - change (inject_Z 100) with 100%Q. lra.
    - change (inject_Z 200) with 200%Q. lra. }
  destruct Hr as [Hr1 Hr2].
  apply (Qle_trans 1) in Hr1; [|discriminate].
  apply Qle_trans with (z := 2%Q) in Hr2; [|discriminate].
  assert (Hg : Main.max_ 0 (Main.round2 (2 - strength * (1 # 10)))
               = Main.round2 (2 - strength * (1 # 10))).
  { unfold Main.max_. destruct (Qlt_le_dec 0 _) as [_|Hle]; [reflexivity|].
    exfalso. lra. }
  rewrite Hg.
  split; [lra|]. split; [lra|]. split; [lra|]. split; [lra|].
  split; [|split].
  - intros H0. rewrite (Hzero H0). split; [reflexivity|]. vm_compute. reflexivity.
  - intros H10. rewrite (Hten H10). split; [reflexivity|]. vm_compute. reflexivity.
  - intros pow10 enhanced out. rewrite gain_stage_nonzero by lra.
    destruct (pow10 _) as [gain|e|]; cbn [bind]; intros [= <-].
    apply clip_unit_bound.
Qed.

(** ** Upload names *)
Section NameProperties.

Import FileHandler.

Lemma lower_ascii_dot (c : ascii) :
  Ascii.eqb (lower_ascii c) "." = Ascii.eqb c ".".
Proof. destruct c as [[] [] [] [] [] [] [] []]; reflexivity. Qed.

Lemma lower_ascii_idem (c : ascii) : lower_ascii (lower_ascii c) = lower_ascii c.
Proof. destruct c as [[] [] [] [] [] [] [] []]; reflexivity. Qed.

Lemma contains_dot_lower (s : string) : contains_dot (lower s) = contains_dot s.
Proof.
  induction s as [|c s IH]; [reflexivity|].
  cbn [lower contains_dot]. by rewrite lower_ascii_dot, IH.
Qed.

Lemma lower_idem (s : string) : lower (lower s) = lower s.
Proof.
  induction s as [|c s IH]; [reflexivity|].
  cbn [lower]. by rewrite lower_ascii_idem, IH.
Qed.

Lemma contains_dot_rsplit_last (s : string) : contains_dot (rsplit_last s) = false.
Proof.
  induction s as [|c s IH]; [reflexivity|].
  cbn [rsplit_last]. destruct (contains_dot s) eqn:Hs; [exact IH|].
  destruct (Ascii.eqb c ".") eqn:Hc; [exact Hs|].
  cbn [contains_dot]. by rewrite Hc, Hs.
Qed.

Lemma contains_dot_app (u e : string) :
  contains_dot (u +:+ String "." e) = true.
Proof.
  induction u as [|c u IH]; [reflexivity|].
  change (String c u +:+ String "." e) with (String c (u +:+ String "." e)).
  cbn [contains_dot]. rewrite IH. apply orb_true_r.
Qed.

Lemma rsplit_last_app (u e : string) :
  contains_dot e = false → rsplit_last (u +:+ String "." e) = e.
Proof.
  intros He. induction u as [|c u IH].
  - change ("" +:+ String "." e) with (String "." e).
    cbn [rsplit_last]. by rewrite He.
  - change (String c u +:+ String "." e) with (String c (u +:+ String "." e)).
    cbn [rsplit_last]. by rewrite contains_dot_app.
Qed.

End NameProperties.

(** X17: let [str.lower()] be any function that returns what it is given
    when that is already lower-cased (it is idempotent, and keeps "bin"),
    and that makes no dot where there was none. The name
    [generate_unique_filename] gives an upload then ends, after its last
    dot, in the lower-cased extension of the original name ("bin" for a
    name without a dot), whatever the unique id is;
    [validate_file_extension] accepts that name exactly when that
    extension is allowed, and for an original name with a dot it gives the
    stored name the very answer it gave the original name. *)
Theorem unique_filename_keeps_extension (str_lower : string → string)
    (set_iter : gset string → list string)
    (uuid4_hex : string) (self : FileHandler.handler) (filename : string) :
  (∀ t, str_lower (str_lower t) = str_lower t) →
  (∀ t, FileHandler.contains_dot t = false →
        FileHandler.contains_dot (str_lower t) = false) →
  str_lower "bin" = "bin" →
  let name := FileHandler.generate_unique_filename str_lower uuid4_hex self filename in
  let ext :=
    if FileHandler.contains_dot filename
    then str_lower (FileHandler.rsplit_last filename) else "bin" in
  FileHandler.contains_dot name = true
  ∧ FileHandler.rsplit_last name = ext
  ∧ (fst (FileHandler.validate_file_extension str_lower set_iter self name) = true
     ↔ ext ∈ FileHandler.allowed_extensions self)
  ∧ (FileHandler.contains_dot filename = true →
     FileHandler.validate_file_extension str_lower set_iter self name
     = FileHandler.validate_file_extension str_lower set_iter self filename).
Proof.
  intros Hidem Hdot Hbin name ext.
  assert (Hext : FileHandler.contains_dot ext = false).
  { unfold ext. destruct (FileHandler.contains_dot filename); [|reflexivity].
    apply Hdot, contains_dot_rsplit_last. }
  assert (Hlow : str_lower ext = ext).
  { unfold ext. destruct (FileHandler.contains_dot filename); [apply Hidem | exact Hbin]. }
  assert (Hname : name = uuid4_hex +:+ String "." ext) by reflexivity.
  assert (Hlast : FileHandler.rsplit_last name = ext).
  { rewrite Hname. by apply rsplit_last_app. }
  assert (Hcontains : FileHandler.contains_dot name = true).
  { rewrite Hname. apply contains_dot_app. }
  split; [exact Hcontains|]. split; [exact Hlast|].
  unfold FileHandler.validate_file_extension. rewrite Hcontains, Hlast, Hlow.
  split.
  - destruct (bool_decide_reflect (ext ∈ FileHandler.allowed_extensions self));
      cbn; split; try done.
  - intros Hf. unfold ext. rewrite Hf. reflexivity.
Qed.

(** X17, witness: the lower-casing of the letters A to Z, and an upload
    named [Song.MP3]. *)
Lemma unique_filename_keeps_extension_witness :
  let self := {| FileHandler.max_size_bytes := 1024;
                 FileHandler.allowed_extensions := {["mp3"; "wav"]} |} in
  let name := FileHandler.generate_unique_filename lower "0f3a" self "Song.MP3" in
  FileHandler.rsplit_last name = "mp3"
  ∧ FileHandler.validate_file_extension lower (fun _ => []) self name = (true, None).
Proof.
  intros self name.
  destruct (unique_filename_keeps_extension lower (fun _ => []) "0f3a" self "Song.MP3"
              lower_idem) as (_ & Hlast & _ & Hsame).
  - intros t Ht. by rewrite contains_dot_lower.
  - reflexivity.
  - split; [exact Hlast|].
    unfold name. rewrite (Hsame eq_refl). vm_compute. reflexivity.
Defined.

(** ** The model is loaded once *)
Section LoadedOnce.

Variable df_import : result unit.
Variable init_df : nat → result unit.
Variable enhance_fn : list Q → option Q → result (list Q).
Variable pow10 : Q → result Q.
Variable librosa_load : path → result (ndarray * Z).
Variable librosa_to_mono : list (list Q) → result (list Q).
Variable librosa_resample : list Q → Z → Z → result (list Q).
Variable sf_write : path → list Q → Z → gmap path file → result unit * gmap path file.
Variable pydub_export :
  path → path → string → gmap path file → result unit * gmap path file.
Variable mkdir_parent : path → gmap path file → result unit * gmap path file.
Variable unlink_error : path → option (string * string).

Ltac only_files :=
  cbn;
  repeat match goal with
         | |- context [is_Exception ?e] => destruct (is_Exception e); cbn
         end;
  intros [= _ <-]; reflexivity.

(** [save_audio] changes nothing of the state but the files. *)
Lemma save_audio_only_files (audio : list Q) (output_path : path) (sample_rate : Z)
    (s s' : state) (r : result path) :
  save_audio sf_write pydub_export mkdir_parent unlink_error audio output_path
    sample_rate s = (r, s') →
  s' = set_files (files s') s.
Proof.
  unfold save_audio, try_exceptM, bindM, ret, raise, unlink_missing_ok. cbv beta.
  destruct (mkdir_parent output_path (files s)) as [rm fs0].
  destruct rm as [[]|e|]; [|only_files|only_files].
  destruct (String.eqb (lower (suffix output_path)) ".wav");
    [|destruct (has_empty_name output_path); [only_files|]];
    cbn [files set_files];
    (match goal with
     | |- context [sf_write ?w audio sample_rate fs0] =>
       destruct (sf_write w audio sample_rate fs0) as [rw fs1];
       destruct rw as [[]|e|]; [|only_files|only_files];
       match goal with
       | |- context [negb ?b1 && negb ?b2] =>
         destruct (negb b1 && negb b2); [|only_files]
       end;
       cbn [files set_files];
       destruct (pydub_export w output_path _ fs1) as [rx fs2];
       destruct rx as [[]|e|]; cbn [files set_files]; [|only_files|only_files];
       destruct (exists_ fs2 output_path); [|only_files];
       destruct (stat fs2 output_path) as [st|e|]; cbn [bind];
         [|only_files|only_files];
       destruct (0 <? st_size st); [|only_files];
       destruct (unlink_error w); only_files
     end).
Qed.

(** X18: once the model is loaded, [process_file] never goes back to the
    loader: however the run ends, the object is still initialized, no
    loader call and no sleep has been made, and nothing of the state but
    the files has changed. *)
Theorem process_file_keeps_model (self : processor) (fuel : nat)
    (input_path output_path : path) (atten gain : option Q) (s s' : state)
    (r : result process_result) :
  _initialized s = true →
  process_file df_import init_df enhance_fn pow10 librosa_load librosa_to_mono
    librosa_resample sf_write pydub_export mkdir_parent unlink_error self fuel
    input_path output_path atten gain s = (r, s') →
  _initialized s' = true
  ∧ init_df_calls s' = init_df_calls s
  ∧ events s' = events s
  ∧ s' = set_files (files s') s.
Proof.
  intros Hinit Hrun.
  enough (s' = set_files (files s') s) as ->.
  { cbn. repeat split; done. }
  revert Hrun.
  assert (Hs : s = set_files (files s) s) by (by destruct s).
  unfold process_file, try_exceptM, bindM, ret, lift. cbv beta.
  unfold load_audio at 1. unfold lift.
  destruct (try_except _ _) as [loaded|e|].
  2:{ destruct (is_Exception e); intros [= _ <-]; exact Hs. }
  2:{ intros [= _ <-]; exact Hs. }
  destruct (snd loaded =? 0).
  { cbn. intros [= _ <-]; exact Hs. }
  unfold enhance_audio, bindM, lift. rewrite Hinit. cbn [negb].
  destruct (try_except _ _) as [enhanced|e|].
  2:{ destruct (is_Exception e); intros [= _ <-]; exact Hs. }
  2:{ intros [= _ <-]; exact Hs. }
  destruct (save_audio _ _ _ _ enhanced output_path (snd loaded) s) as [rs s2] eqn:Esave.
  apply save_audio_only_files in Esave.
  destruct rs as [final|e|].
  2:{ destruct (is_Exception e); intros [= _ <-]; exact Esave. }
  2:{ intros [= _ <-]; exact Esave. }
  destruct (stat (files s2) final) as [st|e|].
  - intros [= _ <-]; exact Esave.
  - destruct (is_Exception e); intros [= _ <-]; exact Esave.
  - intros [= _ <-]; exact Esave.
Qed.

End LoadedOnce.

(** X18, witness: a run on a loaded model with a loader that would fail. *)
Lemma process_file_keeps_model_witness :
  let self := __init__ 48000 30 (1 # 20) None 0 in
  let s := {| _initialized := true; init_df_calls := 1; events := [InitDf]; files := ∅ |} in
  let sf_write := fun (p : path) (a : list Q) (_ : Z) (fs : gmap path file) =>
    (Ok tt, <[p := File Regular 0 (44 + 2 * len a)]> fs) in
  let run :=
    process_file (Ok tt) (fun _ => Raise (Exception "HTTPError" "503")) (fun x _ => Ok x)
      (fun _ => Ok 1%Q) (fun _ => Ok (Array1 [1 # 2; 1 # 4]%Q, 48000)) (fun _ => Ok [])
      (fun a _ _ => Ok a) sf_write (fun _ _ _ fs => (Ok tt, fs))
      (fun _ fs => (Ok tt, fs)) (fun _ => None) self 0
      (Path "uploads/a" ".wav") (Path "processed/a" ".wav") None None s in
  _initialized (snd run) = true
  ∧ init_df_calls (snd run) = 1%nat
  ∧ events (snd run) = [InitDf]
  ∧ snd run = set_files (files (snd run)) s.
Proof.
  intros self s sf_write run.
  exact (process_file_keeps_model (Ok tt) (fun _ => Raise (Exception "HTTPError" "503"))
           (fun x _ => Ok x) (fun _ => Ok 1%Q)
           (fun _ => Ok (Array1 [1 # 2; 1 # 4]%Q, 48000)) (fun _ => Ok [])
           (fun a _ _ => Ok a) sf_write (fun _ _ _ fs => (Ok tt, fs))
      (fun _ fs => (Ok tt, fs)) (fun _ => None) self 0
           (Path "uploads/a" ".wav") (Path "processed/a" ".wav") None None s
           (snd run) (fst run) eq_refl (surjective_pairing run)).
Defined.
